(** * Currency normalisation: a shallow embedding of [lambda_function.py]

    The development has these parts:

    - [Exn], [Result]: Python exceptions as values;
    - [Decimal]: the [decimal] module's numbers under the default context
      (28 significant digits, [ROUND_HALF_EVEN], traps on
      [InvalidOperation], [DivisionByZero] and [Overflow]), as far as the
      program uses them: construction from a string, an int, a bool or a
      float, [*], [/], [quantize] and [str];
    - [Dict]: insertion-ordered dictionaries with string keys;
    - the collaborators (rate feed, object store, table, clock, standard
      output) as oracles over the history of calls, and the six functions
      of the source written in a state-and-exception monad;
    - the event as the handler finds it, with members that may be
      missing ([Invocation]);
    - the arithmetic the specification speaks of (rounding half-up to
      cents, rounding to the context, the rounded quotient), defined
      independently of the code;
    - facts about the monad, the dictionaries, the digits and the decimal
      operations, among them that [quantize] is the specification's
      rounding and that [/] is correctly rounded;
    - facts about the text of a decimal ([str] and the parser), the
      order of the amounts, the entries of the rate table, the batch and
      the handler's effects;
    - the properties of the specification, one theorem per claim, C1 to
      C10;
    - further properties of the code, X1 to X24. *)

From Stdlib Require Import ZArith NArith List String Ascii Bool Lia.
From Stdlib Require Import PrimFloat SpecFloat FloatOps FloatAxioms.
Import ListNotations.

Local Open Scope Z_scope.

(** ** Exceptions *)

(** The [Exception] subclasses the program can meet.  [External] stands for
    whatever a collaborator raises ([requests], [boto3], the csv reader). *)
Inductive Exn : Type :=
| InvalidOperation
| DivisionByZero
| Overflow
| TypeError
| ValueError (msg : string)
| KeyError (key : string)
| IndexError
| External (what : string).

Inductive Result (A : Type) : Type :=
| Ok (a : A)
| Raise (e : Exn).
Arguments Ok {A} a.
Arguments Raise {A} e.

Definition rbind {A B} (r : Result A) (k : A -> Result B) : Result B :=
  match r with
  | Ok a => k a
  | Raise e => Raise e
  end.

(** ** Decimal digits of a natural number *)

Module Digits.

Definition digit_char (d : N) : ascii := ascii_of_N (48 + d).

(** [str(n)] for a non-negative int, most significant digit first. *)
Fixpoint digits_fuel (fuel : nat) (n : N) (acc : list ascii) : list ascii :=
  match fuel with
  | O => digit_char (n mod 10) :: acc
  | S f =>
      if (n <? 10)%N then digit_char n :: acc
      else digits_fuel f (n / 10)%N (digit_char (n mod 10) :: acc)
  end.

Definition digits (n : N) : list ascii :=
  digits_fuel (N.to_nat (N.size n)) n [].

(** [len(str(n))] *)
Fixpoint ndigits_fuel (fuel : nat) (n : N) : Z :=
  match fuel with
  | O => 1
  | S f => if (n <? 10)%N then 1 else 1 + ndigits_fuel f (n / 10)%N
  end.

Definition ndigits (n : N) : Z := ndigits_fuel (N.to_nat (N.size n)) n.

Definition is_digit (c : ascii) : bool :=
  let k := N_of_ascii c in ((48 <=? k) && (k <=? 57))%N.

Definition digit_val (c : ascii) : N := (N_of_ascii c - 48)%N.

(** [int(s)] for a string of ASCII digits (the empty string reads as 0,
    which is how the callers use it: [int(diag or '0')]). *)
Definition int_of_digits (s : list ascii) : N :=
  fold_left (fun acc c => (acc * 10 + digit_val c)%N) s 0%N.

Definition pow10 (k : Z) : N := (10 ^ Z.to_N k)%N.

End Digits.

(** ** The decimal module *)

Module Dec.
Import Digits.

(** The default context. *)
Definition prec : Z := 28.
Definition Emax : Z := 999999.
Definition Emin : Z := -999999.
Definition Etiny : Z := Emin - prec + 1.
Definition Etop : Z := Emax - prec + 1.

(** A [Decimal] object: [_sign], [_int] (read as a number), [_exp].  The
    special values carry ['F'], ['n'] or ['N'] in [_exp]; a NaN's payload
    [_int] has no leading zeros, the empty payload is 0 here. *)
Inductive Decimal : Type :=
| Fin (sign : bool) (coeff : N) (exp : Z)
| Inf (sign : bool)
| NaN (sign : bool) (signal : bool) (diag : N).

Inductive Rounding : Type := ROUND_HALF_UP | ROUND_HALF_EVEN.

(** [Decimal.__bool__] *)
Definition truthy (d : Decimal) : bool :=
  match d with
  | Fin _ c _ => negb (c =? 0)%N
  | _ => true
  end.

(** [_round_half_up(self, prec)] and [_round_half_even(self, prec)] on a
    coefficient of which the last [drop >= 1] digits are to go: the kept
    part is [c / 10^drop], the first dropped digit is the leading digit of
    [c mod 10^drop].  The answer is 1 (round up), 0 (exact) or -1. *)
Definition round_half_up (c : N) (drop : Z) : Z :=
  let r := (c mod pow10 drop)%N in
  if (5 <=? r / pow10 (drop - 1))%N then 1
  else if (r =? 0)%N then 0
  else -1.

Definition exact_half (c : N) (drop : Z) : bool :=
  ((c mod pow10 drop) =? 5 * pow10 (drop - 1))%N.

Definition round_half_even (c : N) (drop : Z) : Z :=
  if exact_half c drop && N.even (c / pow10 drop) then -1
  else round_half_up c drop.

Definition pick_rounding_function (r : Rounding) : N -> Z -> Z :=
  match r with
  | ROUND_HALF_UP => round_half_up
  | ROUND_HALF_EVEN => round_half_even
  end.

(** [_fix_nan]: a payload longer than [prec] digits keeps its last [prec]
    digits, leading zeros stripped. *)
Definition fix_nan (d : Decimal) : Decimal :=
  match d with
  | NaN s sg p => if ndigits p >? prec then NaN s sg (p mod pow10 prec) else d
  | _ => d
  end.

(** [_fix(context)]: round to the context's precision and exponent range. *)
Definition fix_ (d : Decimal) : Result Decimal :=
  match d with
  | NaN _ _ _ => Ok (fix_nan d)
  | Inf _ => Ok d
  | Fin s c e =>
      if (c =? 0)%N then
        Ok (Fin s 0 (Z.min (Z.max e Etiny) Emax))
      else
        let exp_min := ndigits c + e - prec in
        if exp_min >? Etop then Raise Overflow
        else
          let exp_min := if exp_min <? Etiny then Etiny else exp_min in
          if e <? exp_min then
            let digits := ndigits c + e - exp_min in
            let '(c1, drop) :=
              if digits <? 0 then (1%N, 1) else (c, exp_min - e) in
            let changed := round_half_even c1 drop in
            let coeff := (c1 / pow10 drop)%N in
            let '(coeff, exp_min) :=
              if changed >? 0 then
                let coeff := (coeff + 1)%N in
                if ndigits coeff >? prec then ((coeff / 10)%N, exp_min + 1)
                else (coeff, exp_min)
              else (coeff, exp_min) in
            if exp_min >? Etop then Raise Overflow
            else Ok (Fin s coeff exp_min)
          else Ok d
  end.

(** [_check_nans(self, other)]: [None] when neither is a NaN. *)
Definition check_nans (a b : Decimal) : option (Result Decimal) :=
  match a, b with
  | NaN _ true _, _ => Some (Raise InvalidOperation)
  | _, NaN _ true _ => Some (Raise InvalidOperation)
  | NaN _ false _, _ => Some (Ok (fix_nan a))
  | _, NaN _ false _ => Some (Ok (fix_nan b))
  | _, _ => None
  end.

Definition sign_of (d : Decimal) : bool :=
  match d with
  | Fin s _ _ | Inf s | NaN s _ _ => s
  end.

(** [Decimal.__mul__].  The source's short cuts for a zero operand and for
    a coefficient ['1'] give the coefficient the general product gives. *)
Definition mul (a b : Decimal) : Result Decimal :=
  let resultsign := xorb (sign_of a) (sign_of b) in
  match check_nans a b with
  | Some r => r
  | None =>
      match a, b with
      | Inf _, _ =>
          if truthy b then Ok (Inf resultsign) else Raise InvalidOperation
      | _, Inf _ =>
          if truthy a then Ok (Inf resultsign) else Raise InvalidOperation
      | Fin _ c1 e1, Fin _ c2 e2 =>
          fix_ (Fin resultsign (c1 * c2) (e1 + e2))
      | _, _ => Raise InvalidOperation
      end
  end.

(** The loop of [__truediv__] for an exact quotient:
    [while exp < ideal_exp and coeff % 10 == 0: coeff //= 10; exp += 1]. *)
Fixpoint strip_zeros (fuel : nat) (coeff : N) (exp : Z) (ideal_exp : Z)
  : N * Z :=
  match fuel with
  | O => (coeff, exp)
  | S f =>
      if (exp <? ideal_exp) && (coeff mod 10 =? 0)%N
      then strip_zeros f (coeff / 10)%N (exp + 1) ideal_exp
      else (coeff, exp)
  end.

(** [Decimal.__truediv__] *)
Definition truediv (a b : Decimal) : Result Decimal :=
  let sign := xorb (sign_of a) (sign_of b) in
  match check_nans a b with
  | Some r => r
  | None =>
      match a, b with
      | Inf _, Inf _ => Raise InvalidOperation
      | Inf _, _ => Ok (Inf sign)
      | _, Inf _ => Ok (Fin sign 0 Etiny)
      | Fin _ c1 e1, Fin _ c2 e2 =>
          if (c2 =? 0)%N then
            if (c1 =? 0)%N then Raise InvalidOperation
            else Raise DivisionByZero
          else if (c1 =? 0)%N then
            fix_ (Fin sign 0 (e1 - e2))
          else
            let shift := ndigits c2 - ndigits c1 + prec + 1 in
            let exp := e1 - e2 - shift in
            let '(coeff, remainder) :=
              if 0 <=? shift
              then N.div_eucl (c1 * pow10 shift) c2
              else N.div_eucl c1 (c2 * pow10 (- shift)) in
            let '(coeff, exp) :=
              if negb (remainder =? 0)%N then
                ((if (coeff mod 5 =? 0)%N then coeff + 1 else coeff)%N, exp)
              else
                strip_zeros (Z.to_nat (e1 - e2 - exp)) coeff exp (e1 - e2) in
            fix_ (Fin sign coeff exp)
      | _, _ => Raise InvalidOperation
      end
  end.

(** [_rescale(exp, rounding)] on a finite number. *)
Definition rescale (s : bool) (c : N) (e : Z) (exp : Z) (r : Rounding)
  : Decimal :=
  if (c =? 0)%N then Fin s 0 exp
  else if exp <=? e then Fin s (c * pow10 (e - exp)) exp
  else
    let digits := ndigits c + e - exp in
    let '(c1, drop) := if digits <? 0 then (1%N, 1) else (c, exp - e) in
    let changed := pick_rounding_function r c1 drop in
    let coeff := (c1 / pow10 drop)%N in
    let coeff := if changed =? 1 then (coeff + 1)%N else coeff in
    Fin s coeff exp.

(** [adjusted()]: the exponent of the leading digit. *)
Definition adjusted (c : N) (e : Z) : Z := e + ndigits c - 1.

(** [quantize(exp, rounding)] *)
Definition quantize (a q : Decimal) (r : Rounding) : Result Decimal :=
  match check_nans a q with
  | Some res => res
  | None =>
      match a, q with
      | Inf _, Inf _ => Ok a
      | Inf _, _ | _, Inf _ => Raise InvalidOperation
      | Fin s c e, Fin _ _ qe =>
          if negb ((Etiny <=? qe) && (qe <=? Emax)) then
            Raise InvalidOperation
          else if (c =? 0)%N then fix_ (Fin s 0 qe)
          else if adjusted c e >? Emax then Raise InvalidOperation
          else if adjusted c e - qe + 1 >? prec then Raise InvalidOperation
          else
            match rescale s c e qe r with
            | Fin s' c' e' =>
                if adjusted c' e' >? Emax then Raise InvalidOperation
                else if ndigits c' >? prec then Raise InvalidOperation
                else fix_ (Fin s' c' e')
            | other => Ok other
            end
      | _, _ => Raise InvalidOperation
      end
  end.

(** *** Construction *)

(** Strings are read as ASCII text: the digits and the white space of
    other scripts, which the library accepts as well, are not modelled.

    [str.strip()] removes the white space of [str.isspace]; of the ASCII
    range these are 9..13 and 28..32. *)
Definition is_space (c : ascii) : bool :=
  let k := N_of_ascii c in
  (((9 <=? k) && (k <=? 13)) || ((28 <=? k) && (k <=? 32)))%N.

Fixpoint lstrip (s : list ascii) : list ascii :=
  match s with
  | c :: t => if is_space c then lstrip t else s
  | [] => []
  end.

Definition strip (s : list ascii) : list ascii :=
  rev (lstrip (rev (lstrip s))).

Definition remove_underscores (s : list ascii) : list ascii :=
  filter (fun c => negb (Ascii.eqb c "_")) s.

(** The pattern is matched with [re.IGNORECASE]. *)
Definition lower (c : ascii) : ascii :=
  let k := N_of_ascii c in
  if ((65 <=? k) && (k <=? 90))%N then ascii_of_N (k + 32) else c.

(** The longest prefix of digits (the pattern is greedy) and what follows
    it. *)
Fixpoint span_digits (s : list ascii) : list ascii * list ascii :=
  match s with
  | c :: t =>
      if is_digit c then let '(d, r) := span_digits t in (c :: d, r)
      else ([], s)
  | [] => ([], [])
  end.

(** The optional sign. *)
Definition parse_sign (s : list ascii) : bool * list ascii :=
  match s with
  | "-"%char :: t => (true, t)
  | "+"%char :: t => (false, t)
  | _ => (false, s)
  end.

(** The optional exponent group, [E], a sign and at least one digit, up to
    the end of the string; 0 when the group is absent. *)
Definition parse_exp (s : list ascii) : option Z :=
  match s with
  | [] => Some 0
  | "e"%char :: t =>
      let '(neg, t) := parse_sign t in
      match span_digits t with
      | ((_ :: _) as d, []) =>
          let n := Z.of_N (int_of_digits d) in
          Some (if neg then - n else n)
      | _ => None
      end
  | _ => None
  end.

(** The number alternative of the pattern, after the sign. *)
Definition parse_number (sign : bool) (s : list ascii) : option Decimal :=
  let '(intpart, rest) := span_digits s in
  let '(fracpart, rest) :=
    match rest with
    | "."%char :: t => span_digits t
    | _ => ([], rest)
    end in
  match intpart ++ fracpart with
  | [] => None
  | ds =>
      match parse_exp rest with
      | Some exp =>
          Some (Fin sign (int_of_digits ds)
                  (exp - Z.of_nat (List.length fracpart)))
      | None => None
      end
  end.

(** The NaN alternative: an optional [s], [NaN], then the diagnostic
    digits up to the end of the string. *)
Definition parse_nan (sign : bool) (s : list ascii) : option Decimal :=
  let '(signal, s) :=
    match s with
    | "s"%char :: t => (true, t)
    | _ => (false, s)
    end in
  match s with
  | "n"%char :: "a"%char :: "n"%char :: t =>
      match span_digits t with
      | (d, []) => Some (NaN sign signal (int_of_digits d))
      | _ => None
      end
  | _ => None
  end.

(** The infinity alternative: [Inf] or [Infinity]. *)
Definition parse_inf (sign : bool) (s : list ascii) : option Decimal :=
  if list_eq_dec ascii_dec s (list_ascii_of_string "inf") then Some (Inf sign)
  else if list_eq_dec ascii_dec s (list_ascii_of_string "infinity")
       then Some (Inf sign)
  else None.

(** [Decimal.__new__] on a [str]: the value is stripped, its underscores
    are removed, and the result is matched against [_parser]. *)
Definition parser (value : string) : option Decimal :=
  let s := remove_underscores (strip (list_ascii_of_string value)) in
  let '(sign, s) := parse_sign (map lower s) in
  match parse_number sign s with
  | Some d => Some d
  | None =>
      match parse_inf sign s with
      | Some d => Some d
      | None => parse_nan sign s
      end
  end.

(** [Decimal(value)] for a [str]: exact, no rounding; a string that is not
    a numeric string signals [ConversionSyntax], an [InvalidOperation]. *)
Definition of_string (value : string) : Result Decimal :=
  match parser value with
  | Some d => Ok d
  | None => Raise InvalidOperation
  end.

(** [Decimal(value)] for an [int] (and a [bool], which is one). *)
Definition of_int (z : Z) : Decimal := Fin (z <? 0) (Z.abs_N z) 0.

(** [float.as_integer_ratio] on [m * 2^(-k)]: the fraction in lowest terms
    has denominator [2^k'] after the common factors of two are gone. *)
Fixpoint reduce2 (m : positive) (k : nat) : positive * nat :=
  match k, m with
  | S k', xO m' => reduce2 m' k'
  | _, _ => (m, k)
  end.

(** [Decimal(value)] for a [float]: [from_float], the exact binary value. *)
Definition of_float (f : float) : Decimal :=
  match Prim2SF f with
  | S754_zero s => Fin s 0 0
  | S754_infinity s => Inf s
  | S754_nan => NaN false false 0
  | S754_finite s m e =>
      if 0 <=? e then Fin s (Npos m * 2 ^ Z.to_N e) 0
      else
        let '(n, k) := reduce2 m (Z.to_nat (- e)) in
        Fin s (Npos n * 5 ^ N.of_nat k) (- Z.of_nat k)
  end.

(** *** [str] *)

Fixpoint zeros (n : nat) : list ascii :=
  match n with
  | O => []
  | S k => "0"%char :: zeros k
  end.

(** The exponent as [%+d] prints it. *)
Definition signed_int (n : Z) : list ascii :=
  (if n <? 0 then "-"%char else "+"%char) :: digits (Z.abs_N n).

Definition sign_chars (s : bool) : list ascii :=
  if s then ["-"%char] else [].

(** [Decimal.__str__]: the scientific string of the specification. *)
Definition to_chars (d : Decimal) : list ascii :=
  match d with
  | Inf s => sign_chars s ++ list_ascii_of_string "Infinity"
  | NaN s signal p =>
      sign_chars s
        ++ list_ascii_of_string (if signal then "sNaN" else "NaN")
        ++ (if (p =? 0)%N then [] else digits p)
  | Fin s c e =>
      let int := digits c in
      let len := Z.of_nat (List.length int) in
      let leftdigits := e + len in
      let dotplace :=
        if (e <=? 0) && (-6 <? leftdigits) then leftdigits else 1 in
      let '(intpart, fracpart) :=
        if dotplace <=? 0 then
          (["0"%char], "."%char :: zeros (Z.to_nat (- dotplace)) ++ int)
        else if len <=? dotplace then
          (int ++ zeros (Z.to_nat (dotplace - len)), [])
        else
          (firstn (Z.to_nat dotplace) int,
           "."%char :: skipn (Z.to_nat dotplace) int) in
      let exp :=
        if leftdigits =? dotplace then []
        else "E"%char :: signed_int (leftdigits - dotplace) in
      sign_chars s ++ intpart ++ fracpart ++ exp
  end.

Definition to_str (d : Decimal) : string :=
  string_of_list_ascii (to_chars d).

End Dec.

(** ** Dictionaries

    A Python [dict] with [str] keys keeps its keys in insertion order;
    assigning to a key that is there keeps the key's place. *)

Module Dict.
Section Dict.
Context {V : Type}.

Definition dict : Type := list (string * V).

(** [d.get(k)] *)
Fixpoint get (k : string) (d : dict) : option V :=
  match d with
  | [] => None
  | (k', v) :: t => if String.eqb k k' then Some v else get k t
  end.

(** [k in d] *)
Definition mem (k : string) (d : dict) : bool :=
  match get k d with
  | Some _ => true
  | None => false
  end.

(** [d[k]] *)
Definition getitem (k : string) (d : dict) : Result V :=
  match get k d with
  | Some v => Ok v
  | None => Raise (KeyError k)
  end.

(** [d[k] = v] *)
Fixpoint set (k : string) (v : V) (d : dict) : dict :=
  match d with
  | [] => [(k, v)]
  | (k', v') :: t =>
      if String.eqb k k' then (k, v) :: t else (k', v') :: set k v t
  end.

(** [d.keys()] *)
Definition keys (d : dict) : list string := map fst d.
End Dict.
Arguments dict V : clear implicits.
End Dict.

Import Dec.
Local Open Scope string_scope.
Local Open Scope list_scope.

(** ** Data *)

(** A cell of a row as [csv.DictReader] yields it: a string, or [None] for
    a cell a short line leaves out. *)
Inductive Value : Type :=
| VNone
| VStr (s : string).

(** [str(v)] *)
Definition py_str (v : Value) : string :=
  match v with
  | VNone => "None"
  | VStr s => s
  end.

Definition Row : Type := Dict.dict Value.

(** A raw rate of the feed's [rates] object, as [json] decodes a scalar:
    [null], a boolean, an integer, a number with a fraction or an exponent
    (a binary64 float), or a string.  Arrays and objects as rates are left
    out. *)
Inductive RawRate : Type :=
| RNull
| RBool (b : bool)
| RInt (z : Z)
| RFloat (f : float)
| RStr (s : string).

Definition Snapshot : Type := Dict.dict RawRate.
Definition RateTable : Type := Dict.dict Decimal.

(** Truth value of a raw rate, as [if rate] tests it. *)
Definition raw_truthy (r : RawRate) : bool :=
  match r with
  | RNull => false
  | RBool b => b
  | RInt z => negb (z =? 0)%Z
  | RFloat f => negb (PrimFloat.eqb f 0%float)
  | RStr s => negb (String.eqb s "")
  end.

(** [Decimal(rate)] *)
Definition Decimal_of_raw (r : RawRate) : Result Decimal :=
  match r with
  | RNull => Raise TypeError
  | RBool b => Ok (of_int (if b then 1 else 0))
  | RInt z => Ok (of_int z)
  | RFloat f => Ok (of_float f)
  | RStr s => of_string s
  end.

(** [Decimal(row['price'])] *)
Definition Decimal_of_value (v : Value) : Result Decimal :=
  match v with
  | VNone => Raise TypeError
  | VStr s => of_string s
  end.

(** One entry of [event['Records']]: the bucket name and the object key. *)
Record FileRef : Type := { bucket : string; key : string }.

(** The handler's return value. *)
Record Response : Type := { statusCode : Z; body : string }.

(** ** Collaborators and effects *)

(** What the program prints; the exception stands for its [{e}]. *)
Inductive LogLine : Type :=
| Error_fetching_exchange_rates (e : Exn)
| Error_reading_file (key bucket : string) (e : Exn)
| Error_processing_file (key bucket : string) (e : Exn)
| Error_uploading_item (e : Exn)
| Error_writing_processed_file (bucket key : string) (e : Exn).

(** The calls the program makes to the outside, in the order it makes them.
    [EvPutObject] carries the csv document as the header and the lines
    [DictWriter] hands to the csv writer; their rendering to text is the
    library's. *)
Inductive Event : Type :=
| EvHttpGet
| EvGetObject (bucket key : string)
| EvUtcNow
| EvPutItem (item : Row)
| EvBatchFlush
| EvPutObject (bucket key : string)
    (header : list string) (lines : list (list string))
| EvPrint (l : LogLine).

Definition Trace : Type := list Event.

(** The outside world: each collaborator answers from the history so far.
    - [requests_get]: the request, [raise_for_status], [json()] and the
      [rates] member of the decoded object ([None]: no such member); a
      body that is no object, or whose [rates] is none, makes the [try]
      block raise like a failed request, and is a [Raise] here;
    - [s3_get_object]: the object read, decoded and parsed by [DictReader];
    - [utcnow_isoformat]: the clock;
    - [batch_put_item], [batch_flush]: the table's batch writer, the flush
      being the one on leaving the [with] block;
    - [s3_put_object]: the write to the processed store. *)
Record World : Type := {
  requests_get : Trace -> Result (option Snapshot);
  s3_get_object : Trace -> string -> string -> Result (list Row);
  utcnow_isoformat : Trace -> string;
  batch_put_item : Trace -> Row -> Result unit;
  batch_flush : Trace -> Result unit;
  s3_put_object :
    Trace -> string -> string -> list string -> list (list string)
    -> Result unit
}.

(** Computations: the history is threaded through, and an exception keeps
    the history it was raised in. *)
Definition M (A : Type) : Type := Trace -> Result A * Trace.

Definition ret {A} (a : A) : M A := fun t => (Ok a, t).

Definition bind {A B} (c : M A) (k : A -> M B) : M B :=
  fun t =>
    match c t with
    | (Ok a, t') => k a t'
    | (Raise e, t') => (Raise e, t')
    end.

Definition raise {A} (e : Exn) : M A := fun t => (Raise e, t).

Definition lift {A} (r : Result A) : M A := fun t => (r, t).

(** [try: c except Exception as e: h e] *)
Definition try_except {A} (c : M A) (h : Exn -> M A) : M A :=
  fun t =>
    match c t with
    | (Ok a, t') => (Ok a, t')
    | (Raise e, t') => h e t'
    end.

(** A call to a collaborator: the event is recorded, then the answer given
    on the history before the call is returned or raised. *)
Definition call {A} (ev : Event) (answer : Trace -> Result A) : M A :=
  fun t => (answer t, (t ++ [ev])).

Definition print (l : LogLine) : M unit :=
  fun t => (Ok tt, (t ++ [EvPrint l])).

Declare Scope monad_scope.
Delimit Scope monad_scope with monad.
Notation "x <- c ;; k" := (bind c (fun x => k))
  (at level 61, c at next level, right associativity) : monad_scope.
Notation "c ;; k" := (bind c (fun _ => k))
  (at level 61, right associativity) : monad_scope.
Local Open Scope monad_scope.

(** [for x in xs: s = body x s] *)
Fixpoint for_each {A S} (xs : list A) (body : A -> S -> M S) (s : S) : M S :=
  match xs with
  | [] => ret s
  | x :: rest => s' <- body x s ;; for_each rest body s'
  end.

(** ** The program *)

Section Program.

Variable w : World.

(** [PROCESSED_PROPERTIES_BUCKET] *)
Variable processed_bucket : string.

(** [Decimal(usd_rate) / Decimal(rate)] *)
Definition multiplier (usd_rate rate : RawRate) : Result Decimal :=
  rbind (Decimal_of_raw usd_rate) (fun u =>
  rbind (Decimal_of_raw rate) (fun r =>
  truediv u r)).

(** The dict comprehension of [fetch_exchange_rates]:
    [{currency: Decimal(usd_rate) / Decimal(rate)
      for currency, rate in rates.items() if rate}] *)
Fixpoint rates_comprehension (usd_rate : RawRate) (items : Snapshot)
    (acc : RateTable) : Result RateTable :=
  match items with
  | [] => Ok acc
  | (currency, rate) :: rest =>
      if raw_truthy rate then
        rbind (multiplier usd_rate rate) (fun q =>
        rates_comprehension usd_rate rest (Dict.set currency q acc))
      else rates_comprehension usd_rate rest acc
  end.

Definition fetch_exchange_rates : M RateTable :=
  try_except
    (data <- call EvHttpGet (requests_get w) ;;
     let rates := match data with Some r => r | None => [] end in
     match Dict.get "USD" rates with
     | None | Some RNull =>
         raise (ValueError "Missing exchange rate for USD")
     | Some usd_rate => lift (rates_comprehension usd_rate rates [])
     end)
    (fun e => print (Error_fetching_exchange_rates e) ;; raise e).

Definition read_csv_from_s3 (bucket key : string) : M (list Row) :=
  try_except
    (call (EvGetObject bucket key) (fun t => s3_get_object w t bucket key))
    (fun e => print (Error_reading_file key bucket e) ;; raise e).

(** [Decimal('0.01')] *)
Definition cent : Decimal := Fin false 1 (-2).

Definition convert_currency (price exchange_rate : Decimal)
  : Result Decimal :=
  rbind (mul price exchange_rate) (fun converted_price =>
  quantize converted_price cent ROUND_HALF_UP).

(** [currency in exchange_rates] and [exchange_rates[currency]]: a
    currency cell that is [None] is no key of the table. *)
Definition lookup_rate (currency : Value) (exchange_rates : RateTable)
  : option Decimal :=
  match currency with
  | VStr c => Dict.get c exchange_rates
  | VNone => None
  end.

(** The body of the loop of [process_csv_data]. *)
Definition process_row (exchange_rates : RateTable) (row : Row)
    (processed_data : list Row) : M (list Row) :=
  if Dict.mem "price" row && Dict.mem "currency" row then
    p <- lift (Dict.getitem "price" row) ;;
    price <- lift (Decimal_of_value p) ;;
    currency <- lift (Dict.getitem "currency" row) ;;
    row <- match lookup_rate currency exchange_rates with
           | Some rate =>
               converted <- lift (convert_currency price rate) ;;
               let row := Dict.set "price" (VStr (to_str converted)) row in
               ret (Dict.set "currency" (VStr "USD") row)
           | None => ret row
           end ;;
    now <- call EvUtcNow (fun t => Ok (utcnow_isoformat w t)) ;;
    let row := Dict.set "creationDate" (VStr now) row in
    ret (processed_data ++ [row])
  else ret processed_data.

Definition process_csv_data (csv_data : list Row)
    (exchange_rates : RateTable) : M (list Row) :=
  for_each csv_data (process_row exchange_rates) [].

(** The body of the loop of [upload_to_dynamodb].  The item is mutated in
    place, so what an assignment has done stays done when a later
    statement of the [try] block raises; the item as it stands at the end
    is returned. *)
Definition upload_item (item : Row) : M Row :=
  match Dict.get "zpid" item with
  | None => print (Error_uploading_item (KeyError "zpid")) ;; ret item
  | Some zpid =>
      let item := Dict.set "zpid" (VStr (py_str zpid)) item in
      match Dict.get "creationDate" item with
      | None =>
          print (Error_uploading_item (KeyError "creationDate")) ;;
          ret item
      | Some creationDate =>
          let item :=
            Dict.set "creationDate" (VStr (py_str creationDate)) item in
          try_except
            (call (EvPutItem item) (fun t => batch_put_item w t item))
            (fun e => print (Error_uploading_item e)) ;;
          ret item
      end
  end.

(** [upload_to_dynamodb(table, items)]; the table is the world's.  The
    source returns nothing and leaves its work in the items it was given:
    here the items come back as the function leaves them. *)
Definition upload_to_dynamodb (items : list Row) : M (list Row) :=
  items <- for_each items
             (fun item done =>
                item <- upload_item item ;; ret (done ++ [item]))
             [] ;;
  call EvBatchFlush (batch_flush w) ;;
  ret items.

(** A cell as the csv writer prints it: [None] prints as nothing. *)
Definition csv_cell (v : Value) : string :=
  match v with
  | VNone => ""
  | VStr s => s
  end.

(** [DictWriter._dict_to_list] with the defaults [restval=''] and
    [extrasaction='raise'] (the message of the [ValueError] goes on to
    list the fields). *)
Definition dict_to_list (fieldnames : list string) (rowdict : Row)
  : Result (list string) :=
  if forallb (fun k => existsb (String.eqb k) fieldnames)
       (Dict.keys rowdict)
  then
    Ok (map (fun k =>
               match Dict.get k rowdict with
               | Some v => csv_cell v
               | None => ""
               end) fieldnames)
  else Raise (ValueError "dict contains fields not in fieldnames").

(** [writerows]: the rows in order, up to the first that raises. *)
Fixpoint writerows (fieldnames : list string) (data : list Row)
  : Result (list (list string)) :=
  match data with
  | [] => Ok []
  | rowdict :: rest =>
      rbind (dict_to_list fieldnames rowdict) (fun line =>
      rbind (writerows fieldnames rest) (fun lines =>
      Ok (line :: lines)))
  end.

Definition write_processed_csv_to_s3 (bucket key : string)
    (data : list Row) : M unit :=
  try_except
    (first <- lift (match data with
                    | [] => Raise IndexError
                    | r :: _ => Ok r
                    end) ;;
     let fieldnames := Dict.keys first in
     lines <- lift (writerows fieldnames data) ;;
     call (EvPutObject bucket key fieldnames lines)
       (fun t => s3_put_object w t bucket key fieldnames lines))
    (fun e => print (Error_writing_processed_file bucket key e)).

(** The [try] block of the loop of [lambda_handler]. *)
Definition process_file (exchange_rates : RateTable) (bucket key : string)
  : M unit :=
  csv_data <- read_csv_from_s3 bucket key ;;
  processed_data <- process_csv_data csv_data exchange_rates ;;
  processed_data <- upload_to_dynamodb processed_data ;;
  let new_key := ("processed_" ++ key)%string in
  write_processed_csv_to_s3 processed_bucket new_key processed_data.

(** [json.dumps(s)] for a string without characters to escape. *)
Definition json_dumps (s : string) : string :=
  String (ascii_of_nat 34) (s ++ String (ascii_of_nat 34) EmptyString)%string.

Definition acknowledgment : Response :=
  {| statusCode := 200;
     body := json_dumps "Currency normalization complete!" |}.

(** The body of the loop of [lambda_handler]. *)
Definition handle_record (exchange_rates : RateTable) (record : FileRef)
    (_ : unit) : M unit :=
  let bucket := record.(bucket) in
  let key := record.(key) in
  try_except
    (process_file exchange_rates bucket key)
    (fun e => print (Error_processing_file key bucket e)).

Definition lambda_handler (event : list FileRef) : M Response :=
  exchange_rates <- fetch_exchange_rates ;;
  for_each event (handle_record exchange_rates) tt ;;
  ret acknowledgment.

End Program.

(** ** The event as the handler finds it

    [lambda_handler] above takes the file references as given.  The
    source takes them out of the event, outside the [try] block:
    [event['Records']], and for each record
    [record['s3']['bucket']['name']] and [record['s3']['object']['key']].
    Here the event is the nest of objects on those paths, any of which
    may lack the member asked for.  The members that are there have the
    types of an S3 notification (objects on the way, strings for the name
    and the key); the other members of a notification, which the handler
    never looks at, are left out. *)
Definition RawRecord : Type := Dict.dict (Dict.dict (Dict.dict string)).
Definition RawEvent : Type := Dict.dict (list RawRecord).

Module Invocation.
Section Invocation.

Variable w : World.
Variable processed_bucket : string.

(** [record[a][b][c]] *)
Definition path (a b c : string) (record : RawRecord) : Result string :=
  rbind (Dict.getitem a record) (fun x =>
  rbind (Dict.getitem b x) (fun y =>
  Dict.getitem c y)).

(** The body of the loop of [lambda_handler], lines 33 to 44. *)
Definition handle_record (exchange_rates : RateTable) (record : RawRecord)
    (_ : unit) : M unit :=
  bucket <- lift (path "s3" "bucket" "name" record) ;;
  key <- lift (path "s3" "object" "key" record) ;;
  try_except
    (process_file w processed_bucket exchange_rates bucket key)
    (fun e => print (Error_processing_file key bucket e)).

Definition lambda_handler (event : RawEvent) : M Response :=
  exchange_rates <- fetch_exchange_rates w ;;
  records <- lift (Dict.getitem "Records" event) ;;
  for_each records (handle_record exchange_rates) tt ;;
  ret acknowledgment.

End Invocation.
End Invocation.

(** ** The arithmetic of the specification *)

Section SpecArithmetic.
Local Open Scope Z_scope.

(** Modelled on the specification's words, for comparison with the code:
    [round_half_up(x, 2)], rounding to 2 fractional digits with the half-way
    case going away from zero.  On the magnitude [c * 10^e] it is the
    number of cents [floor (c * 10^(e+2) + 1/2)]; the sign is kept. *)
Definition spec_round_half_up_cents (c : N) (e : Z) : N :=
  if -2 <=? e then (c * Digits.pow10 (e + 2))%N
  else ((2 * c + Digits.pow10 (-2 - e)) / (2 * Digits.pow10 (-2 - e)))%N.

(** Modelled on the decimal specification's words, for comparison with
    the code: [c / 10^d] rounded to the nearest integer, a tie going to the
    even neighbour. *)
Definition spec_round_half_even (c : N) (d : Z) : N :=
  let q := (c / Digits.pow10 d)%N in
  let twice_rest := (2 * (c mod Digits.pow10 d))%N in
  if (Digits.pow10 d <? twice_rest)%N
     || ((Digits.pow10 d =? twice_rest)%N && N.odd q)
  then (q + 1)%N else q.

(** A coefficient and exponent rounded to the context's 28 significant
    digits: unchanged when the coefficient has no more than 28 digits, and
    otherwise the leading 28 digits rounded half-even (a coefficient that
    rounds up to [10^28] is written [10^27] with the exponent one up). *)
Definition spec_round_context (c : N) (e : Z) : N * Z :=
  if Digits.ndigits c <=? prec then (c, e)
  else
    let d := Digits.ndigits c - prec in
    let q := spec_round_half_even c d in
    if (q =? Digits.pow10 prec)%N then (Digits.pow10 (prec - 1), e + d + 1)
    else (q, e + d).

(** Modelled on the specification's words ("multiplier = referenceRawRate
    / currencyRawRate", as decimals) and on the decimal context's rule for
    an inexact result: [q * 10^e] is the quotient of [c1 * 10^e1] by
    [c2 * 10^e2] to within half a unit of its last digit.  With
    [k = e1 - e2 - e] the quotient counted in units of [10^e] is
    [c1 * 10^k / c2]; for a negative [k] the power goes to the divisor. *)
Definition nearest_quotient (c1 : N) (e1 : Z) (c2 : N) (e2 : Z)
    (q : N) (e : Z) : Prop :=
  let k := e1 - e2 - e in
  let num := (c1 * Digits.pow10 k)%N in
  let den := (c2 * Digits.pow10 (- k))%N in
  (2 * (num - q * den) <= den /\ 2 * (q * den - num) <= den)%N.

(** Modelled on the decimal specification's words, for comparison with
    the code: the fraction [num / den] rounded to the nearest integer, a
    tie going to the even neighbour. *)
Definition spec_round_half_even_ratio (num den : N) : N :=
  let q := (num / den)%N in
  let twice_rest := (2 * (num mod den))%N in
  if (den <? twice_rest)%N || ((den =? twice_rest)%N && N.odd q)
  then (q + 1)%N else q.

(** Modelled on the specification's words ("multiplier = referenceRawRate
    / currencyRawRate", as decimals) and on the decimal context's rule for
    a division: [q * 10^e] is the quotient of [c1 * 10^e1] by [c2 * 10^e2]
    correctly rounded to the context's 28 significant digits.  [e0] is the
    exponent of the 28th significant digit of the quotient: counted in
    units of [10^e0] the quotient is [num / den], at least [10^27] and
    below [10^28]; the result is that count rounded half-even, in the same
    units.  (With [k = e1 - e2 - e0] the count is [c1 * 10^k / c2]; for a
    negative [k] the power goes to the divisor.) *)
Definition rounded_quotient (c1 : N) (e1 : Z) (c2 : N) (e2 : Z)
    (q : N) (e : Z) : Prop :=
  exists e0 : Z,
    let k := e1 - e2 - e0 in
    let num := (c1 * Digits.pow10 k)%N in
    let den := (c2 * Digits.pow10 (- k))%N in
    (Digits.pow10 (prec - 1) * den <= num < Digits.pow10 prec * den)%N
    /\ e0 <= e
    /\ (q * Digits.pow10 (e - e0))%N = spec_round_half_even_ratio num den.

End SpecArithmetic.

(** ** The vocabulary of the properties *)

Definition clock_event (ev : Event) : Prop := ev = EvUtcNow.

Definition table_event (ev : Event) : Prop :=
  match ev with
  | EvPutItem _ | EvBatchFlush | EvPrint (Error_uploading_item _) => True
  | _ => False
  end.

Definition archive_event (ev : Event) : Prop :=
  match ev with
  | EvPutObject _ _ _ _ | EvPrint (Error_writing_processed_file _ _ _) => True
  | _ => False
  end.

Definition not_a_read (ev : Event) : Prop :=
  match ev with
  | EvGetObject _ _ => False
  | _ => True
  end.

(** The object reads recorded in a history, in order. *)
Fixpoint objects_read (t : Trace) : list (string * string) :=
  match t with
  | [] => []
  | EvGetObject b k :: rest => (b, k) :: objects_read rest
  | _ :: rest => objects_read rest
  end.

(** The items handed to [put_item] in a history, in order. *)
Fixpoint items_put (t : Trace) : list Row :=
  match t with
  | [] => []
  | EvPutItem item :: rest => item :: items_put rest
  | _ :: rest => items_put rest
  end.

(** The reference rate is missing from a feed body when the body has no
    [rates] member, when [rates] has no [USD] key, or when the key is there
    with the value [null]: in each case [rates.get('USD')] is [None]. *)
Definition lacks_reference_rate (data : option Snapshot) : Prop :=
  match data with
  | None => True
  | Some rates =>
      Dict.get "USD" rates = None \/ Dict.get "USD" rates = Some RNull
  end.

(** What the table holds for a currency, given the raw rates: the quotient
    for a raw rate that counts as true, nothing otherwise. *)
Definition table_entry (usd_rate : RawRate) (raw : option RawRate)
  : option Decimal :=
  match raw with
  | Some rate =>
      if raw_truthy rate then
        match multiplier usd_rate rate with
        | Ok q => Some q
        | Raise _ => None
        end
      else None
  | None => None
  end.

(** [item[k] = str(item[k])] on an item that has the key. *)
Definition coerce_field (k : string) (item : Row) : Row :=
  match Dict.get k item with
  | Some v => Dict.set k (VStr (py_str v)) item
  | None => item
  end.

(** A record as the table writer leaves it: untouched without a [zpid],
    with [zpid] and [creationDate] made strings with one. *)
Definition as_stored (item : Row) : Row :=
  if Dict.mem "zpid" item
  then coerce_field "creationDate" (coerce_field "zpid" item)
  else item.

(** The line of the archive for a record under a header. *)
Definition archive_line (header : list string) (item : Row) : list string :=
  map (fun k => match Dict.get k item with
                | Some v => csv_cell v
                | None => ""
                end) header.

(** *** Prices as text and as values *)

(** A decimal digit. *)
Definition digit (c : ascii) : Prop := Digits.is_digit c = true.

(** A character [strip] and the removal of underscores leave alone. *)
Definition plain (c : ascii) : Prop :=
  is_space c = false /\ Ascii.eqb c "_" = false.

(** The ways [str] lays out a finite number: an integer part, possibly a
    point and a fraction, possibly an exponent. *)
Inductive rendering (s : bool) (c : N) (e : Z) : list ascii -> Prop :=
| Rendering (ip fp : list ascii) (dot : bool) (x : option Z) :
    Forall digit ip -> Forall digit fp -> ip <> [] ->
    (dot = false -> fp = []) ->
    Digits.int_of_digits (ip ++ fp) = c ->
    match x with Some n => n | None => 0 end - Z.of_nat (List.length fp) = e ->
    rendering s c e
      (sign_chars s ++ ip
         ++ (if dot then "."%char :: fp else [])
         ++ match x with
            | Some n => "E"%char :: signed_int n
            | None => []
            end).

(** The text of a NaN, in lower case, after the sign. *)
Definition nan_text (signal : bool) (ds : list ascii) : list ascii :=
  (if signal then ["s"; "n"; "a"; "n"] else ["n"; "a"; "n"])%char ++ ds.

(** An ASCII character that no numeric string has: not a digit, not a
    letter, not white space, and none of the point, the signs and the
    underscore.  A comma is one, and so are the currency signs, the
    brackets and the slash. *)
Definition foreign (c : ascii) : Prop :=
  (N_of_ascii c < 128)%N
  /\ Digits.is_digit c = false
  /\ is_space c = false
  /\ (let k := N_of_ascii c in
      ((65 <=? k) && (k <=? 90) || (97 <=? k) && (k <=? 122))%N = false)
  /\ c <> "."%char /\ c <> "+"%char /\ c <> "-"%char /\ c <> "_"%char.

(** [c1 * 10^e1 <= c2 * 10^e2], written without fractions: the side with
    the higher exponent is brought to the lower one ([pow10] of a negative
    number is 1). *)
Definition value_le (c1 : N) (e1 : Z) (c2 : N) (e2 : Z) : Prop :=
  (c1 * Digits.pow10 (e1 - e2) <= c2 * Digits.pow10 (e2 - e1))%N.

(** *** Rows, batches and files *)

(** The guard of line 84. *)
Definition has_both (row : Row) : bool :=
  Dict.mem "price" row && Dict.mem "currency" row.

(** What [process_csv_data] makes of a row that passes the guard, given
    the reading [now] of the clock: the row with its time stamp, after the
    price and the currency were replaced when the currency is a key of the
    table. *)
Inductive row_outcome (rates : RateTable) (now : string) (row : Row)
  : Row -> Prop :=
| Passed_through (p cur : Value) (price : Decimal) :
    Dict.get "price" row = Some p ->
    Decimal_of_value p = Ok price ->
    Dict.get "currency" row = Some cur ->
    lookup_rate cur rates = None ->
    row_outcome rates now row (Dict.set "creationDate" (VStr now) row)
| Converted (p cur : Value) (price rate converted : Decimal) :
    Dict.get "price" row = Some p ->
    Decimal_of_value p = Ok price ->
    Dict.get "currency" row = Some cur ->
    lookup_rate cur rates = Some rate ->
    convert_currency price rate = Ok converted ->
    row_outcome rates now row
      (Dict.set "creationDate" (VStr now)
         (Dict.set "currency" (VStr "USD")
            (Dict.set "price" (VStr (to_str converted)) row))).

(** The rows of a batch and their outcomes, each stamped with the clock's
    reading at its turn; the history grows by a clock read per row. *)
Inductive stamped_in_turn (w : World) (rates : RateTable)
  : Trace -> list Row -> list Row -> Prop :=
| Stamped_nil t : stamped_in_turn w rates t [] []
| Stamped_cons t row out rows outs :
    row_outcome rates (utcnow_isoformat w t) row out ->
    stamped_in_turn w rates (t ++ [EvUtcNow]) rows outs ->
    stamped_in_turn w rates t (row :: rows) (out :: outs).

(** The header of the archive of a file whose rows have the header
    [header]: the time stamp's column is added when it is not there. *)
Definition archive_header (header : list string) : list string :=
  if existsb (String.eqb "creationDate") header then header
  else header ++ ["creationDate"].

(** What a turn of the handler's loop may do for a file reference: read
    that object, write its archive to the processed bucket, and anything
    that is neither a request to the feed nor a read or write of an
    object. *)
Definition file_event (processed_bucket : string) (record : FileRef)
    (ev : Event) : Prop :=
  match ev with
  | EvHttpGet => False
  | EvGetObject b k => b = record.(bucket) /\ k = record.(key)
  | EvPutObject b k _ _ =>
      b = processed_bucket /\ k = ("processed_" ++ record.(key))%string
  | _ => True
  end.

(** *** The event *)

(** A record of the event names a file reference. *)
Definition names (record : RawRecord) (r : FileRef) : Prop :=
  Invocation.path "s3" "bucket" "name" record = Ok r.(bucket)
  /\ Invocation.path "s3" "object" "key" record = Ok r.(key).

(** A notification for an object, reduced to what the handler reads. *)
Definition notification (b k : string) : RawRecord :=
  [("s3", [("bucket", [("name", b)]); ("object", [("key", k)])])].

(** ** Sample data for the concrete runs *)

Module Sample.

(** A world in which every collaborator succeeds; the clock reads the
    length of the history. *)
Definition clock (t : Trace) : string :=
  ("2024-01-01T00:00:00." ++
     string_of_list_ascii (Digits.digits (N.of_nat (List.length t))))%string.

Definition feed : Snapshot :=
  [("USD", RFloat 1.25%float); ("EUR", RInt 1); ("GBP", RFloat 0.5%float);
   ("CAD", RInt 0)].

Definition world (rates : option Snapshot) (rows : list Row) : World :=
  {| requests_get := fun _ => Ok rates;
     s3_get_object := fun _ _ _ => Ok rows;
     utcnow_isoformat := clock;
     batch_put_item := fun _ _ => Ok tt;
     batch_flush := fun _ => Ok tt;
     s3_put_object := fun _ _ _ _ _ => Ok tt |}.

Definition quiet : World := world (Some feed) [].

Definition one : Decimal := Fin false 1 0.

Definition listing (zpid price currency : string) : Row :=
  [("zpid", VStr zpid); ("price", VStr price); ("currency", VStr currency)].

End Sample.

(** A store in which one object is missing. *)
Definition flaky_store : World :=
  {| requests_get := fun _ => Ok (Some Sample.feed);
     s3_get_object := fun _ _ k =>
       if String.eqb k "missing.csv" then Raise (External "NoSuchKey")
       else Ok [Sample.listing "1" "100" "EUR"];
     utcnow_isoformat := Sample.clock;
     batch_put_item := fun _ _ => Ok tt;
     batch_flush := fun _ => Ok tt;
     s3_put_object := fun _ _ _ _ _ => Ok tt |}.

(** Nine rows that convert, and one in their midst that does not. *)
Definition nine_valid_and_one_invalid : list Row :=
  [Sample.listing "1" "100" "EUR"; Sample.listing "2" "250000" "EUR";
   Sample.listing "3" "99.99" "EUR"; Sample.listing "4" "twelve" "EUR";
   Sample.listing "5" "1200.50" "EUR"; Sample.listing "6" "75" "EUR";
   Sample.listing "7" "310000" "EUR"; Sample.listing "8" "45.5" "EUR";
   Sample.listing "9" "8" "EUR"; Sample.listing "10" "19.95" "EUR"].

(** Three normalised records: one whose [zpid] cell was left out of its
    line, one without the [zpid] field, one with a [zpid]. *)
Definition mixed_records : list Row :=
  [[("zpid", VNone); ("price", VStr "5.00"); ("currency", VStr "USD");
    ("creationDate", VStr "2024-01-01T00:00:00.1")];
   [("price", VStr "110.00"); ("currency", VStr "USD");
    ("creationDate", VStr "2024-01-01T00:00:00.2")];
   [("zpid", VStr "7"); ("price", VStr "10.01"); ("currency", VStr "USD");
    ("creationDate", VStr "2024-01-01T00:00:00.3")]].

(** ** Generic facts about the monad and the loops *)

Lemma for_each_app {A S} (xs ys : list A) (body : A -> S -> M S) (s : S) t :
  for_each (xs ++ ys) body s t
  = (s' <- for_each xs body s ;; for_each ys body s') t.
Proof.
  revert s t. induction xs as [|x xs IH]; intros s t; simpl.
  - reflexivity.
  - unfold bind in *. destruct (body x s t) as [[s'|e] t'].
    + apply IH.
    + reflexivity.
Qed.

(** [emits P c]: whatever [c] returns, it only appends to the history, and
    every event it appends satisfies [P]. *)
Definition emits {A} (P : Event -> Prop) (c : M A) : Prop :=
  forall t, exists new, snd (c t) = (t ++ new) /\ Forall P new.

Lemma emits_ret {A} P (a : A) : emits P (ret a).
Proof. intros t. exists []. rewrite app_nil_r. auto. Qed.

Lemma emits_raise {A} P e : emits P (@raise A e).
Proof. intros t. exists []. rewrite app_nil_r. auto. Qed.

Lemma emits_lift {A} P (r : Result A) : emits P (lift r).
Proof. intros t. exists []. rewrite app_nil_r. auto. Qed.

Lemma emits_call {A} (P : Event -> Prop) ev (answer : Trace -> Result A) :
  P ev -> emits P (call ev answer).
Proof. intros H t. exists [ev]. simpl. auto. Qed.

Lemma emits_print (P : Event -> Prop) l : P (EvPrint l) -> emits P (print l).
Proof. intros H t. exists [EvPrint l]. simpl. auto. Qed.

Lemma emits_bind {A B} P (c : M A) (k : A -> M B) :
  emits P c -> (forall a, emits P (k a)) -> emits P (bind c k).
Proof.
  intros Hc Hk t. unfold bind. destruct (Hc t) as [n1 [E1 F1]].
  destruct (c t) as [[a|e] t1]; simpl in *; subst t1.
  - destruct (Hk a (t ++ n1)) as [n2 [E2 F2]].
    exists (n1 ++ n2). rewrite E2, app_assoc. split; auto.
    apply Forall_app; auto.
  - exists n1. auto.
Qed.

Lemma emits_try_except {A} P (c : M A) (h : Exn -> M A) :
  emits P c -> (forall e, emits P (h e)) -> emits P (try_except c h).
Proof.
  intros Hc Hh t. unfold try_except. destruct (Hc t) as [n1 [E1 F1]].
  destruct (c t) as [[a|e] t1]; simpl in *; subst t1.
  - exists n1. auto.
  - destruct (Hh e (t ++ n1)) as [n2 [E2 F2]].
    exists (n1 ++ n2). rewrite E2, app_assoc. split; auto.
    apply Forall_app; auto.
Qed.

Lemma emits_for_each {A S} P (xs : list A) (body : A -> S -> M S) s :
  (forall x s, emits P (body x s)) -> emits P (for_each xs body s).
Proof.
  intros Hb. revert s. induction xs as [|x xs IH]; intros s; simpl.
  - apply emits_ret.
  - apply emits_bind; auto.
Qed.

Lemma emits_weaken {A} (P Q : Event -> Prop) (c : M A) :
  (forall ev, P ev -> Q ev) -> emits P c -> emits Q c.
Proof.
  intros HPQ Hc t. destruct (Hc t) as [new [E F]]. exists new. split; auto.
  eapply Forall_impl; eauto.
Qed.

Create HintDb emits.
#[local] Hint Resolve emits_ret emits_raise emits_lift emits_bind
  emits_try_except emits_for_each : emits.

(** *** Which events each function of the program can emit *)

Lemma emits_process_row w rates row acc :
  emits clock_event (process_row w rates row acc).
Proof.
  unfold process_row.
  destruct (Dict.mem "price" row && Dict.mem "currency" row);
    [|apply emits_ret].
  do 3 (apply emits_bind; [solve [auto with emits]|intros]).
  apply emits_bind.
  - destruct (lookup_rate _ _); auto with emits.
  - intros. apply emits_bind; [|auto with emits].
    apply emits_call. reflexivity.
Qed.

Lemma emits_process_csv_data w rows rates :
  emits clock_event (process_csv_data w rows rates).
Proof. apply emits_for_each. intros. apply emits_process_row. Qed.

Lemma emits_upload_item w item : emits table_event (upload_item w item).
Proof.
  unfold upload_item.
  destruct (Dict.get "zpid" item) as [z|].
  - destruct (Dict.get "creationDate" _) as [c|].
    + apply emits_bind; [|auto with emits].
      apply emits_try_except.
      * apply emits_call. exact I.
      * intros. apply emits_print. exact I.
    + apply emits_bind; [|auto with emits]. apply emits_print. exact I.
  - apply emits_bind; [|auto with emits]. apply emits_print. exact I.
Qed.

Lemma emits_upload_to_dynamodb w items :
  emits table_event (upload_to_dynamodb w items).
Proof.
  unfold upload_to_dynamodb. apply emits_bind.
  - apply emits_for_each. intros.
    apply emits_bind; [apply emits_upload_item|auto with emits].
  - intros. apply emits_bind; [|auto with emits]. apply emits_call. exact I.
Qed.

Lemma emits_write_processed_csv_to_s3 w bucket key data :
  emits archive_event (write_processed_csv_to_s3 w bucket key data).
Proof.
  unfold write_processed_csv_to_s3. apply emits_try_except.
  - apply emits_bind; [auto with emits|intros].
    apply emits_bind; [auto with emits|intros].
    apply emits_call. exact I.
  - intros. apply emits_print. exact I.
Qed.

Lemma objects_read_app t1 t2 :
  objects_read (t1 ++ t2) = objects_read t1 ++ objects_read t2.
Proof.
  induction t1 as [|ev t1 IH]; simpl; [reflexivity|].
  destruct ev; simpl; rewrite IH; reflexivity.
Qed.

Lemma objects_read_none t : Forall not_a_read t -> objects_read t = [].
Proof.
  induction 1 as [|ev t H _ IH]; [reflexivity|].
  destruct ev; simpl in *; try assumption. contradiction.
Qed.

(** ** Dictionaries: reading after writing *)

Lemma get_set_same {V} (k : string) (v : V) (d : Dict.dict V) :
  Dict.get k (Dict.set k v d) = Some v.
Proof.
  induction d as [|[k' v'] d IH]; simpl.
  - rewrite String.eqb_refl. reflexivity.
  - destruct (String.eqb k k') eqn:E; simpl.
    + rewrite String.eqb_refl. reflexivity.
    + rewrite E. exact IH.
Qed.

Lemma get_set_other {V} (k k' : string) (v : V) (d : Dict.dict V) :
  k <> k' -> Dict.get k' (Dict.set k v d) = Dict.get k' d.
Proof.
  intros Hne. induction d as [|[k0 v0] d IH]; simpl.
  - destruct (String.eqb k' k) eqn:E; [|reflexivity].
    apply String.eqb_eq in E. congruence.
  - destruct (String.eqb k k0) eqn:E; simpl.
    + apply String.eqb_eq in E. subst k0.
      destruct (String.eqb k' k) eqn:E'; [|reflexivity].
      apply String.eqb_eq in E'. congruence.
    + destruct (String.eqb k' k0); [reflexivity|exact IH].
Qed.

Lemma mem_get {V} (k : string) (d : Dict.dict V) (v : V) :
  Dict.get k d = Some v -> Dict.mem k d = true.
Proof. unfold Dict.mem. intros ->. reflexivity. Qed.

(** ** Powers of ten and numbers of digits *)

Section DigitFacts.
Import Digits.
Local Open Scope N_scope.

Lemma pow10_pos k : 0 < pow10 k.
Proof. unfold pow10. apply N.neq_0_lt_0, N.pow_nonzero. discriminate. Qed.

Lemma pow10_0 : pow10 0 = 1.
Proof. reflexivity. Qed.

Lemma pow10_nonpos k : (k <= 0)%Z -> pow10 k = 1.
Proof. intros H. unfold pow10. destruct k; try reflexivity. lia. Qed.

Lemma pow10_add a b :
  (0 <= a)%Z -> (0 <= b)%Z -> pow10 (a + b) = pow10 a * pow10 b.
Proof.
  intros Ha Hb. unfold pow10. rewrite Z2N.inj_add by assumption.
  apply N.pow_add_r.
Qed.

Lemma pow10_succ k : (0 <= k)%Z -> pow10 (k + 1) = 10 * pow10 k.
Proof.
  intros H. rewrite pow10_add by lia. change (pow10 1) with 10. lia.
Qed.

Lemma pow10_le_mono a b : (a <= b)%Z -> pow10 a <= pow10 b.
Proof.
  intros H. unfold pow10. apply N.pow_le_mono_r; [discriminate|]. lia.
Qed.

Lemma ndigits_fuel_spec fuel n :
  n < 2 ^ N.of_nat fuel ->
  (1 <= ndigits_fuel fuel n)%Z
  /\ n < pow10 (ndigits_fuel fuel n)
  /\ (n <> 0 -> pow10 (ndigits_fuel fuel n - 1) <= n).
Proof.
  revert n. induction fuel as [|fuel IH]; intros n Hn.
  - simpl in *. change (pow10 1) with 10. change (pow10 (1 - 1)) with 1.
    lia.
  - cbn [ndigits_fuel]. destruct (N.ltb_spec n 10) as [Hlt|Hge].
    + change (pow10 1) with 10. change (pow10 (1 - 1)) with 1. lia.
    + assert (Hdiv : n / 10 < 2 ^ N.of_nat fuel).
      { rewrite Nat2N.inj_succ, N.pow_succ_r' in Hn.
        apply N.Div0.div_lt_upper_bound. lia. }
      destruct (IH (n / 10) Hdiv) as [H1 [H2 H3]].
      assert (Hq : n / 10 <> 0).
      { intros Hz. apply N.div_small_iff in Hz; lia. }
      specialize (H3 Hq).
      pose proof (N.div_mod n 10 ltac:(lia)) as Hdm.
      pose proof (N.mod_lt n 10 ltac:(lia)) as Hm.
      set (d := ndigits_fuel fuel (n / 10)) in *.
      replace (1 + d)%Z with (d + 1)%Z by lia.
      replace (d + 1 - 1)%Z with ((d - 1) + 1)%Z by lia.
      rewrite !pow10_succ by lia.
      set (q := n / 10) in *. set (r := n mod 10) in *.
      clearbody q r d. lia.
Qed.

Lemma ndigits_spec n :
  (1 <= ndigits n)%Z
  /\ n < pow10 (ndigits n)
  /\ (n <> 0 -> pow10 (ndigits n - 1) <= n).
Proof.
  unfold ndigits. apply ndigits_fuel_spec. rewrite N2Nat.id.
  apply N.size_gt.
Qed.

Lemma ndigits_pos n : (1 <= ndigits n)%Z.
Proof. apply ndigits_spec. Qed.

Lemma ndigits_0 : ndigits 0 = 1%Z.
Proof. reflexivity. Qed.

(** A number below [10^d] has at most [d] digits. *)
Lemma ndigits_le n d : (1 <= d)%Z -> n < pow10 d -> (ndigits n <= d)%Z.
Proof.
  intros Hd Hn. destruct (N.eq_dec n 0) as [->|Hnz]; [rewrite ndigits_0; lia|].
  destruct (ndigits_spec n) as [_ [_ Hlow]]. specialize (Hlow Hnz).
  destruct (Z.le_gt_cases (ndigits n) d) as [|Hgt]; [assumption|].
  pose proof (pow10_le_mono d (ndigits n - 1) ltac:(lia)). lia.
Qed.

(** A number from [10^(d-1)] on has at least [d] digits. *)
Lemma ndigits_ge n d : pow10 (d - 1) <= n -> (d <= ndigits n)%Z.
Proof.
  intros Hn. destruct (ndigits_spec n) as [H1 [Hup _]].
  destruct (Z.le_gt_cases d (ndigits n)) as [|Hgt]; [assumption|].
  pose proof (pow10_le_mono (ndigits n) (d - 1) ltac:(lia)). lia.
Qed.

Lemma ndigits_mul_pow10 n k :
  n <> 0 -> (0 <= k)%Z -> ndigits (n * pow10 k) = (ndigits n + k)%Z.
Proof.
  intros Hn Hk. destruct (ndigits_spec n) as [H1 [Hup Hlow]].
  specialize (Hlow Hn). pose proof (pow10_pos k) as Hp.
  apply Z.le_antisymm.
  - apply ndigits_le; [lia|]. rewrite pow10_add by lia. nia.
  - apply ndigits_ge.
    replace (ndigits n + k - 1)%Z with ((ndigits n - 1) + k)%Z by lia.
    rewrite pow10_add by lia. nia.
Qed.

End DigitFacts.

(** ** Rounding to cents *)

Section RoundingFacts.
Import Digits.
Local Open Scope Z_scope.

Lemma spec_round_zero e : spec_round_half_up_cents 0 e = 0%N.
Proof.
  unfold spec_round_half_up_cents. destruct (-2 <=? e); [reflexivity|].
  apply N.div_small. pose proof (pow10_pos (-2 - e)). lia.
Qed.

(** Below half a cent the amount rounds to nothing. *)
Lemma spec_round_tiny c e :
  ndigits c + e + 2 < 0 -> spec_round_half_up_cents c e = 0%N.
Proof.
  intros H. pose proof (ndigits_pos c) as Hd.
  unfold spec_round_half_up_cents.
  destruct (Z.leb_spec (-2) e) as [|Hlt]; [lia|].
  apply N.div_small.
  destruct (ndigits_spec c) as [_ [Hup _]].
  pose proof (pow10_le_mono (ndigits c) (-2 - e - 1) ltac:(lia)) as Hm.
  replace (-2 - e) with ((-2 - e - 1) + 1) by lia.
  rewrite pow10_succ by lia. lia.
Qed.

(** The digit test of [_round_half_up] is a comparison with the half. *)
Lemma round_half_up_changed c k :
  1 <= k ->
  (round_half_up c k =? 1)
  = (pow10 k <=? 2 * (c mod pow10 k))%N.
Proof.
  intros Hk. unfold round_half_up. cbv zeta.
  assert (Hs : pow10 k = (10 * pow10 (k - 1))%N).
  { replace k with ((k - 1) + 1) at 1 by lia. apply pow10_succ. lia. }
  rewrite !Hs. clear Hs.
  pose proof (pow10_pos (k - 1)) as Hp.
  set (P := pow10 (k - 1)) in *.
  set (r := (c mod (10 * P))%N).
  pose proof (N.div_mod r P ltac:(lia)) as Hdm.
  pose proof (N.mod_lt r P ltac:(lia)) as Hm.
  set (q := (r / P)%N) in *. set (m := (r mod P)%N) in *.
  clearbody q m r P.
  destruct (N.leb_spec 5 q) as [H5|H5].
  - symmetry. apply N.leb_le. nia.
  - destruct (r =? 0)%N; symmetry; apply N.leb_gt; nia.
Qed.

(** [_rescale] to the exponent of a cent, half-up, is the rounding of the
    specification. *)
Lemma rescale_cent s c e :
  c <> 0%N ->
  rescale s c e (-2) ROUND_HALF_UP
  = Fin s (spec_round_half_up_cents c e) (-2).
Proof.
  intros Hc. unfold rescale.
  apply N.eqb_neq in Hc. rewrite Hc. apply N.eqb_neq in Hc.
  destruct (Z.leb_spec (-2) e) as [Hge|Hlt].
  - unfold spec_round_half_up_cents.
    destruct (Z.leb_spec (-2) e); [|lia].
    replace (e - -2) with (e + 2) by lia. reflexivity.
  - destruct (Z.ltb_spec (ndigits c + e - -2) 0) as [Hneg|Hpos].
    + rewrite (spec_round_tiny c e) by lia. reflexivity.
    + unfold spec_round_half_up_cents.
      destruct (Z.leb_spec (-2) e); [lia|].
      set (k := -2 - e). assert (Hk : 1 <= k) by (unfold k; lia).
      pose proof (pow10_pos k) as HK.
      cbv zeta. unfold pick_rounding_function.
      rewrite (round_half_up_changed c k Hk). f_equal.
      pose proof (N.div_mod c (pow10 k) ltac:(lia)) as Hdm.
      pose proof (N.mod_lt c (pow10 k) ltac:(lia)) as Hm.
      set (q := (c / pow10 k)%N) in *. set (r := (c mod pow10 k)%N) in *.
      set (K := pow10 k) in *. clearbody q r K.
      destruct (N.leb_spec K (2 * r)) as [Hup|Hdown].
      * apply (N.div_unique _ _ _ (2 * r - K)%N); nia.
      * apply (N.div_unique _ _ _ (2 * r + K)%N); nia.
Qed.

Lemma ndigits_mono a b : (a <= b)%N -> ndigits a <= ndigits b.
Proof.
  intros H. apply ndigits_le; [apply ndigits_pos|].
  destruct (ndigits_spec b) as [_ [Hup _]]. lia.
Qed.

Lemma spec_round_digits c e :
  ndigits c <= prec ->
  c = 0%N \/ ndigits c + e <= 26 ->
  ndigits (spec_round_half_up_cents c e) <= prec.
Proof.
  intros Hp Hm. destruct (N.eq_dec c 0) as [->|Hc].
  - rewrite spec_round_zero. assumption.
  - destruct Hm as [|Hm]; [contradiction|].
    unfold spec_round_half_up_cents, prec in *.
    destruct (Z.leb_spec (-2) e) as [Hge|Hlt].
    + rewrite ndigits_mul_pow10 by (auto; lia). lia.
    + apply ndigits_le; [lia|].
      destruct (ndigits_spec c) as [_ [Hup _]].
      pose proof (pow10_le_mono (ndigits c) 28 Hp) as H28.
      pose proof (pow10_le_mono 1 (-2 - e) ltac:(lia)) as HK.
      change (pow10 1) with 10%N in HK.
      set (K := pow10 (-2 - e)) in *. set (P := pow10 28) in *.
      apply N.Div0.div_lt_upper_bound.
      assert (c < P)%N by lia. clearbody K P. nia.
Qed.

(** [_fix] leaves alone what fits the context. *)
Lemma fix_fits s c e :
  c <> 0%N ->
  ndigits c <= prec ->
  Etiny <= e ->
  ndigits c + e - prec <= Etop ->
  fix_ (Fin s c e) = Ok (Fin s c e).
Proof.
  intros Hc Hp He Ht. unfold fix_.
  apply N.eqb_neq in Hc. rewrite Hc.
  destruct (Z.gtb_spec (ndigits c + e - prec) Etop); [lia|].
  destruct (Z.ltb_spec (ndigits c + e - prec) Etiny).
  - destruct (Z.ltb_spec e Etiny); [lia|reflexivity].
  - destruct (Z.ltb_spec e (ndigits c + e - prec));
      [unfold prec in *; lia|reflexivity].
Qed.

(** [quantize] to cents, half-up, of a number that fits the context and is
    below [10^26]. *)
Lemma quantize_cent s c e :
  ndigits c <= prec ->
  c = 0%N \/ ndigits c + e <= 26 ->
  quantize (Fin s c e) cent ROUND_HALF_UP
  = Ok (Fin s (spec_round_half_up_cents c e) (-2)).
Proof.
  intros Hp Hm. unfold quantize, cent. cbn [check_nans].
  change (negb ((Etiny <=? -2) && (-2 <=? Emax))) with false. cbv iota.
  destruct (N.eqb_spec c 0) as [->|Hc].
  - rewrite spec_round_zero. reflexivity.
  - destruct Hm as [|Hm]; [contradiction|].
    pose proof (ndigits_pos c) as Hd.
    unfold adjusted.
    destruct (Z.gtb_spec (e + ndigits c - 1) Emax) as [H|_];
      [unfold Emax in H; lia|].
    destruct (Z.gtb_spec (e + ndigits c - 1 - -2 + 1) prec) as [H|_];
      [unfold prec in H; lia|].
    rewrite (rescale_cent s c e Hc).
    pose proof (spec_round_digits c e Hp (or_intror Hm)) as Hr.
    set (c' := spec_round_half_up_cents c e) in *.
    pose proof (ndigits_pos c') as Hd'.
    destruct (Z.gtb_spec (-2 + ndigits c' - 1) Emax) as [H|_];
      [unfold Emax, prec in *; lia|].
    destruct (Z.gtb_spec (ndigits c') prec) as [H|_]; [lia|].
    destruct (N.eq_dec c' 0) as [->|Hc'].
    + reflexivity.
    + apply fix_fits; auto; unfold Etiny, Etop, Emin, Emax, prec in *; lia.
Qed.

End RoundingFacts.

(** ** The product as the context holds it *)

Section ContextFacts.
Import Digits.
Local Open Scope Z_scope.

(** The digit tests of [_round_half_even] decide the same as the
    comparison of the dropped part with the half. *)
Lemma round_half_even_changed c d :
  1 <= d ->
  (if round_half_even c d >? 0 then (c / pow10 d + 1)%N else (c / pow10 d)%N)
  = spec_round_half_even c d.
Proof.
  intros Hd. unfold round_half_even, exact_half, round_half_up,
    spec_round_half_even. cbv zeta.
  assert (Hs : pow10 d = (10 * pow10 (d - 1))%N).
  { replace d with ((d - 1) + 1) at 1 by lia. apply pow10_succ. lia. }
  rewrite !Hs. clear Hs.
  pose proof (pow10_pos (d - 1)) as Hp.
  set (P := pow10 (d - 1)) in *.
  set (q := (c / (10 * P))%N). set (r := (c mod (10 * P))%N).
  pose proof (N.div_mod r P ltac:(lia)) as Hdm.
  pose proof (N.mod_lt r P ltac:(lia)) as Hm.
  set (q' := (r / P)%N) in *. set (m := (r mod P)%N) in *.
  rewrite <- N.negb_even.
  clearbody q q' m r P.
  destruct (N.eqb_spec r (5 * P)) as [Heq|Hne].
  - destruct (N.even q); cbn [andb negb].
    + destruct (N.ltb_spec (10 * P) (2 * r)); [lia|].
      destruct (N.eqb_spec (10 * P) (2 * r)); [reflexivity|lia].
    + destruct (N.leb_spec 5 q'); [|nia].
      destruct (N.ltb_spec (10 * P) (2 * r)); [lia|].
      destruct (N.eqb_spec (10 * P) (2 * r)); [reflexivity|lia].
  - cbn [andb].
    destruct (N.eqb_spec (10 * P) (2 * r)); [lia|]. cbn [andb orb].
    rewrite orb_false_r.
    destruct (N.leb_spec 5 q').
    + destruct (N.ltb_spec (10 * P) (2 * r)); [reflexivity|nia].
    + destruct (N.ltb_spec (10 * P) (2 * r)); [nia|].
      destruct (r =? 0)%N; reflexivity.
Qed.

(** The leading 28 digits of a longer coefficient. *)
Lemma leading_digits c :
  prec < ndigits c ->
  (pow10 (prec - 1) <= c / pow10 (ndigits c - prec) < pow10 prec)%N.
Proof.
  intros H. destruct (ndigits_spec c) as [_ [Hup Hlow]].
  assert (Hc : c <> 0%N).
  { intros ->. rewrite ndigits_0 in H. unfold prec in H. lia. }
  specialize (Hlow Hc).
  set (d := ndigits c - prec) in *.
  assert (Hd : 1 <= d) by (unfold d; lia).
  pose proof (pow10_pos d) as HK.
  replace (ndigits c) with (prec + d) in Hup by (unfold d; lia).
  replace (ndigits c - 1) with ((prec - 1) + d) in Hlow by (unfold d; lia).
  rewrite pow10_add in Hup, Hlow by (unfold prec; lia).
  split.
  - apply N.div_le_lower_bound; lia.
  - apply N.Div0.div_lt_upper_bound. lia.
Qed.

(** In the normal range [_fix] is the rounding to 28 significant digits. *)
Lemma fix_context s c e :
  c <> 0%N ->
  Etiny <= ndigits c + e - prec ->
  ndigits c + e - prec < Etop ->
  fix_ (Fin s c e)
  = Ok (Fin s (fst (spec_round_context c e)) (snd (spec_round_context c e))).
Proof.
  intros Hc Hlo Hhi. unfold fix_, spec_round_context.
  apply N.eqb_neq in Hc. rewrite Hc. apply N.eqb_neq in Hc.
  destruct (Z.gtb_spec (ndigits c + e - prec) Etop) as [H|_]; [lia|].
  destruct (Z.ltb_spec (ndigits c + e - prec) Etiny) as [H|_]; [lia|].
  destruct (Z.leb_spec (ndigits c) prec) as [Hfit|Hlong].
  - destruct (Z.ltb_spec e (ndigits c + e - prec)); [lia|reflexivity].
  - destruct (Z.ltb_spec e (ndigits c + e - prec)) as [_|H]; [|lia].
    replace (ndigits c + e - (ndigits c + e - prec)) with prec by lia.
    change (prec <? 0) with false. cbv iota zeta.
    replace (ndigits c + e - prec - e) with (ndigits c - prec) by lia.
    set (d := ndigits c - prec) in *.
    assert (Hd : 1 <= d) by (unfold d; lia).
    rewrite <- (round_half_even_changed c d Hd).
    pose proof (leading_digits c Hlong) as [Hq1 Hq2]. fold d in Hq1, Hq2.
    set (q := (c / pow10 d)%N) in *.
    replace (e + d) with (ndigits c + e - prec) by (unfold d; lia).
    destruct (round_half_even c d >? 0).
    + destruct (N.eqb_spec (q + 1) (pow10 prec)) as [Heq|Hne].
      * rewrite Heq.
        change (ndigits (pow10 prec) >? prec) with true. cbv iota.
        change (pow10 prec / 10)%N with (pow10 (prec - 1)).
        destruct (Z.gtb_spec (ndigits c + e - prec + 1) Etop); [lia|].
        reflexivity.
      * assert (Hn : ndigits (q + 1) <= prec).
        { apply ndigits_le; [unfold prec; lia|lia]. }
        destruct (Z.gtb_spec (ndigits (q + 1)) prec); [lia|].
        destruct (Z.gtb_spec (ndigits c + e - prec) Etop); [lia|].
        reflexivity.
    + destruct (N.eqb_spec q (pow10 prec)); [lia|].
      destruct (Z.gtb_spec (ndigits c + e - prec) Etop); [lia|].
      reflexivity.
Qed.

(** The rounding to 28 digits leaves at most 28 digits and adds at most
    one to the number of digits before the point. *)
Lemma spec_round_context_bounds c e :
  c <> 0%N ->
  fst (spec_round_context c e) <> 0%N
  /\ ndigits (fst (spec_round_context c e)) <= prec
  /\ ndigits c + e
     <= ndigits (fst (spec_round_context c e)) + snd (spec_round_context c e)
     <= ndigits c + e + 1.
Proof.
  intros Hc. unfold spec_round_context.
  destruct (Z.leb_spec (ndigits c) prec) as [Hfit|Hlong]; cbn [fst snd].
  - split; [assumption|lia].
  - pose proof (leading_digits c Hlong) as [Hq1 Hq2].
    pose proof (pow10_pos (prec - 1)) as Hp1.
    set (d := ndigits c - prec) in *.
    assert (Hq : (c / pow10 d <= spec_round_half_even c d
                  <= c / pow10 d + 1)%N).
    { unfold spec_round_half_even. cbv zeta.
      destruct (_ || _); lia. }
    set (q := spec_round_half_even c d) in *.
    destruct (N.eqb_spec q (pow10 prec)) as [Heq|Hne]; cbn [fst snd].
    + change (ndigits (pow10 (prec - 1))) with prec.
      split; [lia|]. unfold d. lia.
    + assert (ndigits q <= prec).
      { apply ndigits_le; [unfold prec; lia|lia]. }
      assert (prec <= ndigits q).
      { apply ndigits_ge. lia. }
      split; [lia|]. unfold d. lia.
Qed.

(** Whatever the exponent, [_fix] of a number below [10^26] goes through,
    leaves at most 28 digits, and adds at most one to the number of digits
    before the point. *)
Lemma fix_bounded s c e :
  c <> 0%N ->
  ndigits c + e <= 26 ->
  exists c' e',
    fix_ (Fin s c e) = Ok (Fin s c' e')
    /\ ndigits c' <= prec
    /\ (c' = 0%N \/ ndigits c' + e' <= ndigits c + e + 1).
Proof.
  intros Hc Hm. unfold fix_.
  apply N.eqb_neq in Hc. rewrite Hc. apply N.eqb_neq in Hc.
  destruct (Z.gtb_spec (ndigits c + e - prec) Etop) as [H|_];
    [unfold Etop, Emax, prec in *; lia|].
  set (exp_min := if ndigits c + e - prec <? Etiny then Etiny
                  else ndigits c + e - prec).
  assert (Hmin : ndigits c + e - prec <= exp_min
                 /\ exp_min <= Z.max Etiny (-2)).
  { unfold exp_min.
    destruct (Z.ltb_spec (ndigits c + e - prec) Etiny);
      unfold Etiny, Emin, prec in *; lia. }
  destruct Hmin as [Hmin1 Hmin2].
  assert (Htop : exp_min + 1 <= Etop)
    by (unfold Etop, Etiny, Emax, Emin, prec in *; lia).
  clearbody exp_min.
  destruct (Z.ltb_spec e exp_min) as [Hround|Hkeep].
  - set (digits := ndigits c + e - exp_min).
    destruct (Z.ltb_spec digits 0) as [Hneg|Hpos].
    + exists 0%N, exp_min. cbv beta iota zeta.
      change (round_half_even 1 1 >? 0) with false.
      change (1 / pow10 1)%N with 0%N. cbv iota.
      destruct (Z.gtb_spec exp_min Etop); [lia|].
      split; [reflexivity|].
      split; [unfold prec; rewrite ndigits_0; lia|left; reflexivity].
    + cbv zeta. set (drop := exp_min - e).
      assert (Hdrop : 1 <= drop) by (unfold drop; lia).
      destruct (ndigits_spec c) as [_ [Hup _]].
      replace (ndigits c) with (digits + drop) in Hup
        by (unfold digits, drop; lia).
      rewrite pow10_add in Hup by lia.
      pose proof (pow10_pos drop) as HK.
      assert (Hq : (c / pow10 drop < pow10 digits)%N).
      { apply N.Div0.div_lt_upper_bound. lia. }
      set (q := (c / pow10 drop)%N) in *.
      assert (Hdig : digits <= prec) by (unfold digits; lia).
      pose proof (pow10_le_mono digits prec Hdig) as Hpw.
      assert (Hnq : forall x, (x <= pow10 digits)%N ->
                              ndigits x <= digits + 1).
      { intros x Hx. apply ndigits_le; [lia|].
        rewrite pow10_succ by lia. pose proof (pow10_pos digits). lia. }
      destruct (round_half_even c drop >? 0).
      * destruct (Z.gtb_spec (ndigits (q + 1)) prec) as [Hcarry|Hnc].
        -- exists ((q + 1) / 10)%N, (exp_min + 1).
           destruct (Z.gtb_spec (exp_min + 1) Etop); [lia|].
           split; [reflexivity|].
           assert (Hdp : digits = prec).
           { pose proof (Hnq (q + 1)%N ltac:(lia)). lia. }
           assert (Hs : pow10 prec = (10 * pow10 (prec - 1))%N)
             by (vm_compute; reflexivity).
           rewrite Hdp, Hs in Hq.
           pose proof (pow10_pos (prec - 1)) as Hp1.
           assert (Hten : ((q + 1) / 10 < pow10 (prec - 1) + 1)%N).
           { apply N.Div0.div_lt_upper_bound. lia. }
           assert (Hn : ndigits ((q + 1) / 10) <= prec).
           { apply ndigits_le; [unfold prec; lia|]. rewrite Hs. lia. }
           split; [exact Hn|]. right. unfold digits in Hdp. lia.
        -- exists (q + 1)%N, exp_min.
           destruct (Z.gtb_spec exp_min Etop); [lia|].
           split; [reflexivity|]. split; [lia|]. right.
           pose proof (Hnq (q + 1)%N ltac:(lia)). unfold digits in *. lia.
      * exists q, exp_min.
        destruct (Z.gtb_spec exp_min Etop); [lia|].
        split; [reflexivity|].
        pose proof (Hnq q ltac:(lia)) as Hn.
        destruct (N.eq_dec q 0) as [Hz|Hnz].
        -- rewrite Hz. split; [unfold prec; rewrite ndigits_0; lia|].
           left. reflexivity.
        -- assert (ndigits q <= digits).
           { destruct (Z.eq_dec digits 0) as [Hd0|Hd0].
             - rewrite Hd0 in Hq. change (pow10 0) with 1%N in Hq. lia.
             - apply ndigits_le; [lia|assumption]. }
           split; [lia|]. right. unfold digits in *. lia.
  - exists c, e. split; [reflexivity|]. split; [lia|]. right. lia.
Qed.

(** [convert_currency] on finite operands: the product as the context
    holds it, rounded half-up to cents, provided it is below [10^26]. *)
Lemma convert_currency_spec s1 c1 e1 s2 c2 e2 c e :
  spec_round_context (c1 * c2) (e1 + e2) = (c, e) ->
  c = 0%N \/ ndigits c + e <= 26 ->
  convert_currency (Fin s1 c1 e1) (Fin s2 c2 e2)
  = Ok (Fin (xorb s1 s2) (spec_round_half_up_cents c e) (-2)).
Proof.
  intros Hctx Hm. unfold convert_currency, mul. cbn [check_nans sign_of].
  set (c0 := (c1 * c2)%N) in *. set (e0 := e1 + e2) in *.
  set (s := xorb s1 s2).
  destruct (N.eq_dec c0 0) as [Hz|Hc].
  - rewrite Hz in *. cbn [fix_ N.eqb rbind].
    rewrite quantize_cent;
      [|unfold prec; rewrite ndigits_0; lia|left; reflexivity].
    inversion Hctx. rewrite !spec_round_zero. reflexivity.
  - destruct (spec_round_context_bounds c0 e0 Hc) as [Hnz [Hd [Hlo Hhi]]].
    rewrite Hctx in Hnz, Hd, Hlo, Hhi. cbn [fst snd] in *.
    destruct Hm as [|Hm]; [contradiction|].
    destruct (Z.le_gt_cases Etiny (ndigits c0 + e0 - prec)) as [He|He].
    + rewrite fix_context;
        [|assumption|assumption|unfold Etop, Emax, prec in *; lia].
      rewrite Hctx. cbn [fst snd rbind]. apply quantize_cent; auto.
    + destruct (fix_bounded s c0 e0 Hc ltac:(lia))
        as [c' [e' [E [Hd' Hm']]]].
      rewrite E. cbn [rbind].
      rewrite quantize_cent;
        [|assumption
         |destruct Hm';
          [left; assumption
          |right; unfold Etiny, Emin, prec in *; lia]].
      rewrite (spec_round_tiny c e)
        by (unfold Etiny, Emin, prec in *; lia).
      destruct Hm' as [->|Hm'].
      * rewrite spec_round_zero. reflexivity.
      * rewrite (spec_round_tiny c' e')
          by (unfold Etiny, Emin, prec in *; lia).
        reflexivity.
Qed.

End ContextFacts.

(** ** The division *)

Section DivisionFacts.
Import Digits.
Local Open Scope Z_scope.

(** The rounding to 28 digits moves a number by at most half a unit of the
    last digit kept. *)
Lemma spec_round_context_error c e c' e' :
  spec_round_context c e = (c', e') ->
  e <= e'
  /\ (2 * (c - c' * pow10 (e' - e)) <= pow10 (e' - e))%N
  /\ (2 * (c' * pow10 (e' - e) - c) <= pow10 (e' - e))%N.
Proof.
  unfold spec_round_context.
  destruct (Z.leb_spec (ndigits c) prec) as [Hfit|Hlong]; intros H.
  - inversion H; subst. rewrite Z.sub_diag. change (pow10 0) with 1%N.
    split; [lia|]. lia.
  - set (d := ndigits c - prec) in *.
    assert (Hd : 1 <= d) by (unfold d; lia).
    pose proof (pow10_pos d) as HK.
    assert (Herr : (2 * (c - spec_round_half_even c d * pow10 d) <= pow10 d
                    /\ 2 * (spec_round_half_even c d * pow10 d - c)
                       <= pow10 d)%N).
    { unfold spec_round_half_even. cbv zeta.
      pose proof (N.div_mod c (pow10 d) ltac:(lia)) as Hdm.
      pose proof (N.mod_lt c (pow10 d) ltac:(lia)) as Hm.
      set (q := (c / pow10 d)%N) in *. set (r := (c mod pow10 d)%N) in *.
      set (K := pow10 d) in *. clearbody q r K.
      destruct (N.ltb_spec K (2 * r)) as [Hgt|Hle]; cbn [orb].
      - nia.
      - destruct (N.eqb_spec K (2 * r)) as [Heq|Hne]; cbn [andb].
        + destruct (N.odd q); nia.
        + nia. }
    destruct (N.eqb_spec (spec_round_half_even c d) (pow10 prec))
      as [Heq|Hne]; injection H as Hc' He'; subst c' e'.
    + replace (e + d + 1 - e) with (1 + d) by lia.
      rewrite pow10_add by lia. rewrite Heq in Herr.
      assert (Hs : pow10 prec = (pow10 27 * pow10 1)%N)
        by (vm_compute; reflexivity).
      rewrite Hs in Herr. split; [lia|].
      set (K := pow10 d) in *. set (A := pow10 27) in *.
      set (B := pow10 1) in *.
      assert (HB : (0 < B)%N) by (unfold B; apply pow10_pos).
      clearbody K A B.
      replace (A * (B * K))%N with (A * B * K)%N by ring.
      assert (HBK : (K <= B * K)%N) by nia.
      set (X := (A * B * K)%N) in *. set (Y := (B * K)%N) in *.
      clearbody X Y. lia.
    + replace (e + d - e) with d by lia. split; [lia|]. exact Herr.
Qed.

(** The loop that strips trailing zeros keeps the value. *)
Lemma strip_zeros_value fuel :
  forall coeff exp ideal coeff' exp',
    strip_zeros fuel coeff exp ideal = (coeff', exp') ->
    exp <= exp' /\ coeff = (coeff' * pow10 (exp' - exp))%N.
Proof.
  induction fuel as [|fuel IH]; intros coeff exp ideal coeff' exp' H.
  - injection H as <- <-. rewrite Z.sub_diag. change (pow10 0) with 1%N.
    split; lia.
  - cbn [strip_zeros] in H.
    destruct ((exp <? ideal) && (coeff mod 10 =? 0)%N) eqn:Hcond.
    + apply andb_prop in Hcond. destruct Hcond as [_ Hmod].
      apply N.eqb_eq in Hmod.
      destruct (IH _ _ _ _ _ H) as [Hle Hval].
      split; [lia|].
      replace (exp' - exp) with ((exp' - (exp + 1)) + 1) by lia.
      rewrite pow10_succ by lia.
      pose proof (N.div_mod coeff 10 ltac:(lia)) as Hdm.
      rewrite Hmod in Hdm.
      set (x := (coeff / 10)%N) in *. clearbody x. nia.
    + injection H as <- <-. rewrite Z.sub_diag. change (pow10 0) with 1%N.
      split; lia.
Qed.

(** The scaled quotient of [__truediv__] has 29 or 30 digits. *)
Lemma scaled_quotient_range c1 c2 :
  c1 <> 0%N -> c2 <> 0%N ->
  let shift := ndigits c2 - ndigits c1 + prec + 1 in
  let T := (c1 * pow10 shift)%N in
  let D := (c2 * pow10 (- shift))%N in
  (pow10 prec * D <= T < pow10 (prec + 2) * D)%N.
Proof.
  intros H1 H2 shift T D.
  destruct (ndigits_spec c1) as [Hd1 [Hup1 Hlow1]]. specialize (Hlow1 H1).
  destruct (ndigits_spec c2) as [Hd2 [Hup2 Hlow2]]. specialize (Hlow2 H2).
  assert (Hp2 : pow10 (prec + 2) = (pow10 prec * 100)%N)
    by (vm_compute; reflexivity).
  rewrite Hp2. pose proof (pow10_pos prec) as HP.
  set (P := pow10 prec) in *.
  destruct (Z.le_gt_cases 0 shift) as [Hs|Hs].
  - assert (HD : D = c2).
    { unfold D. rewrite pow10_nonpos by lia. lia. }
    rewrite HD. unfold T.
    (* 10^(n1-1) * 10^shift = P * 10^n2 and 10^n1 * 10^shift = 100 P 10^(n2-1) *)
    assert (E1 : (pow10 (ndigits c1 - 1) * pow10 shift
                  = P * pow10 (ndigits c2))%N).
    { unfold P. rewrite <- !pow10_add by (unfold prec; lia).
      f_equal. unfold shift. lia. }
    assert (E2 : (pow10 (ndigits c1) * pow10 shift
                  = P * 100 * pow10 (ndigits c2 - 1))%N).
    { unfold P. change 100%N with (pow10 2).
      rewrite <- !pow10_add by (unfold prec; lia).
      f_equal. unfold shift. lia. }
    pose proof (pow10_pos shift) as HS.
    set (S := pow10 shift) in *. set (A1 := pow10 (ndigits c1 - 1)) in *.
    set (B1 := pow10 (ndigits c1)) in *. set (A2 := pow10 (ndigits c2 - 1)) in *.
    set (B2 := pow10 (ndigits c2)) in *.
    clearbody S A1 B1 A2 B2 P. clear - Hup1 Hlow1 Hup2 Hlow2 E1 E2 HS HP.
    split; nia.
  - assert (HT : T = c1).
    { unfold T. rewrite pow10_nonpos by lia. lia. }
    rewrite HT. unfold D.
    assert (E1 : (pow10 (ndigits c1 - 1)
                  = P * pow10 (ndigits c2) * pow10 (- shift))%N).
    { unfold P. rewrite <- !pow10_add by (unfold prec; lia).
      f_equal. unfold shift. lia. }
    assert (E2 : (pow10 (ndigits c1)
                  = P * 100 * pow10 (ndigits c2 - 1) * pow10 (- shift))%N).
    { unfold P. change 100%N with (pow10 2).
      rewrite <- !pow10_add by (unfold prec; lia).
      f_equal. unfold shift. lia. }
    pose proof (pow10_pos (- shift)) as HS.
    set (S := pow10 (- shift)) in *. set (A1 := pow10 (ndigits c1 - 1)) in *.
    set (B1 := pow10 (ndigits c1)) in *. set (A2 := pow10 (ndigits c2 - 1)) in *.
    set (B2 := pow10 (ndigits c2)) in *.
    clearbody S A1 B1 A2 B2 P. clear - Hup1 Hlow1 Hup2 Hlow2 E1 E2 HS HP.
    split; nia.
Qed.

(** The half-even rounding of [q * K + r] at the digits of [K]. *)
Lemma spec_round_half_even_at q r d :
  (r < pow10 d)%N ->
  spec_round_half_even (q * pow10 d + r) d
  = (if (pow10 d <? 2 * r)%N || ((pow10 d =? 2 * r)%N && N.odd q)
     then q + 1 else q)%N.
Proof.
  intros Hr. unfold spec_round_half_even. cbv zeta.
  pose proof (pow10_pos d) as HK.
  assert (Hq : ((q * pow10 d + r) / pow10 d = q)%N).
  { symmetry. apply (N.div_unique _ _ _ r); lia. }
  assert (Hm : ((q * pow10 d + r) mod pow10 d = r)%N).
  { symmetry. apply (N.mod_unique _ _ q); lia. }
  rewrite Hq, Hm. reflexivity.
Qed.

(** The adjustment of an inexact quotient ([coeff += 1] when it ends in 0
    or 5) makes the rounding of the truncated quotient the rounding of
    the true one: with [T = c * D + rem] and [0 < rem < D], the rounded
    coefficient is within half a unit of [T / D]. *)
Lemma sticky_rounding c D rem d :
  (0 < rem < D)%N ->
  1 <= d ->
  let coeff := (if (c mod 5 =? 0)%N then c + 1 else c)%N in
  let q := spec_round_half_even coeff d in
  (2 * (c * D + rem - q * (pow10 d * D)) <= pow10 d * D
   /\ 2 * (q * (pow10 d * D) - (c * D + rem)) <= pow10 d * D)%N.
Proof.
  intros Hrem Hd coeff q.
  assert (HK : pow10 d = (10 * pow10 (d - 1))%N).
  { replace d with ((d - 1) + 1) at 1 by lia. apply pow10_succ. lia. }
  pose proof (pow10_pos (d - 1)) as HP.
  pose proof (N.div_mod c (pow10 d) ltac:(lia)) as Hdm.
  pose proof (N.mod_lt c (pow10 d) ltac:(lia)) as Hlt.
  set (q0 := (c / pow10 d)%N) in *. set (r0 := (c mod pow10 d)%N) in *.
  set (K := pow10 d) in *. set (P := pow10 (d - 1)) in *.
  set (U := (K * D)%N). set (V := (r0 * D)%N). set (W := (q0 * U)%N).
  assert (HT : (c * D + rem = W + V + rem)%N).
  { unfold W, U, V. rewrite Hdm. ring. }
  assert (HVU : (V + D <= U)%N).
  { unfold U, V. clearbody K r0. nia. }
  assert (Hq1 : ((q0 + 1) * U = W + U)%N) by (unfold W; ring).
  assert (Hmod : (c mod 5 = r0 mod 5)%N).
  { rewrite Hdm, HK.
    replace (10 * P * q0 + r0)%N with (r0 + (2 * P * q0) * 5)%N by ring.
    apply N.Div0.mod_add. }
  assert (Hq : q = (if (K <=? 2 * r0)%N then q0 + 1 else q0)%N).
  { unfold q, coeff.
    destruct (N.eqb_spec (c mod 5) 0) as [H5|H5].
    - rewrite Hmod in H5.
      pose proof (N.div_mod r0 5 ltac:(lia)) as H5'. rewrite H5 in H5'.
      set (x := (r0 / 5)%N) in *. clearbody x.
      replace (c + 1)%N with (q0 * pow10 d + (r0 + 1))%N
        by (clear - Hdm; subst K; clearbody q0 r0; lia).
      rewrite spec_round_half_even_at by (fold K; clearbody K P r0; lia).
      fold K.
      destruct (N.eqb_spec K (2 * (r0 + 1))) as [He|_];
        [clearbody K P r0; lia|].
      cbn [andb]. rewrite orb_false_r.
      destruct (N.ltb_spec K (2 * (r0 + 1)));
        destruct (N.leb_spec K (2 * r0)); try reflexivity;
        clearbody K P r0; lia.
    - rewrite Hmod in H5.
      replace c with (q0 * pow10 d + r0)%N
        by (clear - Hdm; subst K; clearbody q0 r0; lia).
      rewrite spec_round_half_even_at by assumption. fold K.
      destruct (N.eqb_spec K (2 * r0)) as [He|Hne].
      + exfalso. apply H5.
        assert (Hhalf : (r0 = P * 5)%N) by (clearbody K P r0; lia).
        rewrite Hhalf. apply N.Div0.mod_mul.
      + cbn [andb]. rewrite orb_false_r.
        destruct (N.ltb_spec K (2 * r0));
          destruct (N.leb_spec K (2 * r0)); try reflexivity;
          clearbody K P r0; lia. }
  rewrite HT, Hq. fold U.
  destruct (N.leb_spec K (2 * r0)) as [Hup|Hdown].
  - rewrite Hq1.
    assert (U <= 2 * V)%N.
    { unfold U, V. clearbody K r0. nia. }
    clearbody U V W. lia.
  - fold W.
    assert (2 * V + 2 * D <= U)%N.
    { assert (2 * r0 + 2 <= K)%N.
      { destruct (N.eq_dec K (2 * r0 + 1)) as [Hodd|];
          clearbody K P r0; lia. }
      unfold U, V. clearbody K r0. nia. }
    clearbody U V W. lia.
Qed.

(** From the scaled operands of [__truediv__] back to the operands. *)
Lemma nearest_quotient_scaled c1 e1 c2 e2 q shift delta :
  0 <= delta ->
  let T := (c1 * pow10 shift)%N in
  let D := (c2 * pow10 (- shift))%N in
  (2 * (T - q * (pow10 delta * D)) <= pow10 delta * D
   /\ 2 * (q * (pow10 delta * D) - T) <= pow10 delta * D)%N ->
  nearest_quotient c1 e1 c2 e2 q (e1 - e2 - shift + delta).
Proof.
  intros Hdelta T D H. unfold nearest_quotient. cbv zeta.
  replace (e1 - e2 - (e1 - e2 - shift + delta)) with (shift - delta) by lia.
  set (k := shift - delta).
  set (G := pow10 (Z.min shift delta)).
  assert (HG : (0 < G)%N) by apply pow10_pos.
  assert (HT : T = (c1 * pow10 k * G)%N).
  { unfold T, G, k. rewrite <- N.mul_assoc. f_equal.
    destruct (Z.le_gt_cases 0 shift) as [Hs|Hs].
    - destruct (Z.le_gt_cases delta shift) as [Hk|Hk].
      + rewrite Z.min_r by lia. rewrite <- pow10_add by lia.
        f_equal. lia.
      + rewrite Z.min_l by lia. rewrite (pow10_nonpos (shift - delta)) by lia.
        lia.
    - rewrite !(pow10_nonpos shift) by lia.
      rewrite (pow10_nonpos (shift - delta)) by lia.
      rewrite (pow10_nonpos (Z.min shift delta)) by lia. reflexivity. }
  assert (HX : (pow10 delta * D = c2 * pow10 (- k) * G)%N).
  { unfold D, G, k.
    replace (pow10 delta * (c2 * pow10 (- shift)))%N
      with (c2 * (pow10 delta * pow10 (- shift)))%N by ring.
    rewrite <- N.mul_assoc. f_equal.
    destruct (Z.le_gt_cases 0 shift) as [Hs|Hs].
    - rewrite (pow10_nonpos (- shift)) by lia.
      destruct (Z.le_gt_cases delta shift) as [Hk|Hk].
      + rewrite Z.min_r by lia.
        rewrite (pow10_nonpos (- (shift - delta))) by lia. lia.
      + rewrite Z.min_l by lia. rewrite <- pow10_add by lia.
        rewrite N.mul_1_r. f_equal. lia.
    - rewrite (pow10_nonpos (Z.min shift delta)) by lia.
      rewrite <- pow10_add by lia. rewrite N.mul_1_r. f_equal. lia. }
  rewrite HT, HX in H.
  set (num := (c1 * pow10 k)%N) in *.
  set (den := (c2 * pow10 (- k))%N) in *.
  clearbody num den G. clear - H HG.
  replace (q * (den * G))%N with (q * den * G)%N in H by ring.
  rewrite <- !N.mul_sub_distr_r in H.
  destruct H as [Ha Hb]. split.
  - apply (N.mul_le_mono_pos_r _ _ G HG). lia.
  - apply (N.mul_le_mono_pos_r _ _ G HG). lia.
Qed.

(** Cutting [d] digits is rounding the fraction over [10^d]. *)
Lemma spec_round_half_even_as_ratio c d :
  spec_round_half_even c d = spec_round_half_even_ratio c (pow10 d).
Proof. reflexivity. Qed.

(** A common factor of the two terms of a fraction does not change its
    rounding. *)
Lemma spec_round_half_even_ratio_scale num den G :
  (0 < den)%N -> (0 < G)%N ->
  spec_round_half_even_ratio (num * G) (den * G)
  = spec_round_half_even_ratio num den.
Proof.
  intros Hden HG. unfold spec_round_half_even_ratio. cbv zeta.
  rewrite N.Div0.div_mul_cancel_r by lia.
  rewrite N.Div0.mul_mod_distr_r.
  set (r := (num mod den)%N). set (q := (num / den)%N).
  assert (E1 : (den * G <? 2 * (r * G))%N = (den <? 2 * r)%N).
  { destruct (N.ltb_spec (den * G) (2 * (r * G)));
      destruct (N.ltb_spec den (2 * r)); try reflexivity;
      clearbody r; nia. }
  assert (E2 : (den * G =? 2 * (r * G))%N = (den =? 2 * r)%N).
  { destruct (N.eqb_spec (den * G) (2 * (r * G)));
      destruct (N.eqb_spec den (2 * r)); try reflexivity;
      clearbody r; nia. }
  rewrite E1, E2. reflexivity.
Qed.

(** A fraction that is a whole number rounds to itself. *)
Lemma spec_round_half_even_ratio_exact q den :
  (0 < den)%N -> spec_round_half_even_ratio (q * den) den = q.
Proof.
  intros Hden. unfold spec_round_half_even_ratio. cbv zeta.
  rewrite N.Div0.mod_mul, N.div_mul by lia.
  destruct (N.ltb_spec den (2 * 0)); [lia|].
  destruct (N.eqb_spec den (2 * 0)); [lia|]. reflexivity.
Qed.

(** The scaled operands of [__truediv__] and the operands counted in
    units of [10^(shift - delta)] differ by a common factor. *)
Lemma scaled_operands c1 c2 shift delta :
  0 <= delta ->
  let k := shift - delta in
  exists G,
    (0 < G)%N
    /\ (c1 * pow10 shift = c1 * pow10 k * G)%N
    /\ (pow10 delta * (c2 * pow10 (- shift)) = c2 * pow10 (- k) * G)%N.
Proof.
  intros Hdelta k. exists (pow10 (Z.min shift delta)).
  split; [apply pow10_pos|]. split.
  - unfold k. rewrite <- N.mul_assoc. f_equal.
    destruct (Z.le_gt_cases 0 shift) as [Hs|Hs].
    + destruct (Z.le_gt_cases delta shift) as [Hk|Hk].
      * rewrite Z.min_r by lia. rewrite <- pow10_add by lia.
        f_equal. lia.
      * rewrite Z.min_l by lia. rewrite (pow10_nonpos (shift - delta)) by lia.
        lia.
    + rewrite !(pow10_nonpos shift) by lia.
      rewrite (pow10_nonpos (shift - delta)) by lia.
      rewrite (pow10_nonpos (Z.min shift delta)) by lia. reflexivity.
  - unfold k.
    replace (pow10 delta * (c2 * pow10 (- shift)))%N
      with (c2 * (pow10 delta * pow10 (- shift)))%N by ring.
    rewrite <- N.mul_assoc. f_equal.
    destruct (Z.le_gt_cases 0 shift) as [Hs|Hs].
    + rewrite (pow10_nonpos (- shift)) by lia.
      destruct (Z.le_gt_cases delta shift) as [Hk|Hk].
      * rewrite Z.min_r by lia.
        rewrite (pow10_nonpos (- (shift - delta))) by lia. lia.
      * rewrite Z.min_l by lia. rewrite <- pow10_add by lia.
        rewrite N.mul_1_r. f_equal. lia.
    + rewrite (pow10_nonpos (Z.min shift delta)) by lia.
      rewrite <- pow10_add by lia. rewrite N.mul_1_r. f_equal. lia.
Qed.

(** From the scaled operands of [__truediv__] back to the operands. *)
Lemma rounded_quotient_scaled c1 e1 c2 e2 q e shift delta :
  c2 <> 0%N ->
  0 <= delta ->
  let T := (c1 * pow10 shift)%N in
  let D := (c2 * pow10 (- shift))%N in
  (pow10 (prec - 1) * (pow10 delta * D) <= T < pow10 prec * (pow10 delta * D))%N ->
  e1 - e2 - shift + delta <= e ->
  (q * pow10 (e - (e1 - e2 - shift + delta)))%N
  = spec_round_half_even_ratio T (pow10 delta * D) ->
  rounded_quotient c1 e1 c2 e2 q e.
Proof.
  intros Hc2 Hdelta T D Hb He Hq.
  exists (e1 - e2 - shift + delta). cbv zeta.
  replace (e1 - e2 - (e1 - e2 - shift + delta)) with (shift - delta) by lia.
  destruct (scaled_operands c1 c2 shift delta Hdelta) as [G [HG [HT HX]]].
  cbv zeta in HT, HX. fold T in HT. fold D in HX.
  set (num := (c1 * pow10 (shift - delta))%N) in *.
  set (den := (c2 * pow10 (- (shift - delta)))%N) in *.
  assert (Hden : (0 < den)%N).
  { unfold den. pose proof (pow10_pos (- (shift - delta))). nia. }
  rewrite HT, HX in Hb, Hq.
  rewrite spec_round_half_even_ratio_scale in Hq by assumption.
  split; [|split; [exact He|exact Hq]].
  set (A := pow10 (prec - 1)) in *. set (B := pow10 prec) in *.
  clearbody A B num den T D. clear - Hb HG. nia.
Qed.

(** The adjusted coefficient of an inexact quotient ([coeff += 1] when it
    ends in 0 or 5) never rounds as a tie: it goes up exactly when the
    digits cut off are half a unit or more. *)
Lemma sticky_rounding_value c d :
  1 <= d ->
  spec_round_half_even (if (c mod 5 =? 0)%N then c + 1 else c)%N d
  = (if (pow10 d <=? 2 * (c mod pow10 d))%N
     then c / pow10 d + 1 else c / pow10 d)%N.
Proof.
  intros Hd.
  assert (HK : pow10 d = (10 * pow10 (d - 1))%N).
  { replace d with ((d - 1) + 1) at 1 by lia. apply pow10_succ. lia. }
  pose proof (pow10_pos (d - 1)) as HP.
  pose proof (N.div_mod c (pow10 d) ltac:(lia)) as Hdm.
  pose proof (N.mod_lt c (pow10 d) ltac:(lia)) as Hlt.
  set (q0 := (c / pow10 d)%N) in *. set (r0 := (c mod pow10 d)%N) in *.
  set (K := pow10 d) in *. set (P := pow10 (d - 1)) in *.
  assert (Hmod : (c mod 5 = r0 mod 5)%N).
  { rewrite Hdm, HK.
    replace (10 * P * q0 + r0)%N with (r0 + (2 * P * q0) * 5)%N by ring.
    apply N.Div0.mod_add. }
  destruct (N.eqb_spec (c mod 5) 0) as [H5|H5].
  - rewrite Hmod in H5.
    pose proof (N.div_mod r0 5 ltac:(lia)) as H5'. rewrite H5 in H5'.
    set (x := (r0 / 5)%N) in *. clearbody x.
    replace (c + 1)%N with (q0 * pow10 d + (r0 + 1))%N
      by (clear - Hdm; subst K; clearbody q0 r0; lia).
    rewrite spec_round_half_even_at by (fold K; clearbody K P r0; lia).
    fold K.
    destruct (N.eqb_spec K (2 * (r0 + 1))) as [He|_];
      [clearbody K P r0; lia|].
    cbn [andb]. rewrite orb_false_r.
    destruct (N.ltb_spec K (2 * (r0 + 1)));
      destruct (N.leb_spec K (2 * r0)); try reflexivity;
      clearbody K P r0; lia.
  - rewrite Hmod in H5.
    replace c with (q0 * pow10 d + r0)%N at 1
      by (clear - Hdm; subst K; clearbody q0 r0; lia).
    rewrite spec_round_half_even_at by assumption. fold K.
    destruct (N.eqb_spec K (2 * r0)) as [He|Hne].
    + exfalso. apply H5.
      assert (Hhalf : (r0 = P * 5)%N) by (clearbody K P r0; lia).
      rewrite Hhalf. apply N.Div0.mod_mul.
    + cbn [andb]. rewrite orb_false_r.
      destruct (N.ltb_spec K (2 * r0));
        destruct (N.leb_spec K (2 * r0)); try reflexivity;
        clearbody K P r0; lia.
Qed.

(** The quotient [(c * D + rem) / D] with a remainder, cut at [d] digits,
    rounds the same way: the remainder only breaks the tie. *)
Lemma inexact_quotient_rounding c D rem d :
  (0 < rem < D)%N ->
  1 <= d ->
  spec_round_half_even_ratio (c * D + rem) (pow10 d * D)
  = (if (pow10 d <=? 2 * (c mod pow10 d))%N
     then c / pow10 d + 1 else c / pow10 d)%N.
Proof.
  intros Hrem Hd. unfold spec_round_half_even_ratio. cbv zeta.
  assert (HK : pow10 d = (10 * pow10 (d - 1))%N).
  { replace d with ((d - 1) + 1) at 1 by lia. apply pow10_succ. lia. }
  pose proof (pow10_pos (d - 1)) as HP.
  assert (HTD : ((c * D + rem) / D = c)%N).
  { symmetry. apply (N.div_unique _ _ _ rem); lia. }
  assert (HTm : ((c * D + rem) mod D = rem)%N).
  { symmetry. apply (N.mod_unique _ _ c); lia. }
  rewrite (N.mul_comm (pow10 d) D).
  rewrite <- N.Div0.div_div, N.Div0.mod_mul_r, HTD, HTm.
  pose proof (N.mod_lt c (pow10 d) ltac:(lia)) as Hlt.
  set (q0 := (c / pow10 d)%N). set (r0 := (c mod pow10 d)%N) in *.
  set (K := pow10 d) in *. set (P := pow10 (d - 1)) in *.
  destruct (N.leb_spec K (2 * r0)) as [Hup|Hdown].
  - assert (H : (D * K < 2 * (rem + D * r0))%N)
      by (clearbody K r0; nia).
    apply N.ltb_lt in H. rewrite H. reflexivity.
  - assert (H2 : (2 * r0 + 2 <= K)%N) by (clearbody K P r0; lia).
    assert (H : (2 * (rem + D * r0) < D * K)%N)
      by (clearbody K r0; nia).
    destruct (N.ltb_spec (D * K) (2 * (rem + D * r0))); [lia|].
    destruct (N.eqb_spec (D * K) (2 * (rem + D * r0))); [lia|].
    reflexivity.
Qed.

Lemma div_eucl_div_mod a b : N.div_eucl a b = ((a / b)%N, (a mod b)%N).
Proof.
  unfold N.div, N.modulo. destruct (N.div_eucl a b). reflexivity.
Qed.

(** [/] on finite nonzero operands whose quotient is in the context's
    normal range: it does not raise, and the result is the quotient
    correctly rounded to 28 digits. *)
Lemma truediv_spec s1 c1 e1 s2 c2 e2 :
  c1 <> 0%N -> c2 <> 0%N ->
  Emin < adjusted c1 e1 - adjusted c2 e2 < Emax ->
  exists q e,
    truediv (Fin s1 c1 e1) (Fin s2 c2 e2) = Ok (Fin (xorb s1 s2) q e)
    /\ q <> 0%N
    /\ ndigits q <= prec
    /\ nearest_quotient c1 e1 c2 e2 q e
    /\ rounded_quotient c1 e1 c2 e2 q e.
Proof.
  intros H1 H2 Hrange. unfold truediv. cbn [check_nans sign_of].
  apply N.eqb_neq in H1, H2. rewrite H1, H2.
  apply N.eqb_neq in H1, H2.
  set (shift := ndigits c2 - ndigits c1 + prec + 1).
  set (exp0 := e1 - e2 - shift).
  set (T := (c1 * pow10 shift)%N). set (D := (c2 * pow10 (- shift))%N).
  assert (Hde : (if 0 <=? shift then N.div_eucl T c2 else N.div_eucl c1 D)
                = ((T / D)%N, (T mod D)%N)).
  { unfold T, D. destruct (Z.leb_spec 0 shift).
    - rewrite (pow10_nonpos (- shift)) by lia. rewrite N.mul_1_r.
      apply div_eucl_div_mod.
    - rewrite (pow10_nonpos shift) by lia. rewrite N.mul_1_r.
      apply div_eucl_div_mod. }
  rewrite Hde. clear Hde.
  pose proof (scaled_quotient_range c1 c2 H1 H2) as Hr.
  cbv zeta in Hr. fold shift in Hr. fold T D in Hr.
  assert (HD : (0 < D)%N).
  { unfold D. pose proof (pow10_pos (- shift)). nia. }
  pose proof (N.div_mod T D ltac:(lia)) as Hdm.
  pose proof (N.mod_lt T D ltac:(lia)) as Hlt.
  set (coeff0 := (T / D)%N) in *. set (rem := (T mod D)%N) in *.
  assert (Hp2 : pow10 (prec + 2) = (pow10 prec * 100)%N)
    by (vm_compute; reflexivity).
  assert (Hp1 : pow10 (prec + 1) = (pow10 prec * 10)%N)
    by (vm_compute; reflexivity).
  assert (Hp0 : pow10 prec = (pow10 (prec - 1) * 10)%N)
    by (vm_compute; reflexivity).
  assert (HP : (0 < pow10 prec)%N) by apply pow10_pos.
  assert (Hc0 : (pow10 prec <= coeff0 < pow10 (prec + 2))%N).
  { rewrite Hp2 in *. set (P := pow10 prec) in *.
    clearbody coeff0 rem T D P. clear - Hr Hdm Hlt HD. nia. }
  assert (Hadj : exp0 = adjusted c1 e1 - adjusted c2 e2 - prec - 1).
  { unfold exp0, shift, adjusted. lia. }
  (* whatever coefficient of 29 or 30 digits goes to [_fix] at [exp0] *)
  assert (Hfix : forall coeff exp,
             (coeff <> 0)%N ->
             prec + 1 <= ndigits coeff + (exp - exp0) <= prec + 2 ->
             fix_ (Fin (xorb s1 s2) coeff exp)
             = Ok (Fin (xorb s1 s2) (fst (spec_round_context coeff exp))
                     (snd (spec_round_context coeff exp)))).
  { intros coeff exp Hnz Hn. apply fix_context; auto;
      unfold Etiny, Etop, Emin, Emax, prec in *; lia. }
  assert (Hnd : forall x, (pow10 prec <= x < pow10 (prec + 2))%N ->
                          prec + 1 <= ndigits x <= prec + 2).
  { intros x [Hx1 Hx2]. split.
    - apply ndigits_ge. replace (prec + 1 - 1) with prec by lia. exact Hx1.
    - apply ndigits_le; [unfold prec; lia|exact Hx2]. }
  (* the exponent of the 28th digit of the quotient *)
  pose proof (Hnd coeff0 Hc0) as Hn0.
  set (d0 := ndigits coeff0 - prec).
  assert (Hd0 : 1 <= d0 <= 2) by (unfold d0; lia).
  assert (Hc0z : coeff0 <> 0%N) by lia.
  assert (Hlead : (pow10 (prec - 1) * pow10 d0 <= coeff0
                   < pow10 prec * pow10 d0)%N).
  { destruct (ndigits_spec coeff0) as [_ [Hup Hlow]]. specialize (Hlow Hc0z).
    rewrite <- !pow10_add by (unfold prec; lia).
    replace (prec - 1 + d0) with (ndigits coeff0 - 1) by (unfold d0; lia).
    replace (prec + d0) with (ndigits coeff0) by (unfold d0; lia).
    split; assumption. }
  assert (Hbounds : (pow10 (prec - 1) * (pow10 d0 * D) <= T
                     < pow10 prec * (pow10 d0 * D))%N).
  { set (A := pow10 (prec - 1)) in *. set (B := pow10 prec) in *.
    set (K := pow10 d0) in *.
    clearbody A B K coeff0 rem T D. clear - Hlead Hdm Hlt HD. nia. }
  destruct (N.eqb_spec rem 0) as [Hexact|Hinexact]; cbn [negb].
  - (* the division is exact *)
    destruct (strip_zeros (Z.to_nat (e1 - e2 - exp0)) coeff0 exp0 (e1 - e2))
      as [coeff' exp'] eqn:Hstrip.
    destruct (strip_zeros_value _ _ _ _ _ _ Hstrip) as [Hle Hval].
    assert (Hnz : coeff' <> 0%N).
    { intros ->. rewrite N.mul_0_l in Hval. lia. }
    assert (Hn : ndigits coeff0 = ndigits coeff' + (exp' - exp0)).
    { rewrite Hval. apply ndigits_mul_pow10; [assumption|lia]. }
    rewrite (Hfix coeff' exp' Hnz ltac:(lia)).
    destruct (spec_round_context coeff' exp') as [q e] eqn:Hctx.
    cbn [fst snd].
    pose proof (spec_round_context_bounds coeff' exp' Hnz) as Hb.
    rewrite Hctx in Hb. cbn [fst snd] in Hb. destruct Hb as [Hq [Hqd _]].
    destruct (spec_round_context_error _ _ _ _ Hctx) as [Hee [Ha Hb]].
    exists q, e. split; [reflexivity|]. split; [exact Hq|].
    split; [exact Hqd|].
    assert (HTv : T = (coeff' * pow10 (exp' - exp0) * D)%N).
    { rewrite Hdm, Hexact, <- Hval. lia. }
    split.
    + replace e with (e1 - e2 - shift + (e - exp0)) by (unfold exp0; lia).
      apply nearest_quotient_scaled; [lia|]. fold T D.
      replace (e - exp0) with ((e - exp') + (exp' - exp0)) by lia.
      rewrite pow10_add by lia.
      rewrite HTv.
      set (A := pow10 (e - exp')) in *. set (B := pow10 (exp' - exp0)) in *.
      assert (HB : (0 < B)%N) by apply pow10_pos.
      replace (q * (A * B * D))%N with (q * A * (B * D))%N by ring.
      replace (coeff' * B * D)%N with (coeff' * (B * D))%N by ring.
      replace (A * B * D)%N with (A * (B * D))%N by ring.
      rewrite <- !N.mul_sub_distr_r.
      set (BD := (B * D)%N). clearbody A B BD. clear - Ha Hb.
      split.
      * replace (2 * ((coeff' - q * A) * BD))%N
          with (2 * (coeff' - q * A) * BD)%N by ring.
        apply N.mul_le_mono_r. exact Ha.
      * replace (2 * ((q * A - coeff') * BD))%N
          with (2 * (q * A - coeff') * BD)%N by ring.
        apply N.mul_le_mono_r. exact Hb.
    + (* the value, in units of the 28th digit *)
      revert Hctx. unfold spec_round_context.
      destruct (Z.leb_spec (ndigits coeff') prec) as [Hfit|Hlong].
      * intros Hctx. inversion Hctx; subst q e.
        apply (rounded_quotient_scaled c1 e1 c2 e2 coeff' exp' shift d0 H2);
          [lia|exact Hbounds|fold exp0; unfold d0; lia|].
        fold T D. fold exp0.
        assert (HB : pow10 (exp' - exp0)
                     = (pow10 (exp' - (exp0 + d0)) * pow10 d0)%N).
        { rewrite <- pow10_add by (unfold d0; lia). f_equal. lia. }
        rewrite HTv, HB.
        replace (coeff' * (pow10 (exp' - (exp0 + d0)) * pow10 d0) * D)%N
          with (coeff' * pow10 (exp' - (exp0 + d0)) * (pow10 d0 * D))%N
          by ring.
        rewrite spec_round_half_even_ratio_exact; [reflexivity|].
        pose proof (pow10_pos d0). nia.
      * set (d' := ndigits coeff' - prec).
        assert (Hd' : d0 = d' + (exp' - exp0)) by (unfold d0, d'; lia).
        assert (Hval' : spec_round_half_even_ratio T (pow10 d0 * D)
                        = spec_round_half_even coeff' d').
        { rewrite HTv, Hd', pow10_add by (unfold d'; lia).
          rewrite spec_round_half_even_as_ratio.
          replace (coeff' * pow10 (exp' - exp0) * D)%N
            with (coeff' * (pow10 (exp' - exp0) * D))%N by ring.
          replace (pow10 d' * pow10 (exp' - exp0) * D)%N
            with (pow10 d' * (pow10 (exp' - exp0) * D))%N by ring.
          apply spec_round_half_even_ratio_scale.
          - apply pow10_pos.
          - pose proof (pow10_pos (exp' - exp0)). nia. }
        destruct (N.eqb_spec (spec_round_half_even coeff' d') (pow10 prec))
          as [Hcarry|Hnc]; intros Hctx; inversion Hctx; subst q e.
        -- apply (rounded_quotient_scaled c1 e1 c2 e2 _ _ shift d0 H2);
             [lia|exact Hbounds|fold exp0; lia|].
           fold T D. fold exp0. rewrite Hval', Hcarry.
           replace (exp' + d' + 1 - (exp0 + d0)) with 1 by lia.
           rewrite Hp0. reflexivity.
        -- apply (rounded_quotient_scaled c1 e1 c2 e2 _ _ shift d0 H2);
             [lia|exact Hbounds|fold exp0; lia|].
           fold T D. fold exp0. rewrite Hval'.
           replace (exp' + d' - (exp0 + d0)) with 0 by lia.
           change (pow10 0) with 1%N. lia.
  - (* the division leaves a remainder *)
    set (coeff := (if (coeff0 mod 5 =? 0)%N then coeff0 + 1 else coeff0)%N).
    assert (Hc : (pow10 prec <= coeff < pow10 (prec + 2))%N).
    { unfold coeff. destruct (N.eqb_spec (coeff0 mod 5) 0) as [H5|H5];
        [|exact Hc0].
      pose proof (N.div_mod coeff0 5 ltac:(lia)) as H5'.
      rewrite H5 in H5'. rewrite Hp2 in *.
      set (x := (coeff0 / 5)%N) in *. set (P := pow10 prec) in *.
      clearbody x P coeff0. lia. }
    pose proof (Hnd coeff Hc) as Hn.
    assert (Hnz : coeff <> 0%N) by lia.
    assert (Hsame : ndigits coeff = ndigits coeff0).
    { unfold coeff. destruct (N.eqb_spec (coeff0 mod 5) 0) as [H5|H5];
        [|reflexivity].
      destruct (ndigits_spec coeff0) as [_ [Hup Hlow]].
      specialize (Hlow Hc0z).
      apply Z.le_antisymm.
      - apply ndigits_le; [unfold prec in Hn0; lia|].
        pose proof (N.div_mod coeff0 5 ltac:(lia)) as H5'.
        rewrite H5 in H5'.
        assert (Hs : pow10 (ndigits coeff0)
                     = (10 * pow10 (ndigits coeff0 - 1))%N).
        { replace (ndigits coeff0) with ((ndigits coeff0 - 1) + 1) at 1
            by lia.
          apply pow10_succ. unfold prec in Hn0. lia. }
        rewrite Hs in *.
        set (x := (coeff0 / 5)%N) in *.
        set (P := pow10 (ndigits coeff0 - 1)) in *.
        clearbody x P. lia.
      - apply ndigits_ge. lia. }
    rewrite (Hfix coeff exp0 Hnz ltac:(lia)).
    pose proof (spec_round_context_bounds coeff exp0 Hnz) as Hb.
    destruct Hb as [Hq [Hqd _]].
    assert (Hsticky := sticky_rounding coeff0 D rem (ndigits coeff - prec)
                         ltac:(lia) ltac:(lia)).
    cbv zeta in Hsticky. fold coeff in Hsticky.
    rewrite N.mul_comm in Hdm. rewrite <- Hdm in Hsticky.
    assert (Hval' : spec_round_half_even_ratio T (pow10 d0 * D)
                    = spec_round_half_even coeff d0).
    { unfold coeff. rewrite sticky_rounding_value by lia.
      rewrite Hdm. apply inexact_quotient_rounding; lia. }
    revert Hq Hqd. unfold spec_round_context.
    destruct (Z.leb_spec (ndigits coeff) prec) as [Hbad|_]; [lia|].
    set (d := ndigits coeff - prec) in *.
    assert (Hdd : d = d0) by (unfold d, d0; lia).
    set (qs := spec_round_half_even coeff d) in *.
    destruct (N.eqb_spec qs (pow10 prec)) as [Hcarry|Hnc];
      cbn [fst snd]; intros Hq Hqd.
    + exists (pow10 (prec - 1)), (exp0 + d + 1).
      split; [reflexivity|]. split; [exact Hq|]. split; [exact Hqd|].
      split.
      * replace (exp0 + d + 1) with (e1 - e2 - shift + (d + 1))
          by (unfold exp0; lia).
        apply nearest_quotient_scaled; [lia|]. fold T D.
        rewrite Hcarry in Hsticky.
        replace (pow10 (prec - 1) * (pow10 (d + 1) * D))%N
          with (pow10 prec * (pow10 d * D))%N.
        2:{ rewrite (pow10_succ d) by lia.
            replace (pow10 prec) with (pow10 (prec - 1) * 10)%N
              by (vm_compute; reflexivity). ring. }
        assert (HKD : (pow10 d * D <= pow10 (d + 1) * D)%N).
        { rewrite (pow10_succ d) by lia. nia. }
        set (X := (pow10 prec * (pow10 d * D))%N) in *.
        set (Y := (pow10 d * D)%N) in *.
        set (Z' := (pow10 (d + 1) * D)%N) in *.
        clearbody X Y Z' T. clear - Hsticky HKD. lia.
      * apply (rounded_quotient_scaled c1 e1 c2 e2 _ _ shift d0 H2);
          [lia|exact Hbounds|fold exp0; lia|].
        fold T D. fold exp0. rewrite Hval'. rewrite <- Hdd. fold qs.
        rewrite Hcarry.
        replace (exp0 + d + 1 - (exp0 + d)) with 1 by lia.
        rewrite Hp0. reflexivity.
    + exists qs, (exp0 + d).
      split; [reflexivity|]. split; [exact Hq|]. split; [exact Hqd|].
      split.
      * replace (exp0 + d) with (e1 - e2 - shift + d) by (unfold exp0; lia).
        apply nearest_quotient_scaled; [lia|]. fold T D. exact Hsticky.
      * apply (rounded_quotient_scaled c1 e1 c2 e2 _ _ shift d0 H2);
          [lia|exact Hbounds|fold exp0; lia|].
        fold T D. fold exp0. rewrite Hval'. rewrite <- Hdd. fold qs.
        replace (exp0 + d - (exp0 + d)) with 0 by lia.
        change (pow10 0) with 1%N. lia.
Qed.

(** [10^a / 10^b] is [10^(a - b)], with the powers of negative numbers
    being 1. *)
Lemma pow10_cross a b :
  b <= a ->
  (pow10 a * pow10 (- b) = pow10 (a - b) * (pow10 b * pow10 (- a)))%N.
Proof.
  intros Hab.
  destruct (Z.le_gt_cases 0 b) as [Hb|Hb].
  - rewrite (pow10_nonpos (- b)), (pow10_nonpos (- a)) by lia.
    rewrite !N.mul_1_r. rewrite <- pow10_add by lia. f_equal; lia.
  - rewrite (pow10_nonpos b) by lia.
    destruct (Z.le_gt_cases 0 a) as [Ha|Ha].
    + rewrite (pow10_nonpos (- a)) by lia.
      rewrite <- pow10_add by lia. rewrite !N.mul_1_r. f_equal; lia.
    + rewrite (pow10_nonpos a) by lia.
      rewrite !N.mul_1_l. rewrite <- pow10_add by lia. f_equal; lia.
Qed.

(** The quotient has one 28th significant digit: two exponents that both
    put the quotient between [10^27] and [10^28] are the same. *)
Lemma quotient_exponent_order c1 c2 k k' :
  c2 <> 0%N ->
  k' < k ->
  (c1 * pow10 k < pow10 prec * (c2 * pow10 (- k)))%N ->
  (pow10 (prec - 1) * (c2 * pow10 (- k')) <= c1 * pow10 k')%N ->
  False.
Proof.
  intros Hc2 Hlt Hup Hlow.
  pose proof (pow10_cross k k' ltac:(lia)) as E.
  pose proof (pow10_le_mono 1 (k - k') ltac:(lia)) as HJ.
  change (pow10 1) with 10%N in HJ.
  assert (Hp0 : pow10 prec = (pow10 (prec - 1) * 10)%N)
    by (vm_compute; reflexivity).
  rewrite Hp0 in Hup.
  pose proof (pow10_pos (- k)) as H1. pose proof (pow10_pos (- k')) as H2.
  pose proof (pow10_pos k) as H3. pose proof (pow10_pos k') as H4.
  set (A := pow10 (prec - 1)) in *. set (J := pow10 (k - k')) in *.
  set (a := pow10 k) in *. set (a' := pow10 k') in *.
  set (b := pow10 (- k)) in *. set (b' := pow10 (- k')) in *.
  clearbody A J a a' b b'.
  (* [c1 a b' = J (c1 a') b], with [c1 a < 10 A c2 b] and [A c2 b' <= c1 a'] *)
  assert (X1 : (c1 * a * b' < A * 10 * (c2 * b) * b')%N).
  { apply N.mul_lt_mono_pos_r; [lia|exact Hup]. }
  assert (X2 : (A * (c2 * b') * (J * b) <= c1 * a' * (J * b))%N).
  { apply N.mul_le_mono_r. exact Hlow. }
  assert (X3 : (A * (c2 * b') * (10 * b) <= A * (c2 * b') * (J * b))%N).
  { apply N.mul_le_mono_l. apply N.mul_le_mono_r. exact HJ. }
  assert (X4 : (c1 * a * b' = c1 * a' * (J * b))%N).
  { replace (c1 * a * b')%N with (c1 * (a * b'))%N by ring.
    rewrite E. ring. }
  replace (A * 10 * (c2 * b) * b')%N with (A * (c2 * b') * (10 * b))%N in X1
    by ring.
  lia.
Qed.

Lemma quotient_exponent_unique c1 e1 c2 e2 e0 e0' :
  c2 <> 0%N ->
  (pow10 (prec - 1) * (c2 * pow10 (- (e1 - e2 - e0)))
   <= c1 * pow10 (e1 - e2 - e0)
   < pow10 prec * (c2 * pow10 (- (e1 - e2 - e0))))%N ->
  (pow10 (prec - 1) * (c2 * pow10 (- (e1 - e2 - e0')))
   <= c1 * pow10 (e1 - e2 - e0')
   < pow10 prec * (c2 * pow10 (- (e1 - e2 - e0'))))%N ->
  e0 = e0'.
Proof.
  intros Hc2 [Hl Hu] [Hl' Hu'].
  destruct (Z.lt_trichotomy e0 e0') as [H|[H|H]]; [|exact H|]; exfalso.
  - apply (quotient_exponent_order c1 c2 (e1 - e2 - e0) (e1 - e2 - e0') Hc2);
      [lia|exact Hu|exact Hl'].
  - apply (quotient_exponent_order c1 c2 (e1 - e2 - e0') (e1 - e2 - e0) Hc2);
      [lia|exact Hu'|exact Hl].
Qed.

(** The rounded quotient is one number: two results that both are the
    quotient correctly rounded have the same value. *)
Lemma rounded_quotient_unique c1 e1 c2 e2 q e q' e' :
  c2 <> 0%N ->
  rounded_quotient c1 e1 c2 e2 q e ->
  rounded_quotient c1 e1 c2 e2 q' e' ->
  (q * pow10 (e - e') = q' * pow10 (e' - e))%N.
Proof.
  intros Hc2 [e0 [Hb [He Hq]]] [e0' [Hb' [He' Hq']]].
  cbv zeta in *.
  assert (E : e0 = e0')
    by (apply (quotient_exponent_unique c1 e1 c2 e2); assumption).
  subst e0'. rewrite <- Hq in Hq'. clear Hq Hb Hb'.
  pose proof (pow10_pos (e - e0)) as H1.
  pose proof (pow10_pos (e' - e0)) as H2.
  destruct (Z.le_ge_cases e e') as [H|H].
  - rewrite (pow10_nonpos (e - e')) by lia.
    replace (e' - e0) with ((e' - e) + (e - e0)) in Hq' by lia.
    rewrite pow10_add in Hq' by lia.
    set (A := pow10 (e - e0)) in *. set (B := pow10 (e' - e)) in *.
    clearbody A B. nia.
  - rewrite (pow10_nonpos (e' - e)) by lia.
    replace (e - e0) with ((e - e') + (e' - e0)) in Hq' by lia.
    rewrite pow10_add in Hq' by lia.
    set (A := pow10 (e' - e0)) in *. set (B := pow10 (e - e')) in *.
    clearbody A B. nia.
Qed.

End DivisionFacts.

(** ** The functions of the program, case by case *)

(** *** [fetch_exchange_rates] without a reference rate *)

Lemma fetch_without_reference_rate w t data :
  requests_get w t = Ok data ->
  lacks_reference_rate data ->
  fetch_exchange_rates w t
  = (Raise (ValueError "Missing exchange rate for USD"),
     t ++ [EvHttpGet;
           EvPrint (Error_fetching_exchange_rates
                      (ValueError "Missing exchange rate for USD"))]).
Proof.
  intros Hget Hlack.
  unfold fetch_exchange_rates, try_except, bind, call. rewrite Hget.
  assert (Hnone : match Dict.get "USD" (match data with
                                          | Some r => r
                                          | None => []
                                          end) with
                  | None | Some RNull => True
                  | Some _ => False
                  end).
  { destruct data as [rates|]; simpl in *; [|exact I].
    destruct Hlack as [-> | ->]; exact I. }
  destruct (Dict.get "USD" _) as [[| | | |]|]; try contradiction;
    unfold raise, print; rewrite <- app_assoc; reflexivity.
Qed.

(** *** [process_csv_data], row by row *)

Lemma process_row_skips w rates row acc :
  Dict.mem "price" row = false \/ Dict.mem "currency" row = false ->
  process_row w rates row acc = ret acc.
Proof.
  intros H. unfold process_row.
  destruct H as [-> | ->]; [reflexivity|].
  rewrite andb_false_r. reflexivity.
Qed.

(** A row with both fields whose price does not convert: [Decimal(...)]
    raises, before anything else is looked at. *)
Lemma process_row_raises w rates row acc t v e :
  Dict.get "price" row = Some v ->
  Dict.mem "currency" row = true ->
  Decimal_of_value v = Raise e ->
  process_row w rates row acc t = (Raise e, t).
Proof.
  intros Hp Hc Hv. unfold process_row.
  rewrite (mem_get _ _ _ Hp), Hc. simpl.
  unfold bind, lift, Dict.getitem. rewrite Hp, Hv. reflexivity.
Qed.

(** A row with both fields, a price that converts, and a currency that is
    no key of the table. *)
Lemma process_row_unknown_currency w rates row acc t p price currency :
  Dict.get "price" row = Some p ->
  Decimal_of_value p = Ok price ->
  Dict.get "currency" row = Some currency ->
  lookup_rate currency rates = None ->
  process_row w rates row acc t
  = (Ok (acc ++ [Dict.set "creationDate" (VStr (utcnow_isoformat w t)) row]),
     t ++ [EvUtcNow]).
Proof.
  intros Hp Hv Hc Hr. unfold process_row.
  rewrite (mem_get _ _ _ Hp), (mem_get _ _ _ Hc). simpl.
  unfold bind, lift, Dict.getitem, call, ret. rewrite Hp, Hv, Hc, Hr.
  reflexivity.
Qed.

(** A row with both fields, a price that converts, and a currency of the
    table whose multiplication and rounding go through. *)
Lemma process_row_converts w rates row acc t p price cur rate converted :
  Dict.get "price" row = Some p ->
  Decimal_of_value p = Ok price ->
  Dict.get "currency" row = Some cur ->
  lookup_rate cur rates = Some rate ->
  convert_currency price rate = Ok converted ->
  process_row w rates row acc t
  = (Ok (acc ++ [Dict.set "creationDate" (VStr (utcnow_isoformat w t))
                   (Dict.set "currency" (VStr "USD")
                      (Dict.set "price" (VStr (to_str converted)) row))]),
     t ++ [EvUtcNow]).
Proof.
  intros Hp Hv Hc Hr Hconv. unfold process_row.
  rewrite (mem_get _ _ _ Hp), (mem_get _ _ _ Hc). simpl.
  unfold bind, lift, Dict.getitem, call, ret.
  rewrite Hp, Hv, Hc, Hr, Hconv. reflexivity.
Qed.

Lemma batch_with_bad_row_raises w rates (pre : list Row) (bad : Row)
    (post : list Row) t v e :
  Dict.get "price" bad = Some v ->
  Dict.mem "currency" bad = true ->
  Decimal_of_value v = Raise e ->
  exists e' new,
    process_csv_data w (pre ++ bad :: post) rates t = (Raise e', t ++ new)
    /\ Forall clock_event new.
Proof.
  intros Hp Hc Hv.
  destruct (emits_process_csv_data w (pre ++ bad :: post) rates t)
    as [new [E F]].
  unfold process_csv_data in *.
  rewrite (for_each_app pre (bad :: post) (process_row w rates) [] t) in *.
  unfold bind in *.
  destruct (for_each pre (process_row w rates) [] t) as [[acc|e'] t'].
  - simpl in *. unfold bind in *.
    rewrite (process_row_raises w rates bad acc t' v e Hp Hc Hv) in *.
    simpl in E. subst t'. exists e, new. auto.
  - simpl in E. subst t'. exists e', new. auto.
Qed.

(** *** The loop of [lambda_handler] *)

(** What one turn of the handler's loop does with its file reference. *)
Lemma handle_record_spec w pb rates record t :
  exists new,
    handle_record w pb rates record tt t
    = (Ok tt, t ++ EvGetObject record.(bucket) record.(key) :: new)
    /\ Forall not_a_read new.
Proof.
  unfold handle_record, try_except, process_file.
  unfold bind at 1. unfold read_csv_from_s3, try_except, call.
  destruct (s3_get_object w t _ _) as [rows|e].
  - set (rest := bind (process_csv_data w rows rates) _).
    assert (Hrest : emits not_a_read rest).
    { subst rest. apply emits_bind.
      - eapply emits_weaken; [|apply emits_process_csv_data].
        intros ev ->. exact I.
      - intros. apply emits_bind.
        + eapply emits_weaken; [|apply emits_upload_to_dynamodb].
          intros []; simpl; auto.
        + intros. eapply emits_weaken;
            [|apply emits_write_processed_csv_to_s3].
          intros []; simpl; auto. }
    destruct (Hrest (t ++ [EvGetObject (bucket record) (key record)]))
      as [new [E F]].
    destruct (rest _) as [[[]|e] t']; simpl in E; subst t'.
    + exists new. rewrite <- app_assoc. auto.
    + exists (new ++ [EvPrint (Error_processing_file (key record)
                                 (bucket record) e)]).
      unfold print. rewrite <- !app_assoc. split; [reflexivity|].
      apply Forall_app. split; auto. constructor; [exact I|constructor].
  - unfold bind, print, raise.
    exists [EvPrint (Error_reading_file (key record) (bucket record) e);
            EvPrint (Error_processing_file (key record) (bucket record) e)].
    rewrite <- !app_assoc. split; [reflexivity|].
    repeat constructor.
Qed.

Lemma handler_loop_spec w pb rates event t :
  exists t',
    for_each event (handle_record w pb rates) tt t = (Ok tt, t')
    /\ objects_read t'
       = objects_read t ++ map (fun r => (r.(bucket), r.(key))) event.
Proof.
  revert t. induction event as [|record event IH]; intros t; simpl.
  - exists t. rewrite app_nil_r. auto.
  - unfold bind. destruct (handle_record_spec w pb rates record t)
      as [new [E F]].
    rewrite E. destruct (IH (t ++ EvGetObject (bucket record) (key record)
                               :: new)) as [t' [E' R']].
    exists t'. split; [assumption|].
    rewrite R', objects_read_app. simpl.
    rewrite (objects_read_none new F), <- app_assoc. reflexivity.
Qed.

(** *** The dict comprehension of [fetch_exchange_rates] *)

Section RateTableFacts.
Local Open Scope Z_scope.

Lemma get_absent {V} (k : string) (d : Dict.dict V) :
  ~ In k (Dict.keys d) -> Dict.get k d = None.
Proof.
  induction d as [|[k' v] d IH]; simpl; intros H; [reflexivity|].
  destruct (String.eqb_spec k k') as [->|Hne].
  - exfalso. apply H. left. reflexivity.
  - apply IH. intros Hin. apply H. right. assumption.
Qed.

Lemma rates_comprehension_defined usd_rate (items : Snapshot) :
  forall acc : RateTable,
  NoDup (Dict.keys items) ->
  (forall currency rate,
     In (currency, rate) items -> raw_truthy rate = true ->
     exists q, multiplier usd_rate rate = Ok q) ->
  exists table,
    rates_comprehension usd_rate items acc = Ok table
    /\ forall k,
         Dict.get k table
         = match table_entry usd_rate (Dict.get k items) with
           | Some q => Some q
           | None =>
               match Dict.get k items with
               | Some rate =>
                   if raw_truthy rate then None else Dict.get k acc
               | None => Dict.get k acc
               end
           end.
Proof.
  induction items as [|[currency rate] rest IH]; intros acc Hnd Hdef.
  - exists acc. split; [reflexivity|]. intros k. reflexivity.
  - simpl in Hnd. inversion Hnd as [|? ? Hnotin Hnd']; subst.
    assert (Hrest : forall c r, In (c, r) rest -> raw_truthy r = true ->
                                exists q, multiplier usd_rate r = Ok q).
    { intros c r Hin. apply (Hdef c r). right. assumption. }
    cbn [rates_comprehension].
    destruct (raw_truthy rate) eqn:Htruthy.
    + destruct (Hdef currency rate (or_introl eq_refl) Htruthy) as [q Hq].
      rewrite Hq. cbn [rbind].
      destruct (IH (Dict.set currency q acc) Hnd' Hrest) as [table [E G]].
      exists table. split; [exact E|]. intros k. rewrite G. simpl.
      destruct (String.eqb_spec k currency) as [->|Hne].
      * rewrite (get_absent currency rest Hnotin). simpl.
        rewrite Htruthy, Hq. apply get_set_same.
      * destruct (Dict.get k rest) as [r|]; simpl.
        -- destruct (raw_truthy r); [reflexivity|].
           apply get_set_other. congruence.
        -- apply get_set_other. congruence.
    + destruct (IH acc Hnd' Hrest) as [table [E G]].
      exists table. split; [exact E|]. intros k. rewrite G. simpl.
      destruct (String.eqb_spec k currency) as [->|Hne].
      * rewrite (get_absent currency rest Hnotin). simpl.
        rewrite Htruthy. reflexivity.
      * reflexivity.
Qed.

Lemma rates_comprehension_raises usd_rate (items : Snapshot) :
  forall (acc : RateTable) currency rate e,
  In (currency, rate) items ->
  raw_truthy rate = true ->
  multiplier usd_rate rate = Raise e ->
  exists e', rates_comprehension usd_rate items acc = Raise e'.
Proof.
  induction items as [|[c r] rest IH]; intros acc currency rate e Hin Ht He.
  - contradiction.
  - cbn [rates_comprehension]. destruct Hin as [Heq|Hin].
    + inversion Heq; subst. rewrite Ht, He. exists e. reflexivity.
    + destruct (raw_truthy r).
      * destruct (multiplier usd_rate r) as [q|e']; cbn [rbind].
        -- eapply IH; eauto.
        -- exists e'. reflexivity.
      * eapply IH; eauto.
Qed.

End RateTableFacts.

(** *** [upload_to_dynamodb] and [write_processed_csv_to_s3] *)

Lemma items_put_app t1 t2 : items_put (t1 ++ t2) = items_put t1 ++ items_put t2.
Proof.
  induction t1 as [|ev t1 IH]; simpl; [reflexivity|].
  destruct ev; simpl; rewrite IH; reflexivity.
Qed.

Lemma mem_set_other {V} (k k' : string) (v : V) (d : Dict.dict V) :
  k <> k' -> Dict.mem k' (Dict.set k v d) = Dict.mem k' d.
Proof. intros H. unfold Dict.mem. rewrite get_set_other; auto. Qed.

Lemma mem_as_stored item : Dict.mem "zpid" (as_stored item) = Dict.mem "zpid" item.
Proof.
  unfold as_stored. destruct (Dict.mem "zpid" item) eqn:E; [|assumption].
  unfold coerce_field at 1.
  assert (Hz : Dict.mem "zpid" (coerce_field "zpid" item) = true).
  { unfold coerce_field. destruct (Dict.get "zpid" item) eqn:G; [|assumption].
    unfold Dict.mem. rewrite get_set_same. reflexivity. }
  destruct (Dict.get "creationDate" _); [|assumption].
  rewrite mem_set_other; [assumption|discriminate].
Qed.

(** One turn of the table writer's loop. *)
Lemma upload_item_spec w item t :
  Dict.mem "creationDate" item = true ->
  exists new,
    upload_item w item t = (Ok (as_stored item), t ++ new)
    /\ items_put new = (if Dict.mem "zpid" item then [as_stored item] else [])
    /\ (Dict.mem "zpid" item = false ->
        new = [EvPrint (Error_uploading_item (KeyError "zpid"))]).
Proof.
  intros Hc. unfold upload_item, as_stored, coerce_field, Dict.mem in *.
  destruct (Dict.get "zpid" item) as [z|] eqn:Hz.
  - rewrite get_set_other by discriminate.
    destruct (Dict.get "creationDate" item) as [c|]; [|discriminate].
    unfold bind, try_except, call, print, ret.
    destruct (batch_put_item w t _).
    + eexists. split; [reflexivity|]. split; [reflexivity|discriminate].
    + eexists. rewrite <- app_assoc. split; [reflexivity|].
      split; [reflexivity|discriminate].
  - unfold bind, print, ret. eexists. split; [reflexivity|].
    split; reflexivity.
Qed.



Lemma keys_set_present {V} (k : string) (v : V) (d : Dict.dict V) :
  Dict.mem k d = true -> Dict.keys (Dict.set k v d) = Dict.keys d.
Proof.
  unfold Dict.mem. induction d as [|[k' v'] d IH]; simpl; [discriminate|].
  destruct (String.eqb k k') eqn:E; simpl.
  - apply String.eqb_eq in E. subst k'. reflexivity.
  - intros H. rewrite IH; auto.
Qed.

Lemma keys_coerce_field k item :
  Dict.keys (coerce_field k item) = Dict.keys item.
Proof.
  unfold coerce_field. destruct (Dict.get k item) eqn:G; [|reflexivity].
  apply keys_set_present. unfold Dict.mem. rewrite G. reflexivity.
Qed.

Lemma keys_as_stored item : Dict.keys (as_stored item) = Dict.keys item.
Proof.
  unfold as_stored. destruct (Dict.mem "zpid" item); [|reflexivity].
  rewrite !keys_coerce_field. reflexivity.
Qed.

(** [writerows] goes through when no record has a field outside the
    header. *)
Lemma writerows_defined (header : list string) (rows : list Row) :
  Forall (fun row => incl (Dict.keys row) header) rows ->
  writerows header rows = Ok (map (archive_line header) rows).
Proof.
  induction 1 as [|row rows Hrow _ IH]; simpl; [reflexivity|].
  unfold dict_to_list.
  assert (Hall : forallb (fun k => existsb (String.eqb k) header)
                   (Dict.keys row) = true).
  { apply forallb_forall. intros k Hk. apply existsb_exists.
    exists k. split; [apply Hrow; assumption|apply String.eqb_refl]. }
  rewrite Hall, IH. reflexivity.
Qed.

(** ** The digits of a number, and reading them back *)

Section DigitStrings.
Import Digits.
Local Open Scope N_scope.

Lemma digits_fuel_acc fuel n acc :
  digits_fuel fuel n acc = digits_fuel fuel n [] ++ acc.
Proof.
  revert n acc. induction fuel as [|fuel IH]; intros n acc; simpl.
  - reflexivity.
  - destruct (n <? 10); [reflexivity|].
    rewrite (IH _ (_ :: acc)), (IH _ [_]), <- app_assoc. reflexivity.
Qed.

Lemma digits_fuel_enough f1 f2 n acc :
  n < 2 ^ N.of_nat f1 -> n < 2 ^ N.of_nat f2 ->
  digits_fuel f1 n acc = digits_fuel f2 n acc.
Proof.
  revert f2 n acc. induction f1 as [|f1 IH]; intros f2 n acc H1 H2.
  - simpl in H1. assert (n = 0) by lia. subst n.
    destruct f2; reflexivity.
  - destruct f2 as [|f2].
    + simpl in H2. assert (n = 0) by lia. subst n. reflexivity.
    + simpl. destruct (N.ltb_spec n 10); [reflexivity|].
      rewrite Nat2N.inj_succ, N.pow_succ_r' in H1, H2.
      apply IH; apply N.Div0.div_lt_upper_bound; lia.
Qed.

Lemma digits_small n : n < 10 -> digits n = [digit_char n].
Proof.
  intros H. unfold digits.
  destruct (N.to_nat (N.size n)) eqn:E; simpl.
  - assert (n = 0).
    { destruct n; [reflexivity|]. simpl in E. lia. }
    subst n. reflexivity.
  - apply N.ltb_lt in H. rewrite H. reflexivity.
Qed.

Lemma digits_step n :
  10 <= n -> digits n = digits (n / 10) ++ [digit_char (n mod 10)].
Proof.
  intros H. unfold digits at 1.
  pose proof (N.size_gt n) as Hs.
  destruct (N.to_nat (N.size n)) as [|f] eqn:E.
  - replace (N.size n) with 0 in Hs by lia. simpl in Hs. lia.
  - simpl. destruct (N.ltb_spec n 10); [lia|].
    rewrite digits_fuel_acc. f_equal. unfold digits.
    apply digits_fuel_enough.
    + replace (N.size n) with (N.succ (N.of_nat f)) in Hs by lia.
      rewrite N.pow_succ_r' in Hs.
      apply N.Div0.div_lt_upper_bound. lia.
    + rewrite N2Nat.id. apply N.size_gt.
Qed.

(** Induction along the digits of a number. *)
Lemma digits_ind (P : N -> Prop) :
  (forall n, n < 10 -> P n) ->
  (forall n, 10 <= n -> P (n / 10) -> P n) ->
  forall n, P n.
Proof.
  intros Hsmall Hstep n.
  induction n as [n IH] using (well_founded_induction N.lt_wf_0).
  destruct (N.lt_ge_cases n 10) as [Hlt|Hge].
  - apply Hsmall. assumption.
  - apply Hstep; [assumption|]. apply IH.
    apply N.div_lt; lia.
Qed.

Lemma ndigits_small n : n < 10 -> ndigits n = 1%Z.
Proof.
  intros H. apply Z.le_antisymm; [|apply ndigits_pos].
  apply ndigits_le; [lia|]. exact H.
Qed.

Lemma ndigits_step n : 10 <= n -> ndigits n = (ndigits (n / 10) + 1)%Z.
Proof.
  intros H.
  assert (Hq : n / 10 <> 0).
  { intros Hz. apply N.div_small_iff in Hz; lia. }
  destruct (ndigits_spec (n / 10)) as [H1 [Hup Hlow]]. specialize (Hlow Hq).
  pose proof (N.div_mod n 10 ltac:(lia)) as Hdm.
  pose proof (N.mod_lt n 10 ltac:(lia)) as Hm.
  set (d := ndigits (n / 10)) in *.
  set (q := n / 10) in *. set (r := n mod 10) in *.
  apply Z.le_antisymm.
  - apply ndigits_le; [lia|]. rewrite pow10_succ by lia. clearbody q r d. lia.
  - apply ndigits_ge. replace (d + 1 - 1)%Z with ((d - 1) + 1)%Z by lia.
    rewrite pow10_succ by lia. clearbody q r d. lia.
Qed.

Lemma length_digits n : Z.of_nat (List.length (digits n)) = ndigits n.
Proof.
  induction n as [n H|n H IH] using digits_ind.
  - rewrite digits_small, ndigits_small by assumption. reflexivity.
  - rewrite digits_step, ndigits_step by assumption.
    rewrite length_app, Nat2Z.inj_add, IH. reflexivity.
Qed.

Lemma digit_cases d :
  d < 10 ->
  d = 0 \/ d = 1 \/ d = 2 \/ d = 3 \/ d = 4 \/ d = 5 \/ d = 6 \/ d = 7
  \/ d = 8 \/ d = 9.
Proof. lia. Qed.

Lemma is_digit_digit_char d : d < 10 -> is_digit (digit_char d) = true.
Proof.
  intros H. destruct (digit_cases d H) as [->|[->|[->|[->|[->|[->|[->|[->|[->| ->]]]]]]]]];
    reflexivity.
Qed.

Lemma digit_val_digit_char d : d < 10 -> digit_val (digit_char d) = d.
Proof.
  intros H. destruct (digit_cases d H) as [->|[->|[->|[->|[->|[->|[->|[->|[->| ->]]]]]]]]];
    reflexivity.
Qed.

Lemma digits_are_digits n : Forall (fun c => is_digit c = true) (digits n).
Proof.
  induction n as [n H|n H IH] using digits_ind.
  - rewrite digits_small by assumption. constructor; [|constructor].
    apply is_digit_digit_char. assumption.
  - rewrite digits_step by assumption. apply Forall_app. split; [exact IH|].
    constructor; [|constructor]. apply is_digit_digit_char.
    apply N.mod_lt. lia.
Qed.

Lemma digits_not_nil n : digits n <> [].
Proof.
  intros H. pose proof (length_digits n) as L. rewrite H in L.
  pose proof (ndigits_pos n). simpl in L. lia.
Qed.

Lemma int_of_digits_snoc l c :
  int_of_digits (l ++ [c]) = int_of_digits l * 10 + digit_val c.
Proof. unfold int_of_digits. rewrite fold_left_app. reflexivity. Qed.

Lemma int_of_digits_digits n : int_of_digits (digits n) = n.
Proof.
  induction n as [n H|n H IH] using digits_ind.
  - rewrite digits_small by assumption. unfold int_of_digits. simpl.
    apply digit_val_digit_char. assumption.
  - rewrite digits_step, int_of_digits_snoc, IH by assumption.
    rewrite digit_val_digit_char by (apply N.mod_lt; lia).
    pose proof (N.div_mod n 10 ltac:(lia)). lia.
Qed.

Lemma int_of_digits_zeros k l :
  int_of_digits (zeros k ++ l) = int_of_digits l.
Proof.
  unfold int_of_digits. induction k as [|k IH]; [reflexivity|exact IH].
Qed.

Lemma length_zeros k : List.length (zeros k) = k.
Proof. induction k; simpl; congruence. Qed.

Lemma zeros_are_digits k : Forall (fun c => is_digit c = true) (zeros k).
Proof. induction k; constructor; auto. Qed.

End DigitStrings.

(** ** Reading back what [str] writes *)

Section Parsing.
Import Digits.
Local Open Scope Z_scope.

Lemma digit_plain c : digit c -> plain c.
Proof.
  unfold digit, plain, is_digit, is_space. intros H.
  apply andb_true_iff in H. destruct H as [H1 H2].
  apply N.leb_le in H1, H2. split.
  - destruct (N.leb_spec 9 (N_of_ascii c)), (N.leb_spec (N_of_ascii c) 13),
      (N.leb_spec 28 (N_of_ascii c)), (N.leb_spec (N_of_ascii c) 32);
      simpl; try reflexivity; lia.
  - apply Ascii.eqb_neq. intros ->. simpl in H2. lia.
Qed.

Lemma digit_lower c : digit c -> lower c = c.
Proof.
  unfold digit, is_digit, lower. intros H.
  apply andb_true_iff in H. destruct H as [H1 H2].
  apply N.leb_le in H1, H2.
  destruct (N.leb_spec 65 (N_of_ascii c)); simpl; [lia|reflexivity].
Qed.

Lemma lower_digits l : Forall digit l -> map lower l = l.
Proof.
  induction 1 as [|c l H _ IH]; simpl; [reflexivity|].
  rewrite IH, digit_lower by assumption. reflexivity.
Qed.

Lemma lstrip_plain l : Forall plain l -> lstrip l = l.
Proof. destruct 1 as [|c l [H _] _]; simpl; [|rewrite H]; reflexivity. Qed.

Lemma strip_plain l : Forall plain l -> strip l = l.
Proof.
  intros H. unfold strip. rewrite (lstrip_plain l H).
  rewrite lstrip_plain by (apply Forall_rev; assumption).
  apply rev_involutive.
Qed.

Lemma remove_underscores_plain l : Forall plain l -> remove_underscores l = l.
Proof.
  induction 1 as [|c l [_ H] _ IH]; simpl; [reflexivity|].
  rewrite H. simpl. rewrite IH. reflexivity.
Qed.

(** What the parser makes of a string without white space and
    underscores. *)
Lemma parser_plain l :
  Forall plain l ->
  parser (string_of_list_ascii l)
  = let '(sign, s) := parse_sign (map lower l) in
    match parse_number sign s with
    | Some d => Some d
    | None =>
        match parse_inf sign s with
        | Some d => Some d
        | None => parse_nan sign s
        end
    end.
Proof.
  intros H. unfold parser.
  rewrite list_ascii_of_string_of_list_ascii, strip_plain,
    remove_underscores_plain by assumption.
  reflexivity.
Qed.

Lemma span_digits_app ds rest :
  Forall digit ds ->
  match rest with [] => True | c :: _ => is_digit c = false end ->
  span_digits (ds ++ rest) = (ds, rest).
Proof.
  intros H Hrest. induction H as [|c l Hc _ IH]; simpl.
  - destruct rest as [|c t]; [reflexivity|]. simpl. rewrite Hrest.
    reflexivity.
  - unfold digit in Hc. rewrite Hc, IH. reflexivity.
Qed.

Lemma span_digits_all ds : Forall digit ds -> span_digits ds = (ds, []).
Proof.
  intros H. rewrite <- (app_nil_r ds) at 1. apply span_digits_app; auto.
Qed.

Lemma parse_sign_digit c t : digit c -> parse_sign (c :: t) = (false, c :: t).
Proof.
  unfold digit. intros H.
  destruct c as [[] [] [] [] [] [] [] []]; try reflexivity; discriminate.
Qed.

Lemma parse_sign_chars s c t :
  digit c -> parse_sign (sign_chars s ++ c :: t) = (s, c :: t).
Proof.
  intros H. destruct s; [reflexivity|]. apply parse_sign_digit. assumption.
Qed.

(** The exponent as [%+d] writes it reads back. *)
Lemma parse_exp_signed_int n :
  parse_exp ("e"%char :: signed_int n) = Some n.
Proof.
  unfold signed_int. cbn [parse_exp].
  assert (Hspan : span_digits (digits (Z.abs_N n)) = (digits (Z.abs_N n), []))
    by (apply span_digits_all, digits_are_digits).
  pose proof (digits_not_nil (Z.abs_N n)) as Hne.
  destruct (Z.ltb_spec n 0) as [Hneg|Hpos]; cbn [parse_sign]; rewrite Hspan;
    destruct (digits (Z.abs_N n)) as [|a l] eqn:E; try contradiction;
    rewrite <- E, int_of_digits_digits; f_equal; lia.
Qed.

Lemma signed_int_plain n : Forall plain (signed_int n).
Proof.
  unfold signed_int. constructor.
  - destruct (n <? 0); split; reflexivity.
  - eapply Forall_impl; [|apply digits_are_digits]. apply digit_plain.
Qed.

Lemma signed_int_lower n : map lower (signed_int n) = signed_int n.
Proof.
  unfold signed_int. simpl. rewrite lower_digits by apply digits_are_digits.
  destruct (n <? 0); reflexivity.
Qed.

Lemma sign_chars_plain s : Forall plain (sign_chars s).
Proof. destruct s; repeat constructor. Qed.

Lemma rendering_plain s c e l : rendering s c e l -> Forall plain l.
Proof.
  intros [ip fp dot x Hip Hfp _ _ _ _].
  apply Forall_app. split; [apply sign_chars_plain|].
  apply Forall_app. split.
  { eapply Forall_impl; [|exact Hip]. apply digit_plain. }
  apply Forall_app. split.
  - destruct dot; [|constructor]. constructor; [split; reflexivity|].
    eapply Forall_impl; [|exact Hfp]. apply digit_plain.
  - destruct x; [|constructor]. constructor; [split; reflexivity|].
    apply signed_int_plain.
Qed.

Lemma parser_rendering s c e l :
  rendering s c e l -> parser (string_of_list_ascii l) = Some (Fin s c e).
Proof.
  intros R. rewrite parser_plain by (eapply rendering_plain; eassumption).
  destruct R as [ip fp dot x Hip Hfp Hne Hdot Hint Hexp].
  rewrite !map_app, (lower_digits ip Hip).
  assert (Hs : map lower (sign_chars s) = sign_chars s) by (destruct s; reflexivity).
  rewrite Hs.
  set (ex := map lower match x with
                       | Some n => "E"%char :: signed_int n
                       | None => []
                       end).
  assert (Hex : ex = match x with
                     | Some n => "e"%char :: signed_int n
                     | None => []
                     end).
  { subst ex. destruct x; [|reflexivity]. cbn [map].
    rewrite signed_int_lower. reflexivity. }
  assert (Hpe : parse_exp ex = Some match x with Some n => n | None => 0 end).
  { rewrite Hex. destruct x; [apply parse_exp_signed_int|reflexivity]. }
  assert (Hhead : match ex with [] => True | a :: _ => is_digit a = false end).
  { rewrite Hex. destruct x; [reflexivity|exact I]. }
  destruct ip as [|a ip]; [contradiction|].
  inversion Hip as [|? ? Ha Hip']; subst.
  cbn [app]. rewrite (parse_sign_chars s a _ Ha).
  unfold parse_number.
  change (a :: ip ++ ?r) with ((a :: ip) ++ r).
  destruct dot.
  - cbn [map]. rewrite (lower_digits fp Hfp).
    change (lower ".") with "."%char.
    rewrite (span_digits_app (a :: ip) _ Hip) by reflexivity.
    change (("."%char :: fp) ++ ex) with ("."%char :: (fp ++ ex)).
    cbv beta iota.
    rewrite (span_digits_app fp ex Hfp Hhead).
    cbn [app]. rewrite Hpe. reflexivity.
  - rewrite (Hdot eq_refl) in *. cbn [map]. change ([] ++ ex) with ex.
    rewrite (span_digits_app (a :: ip) ex Hip Hhead).
    cbv beta iota.
    assert (Hnodot : match ex with
                     | "."%char :: t => span_digits t
                     | _ => ([], ex)
                     end = ([], ex)).
    { rewrite Hex. destruct x; reflexivity. }
    rewrite Hnodot. cbn [app]. rewrite Hpe. reflexivity.
Qed.

Lemma Forall_firstn_skipn {A} (P : A -> Prop) n l :
  Forall P l -> Forall P (firstn n l) /\ Forall P (skipn n l).
Proof.
  intros H. rewrite <- (firstn_skipn n l) in H. apply Forall_app in H.
  exact H.
Qed.

Lemma to_chars_rendering s c e : rendering s c e (to_chars (Fin s c e)).
Proof.
  unfold to_chars.
  pose proof (length_digits c) as Hlen.
  pose proof (ndigits_pos c) as Hpos.
  pose proof (digits_are_digits c) as Hds.
  pose proof (int_of_digits_digits c) as Hint.
  pose proof (digits_not_nil c) as Hne.
  set (ds := digits c) in *. set (len := Z.of_nat (List.length ds)) in *.
  cbv zeta.
  destruct ((e <=? 0) && (-6 <? e + len)) eqn:Hplace.
  - apply andb_true_iff in Hplace. destruct Hplace as [He Hl].
    apply Z.leb_le in He. apply Z.ltb_lt in Hl.
    rewrite Z.eqb_refl.
    destruct (Z.leb_spec (e + len) 0) as [Hd|Hd].
    + apply (Rendering s c e ["0"%char] (zeros (Z.to_nat (- (e + len))) ++ ds)
               true None).
      * repeat constructor.
      * apply Forall_app. split; [apply zeros_are_digits|assumption].
      * discriminate.
      * discriminate.
      * change (["0"%char] ++ ?l) with (zeros 1 ++ l).
        rewrite !int_of_digits_zeros. assumption.
      * rewrite length_app, length_zeros, Nat2Z.inj_add, Z2Nat.id by lia.
        fold len. lia.
    + destruct (Z.leb_spec len (e + len)) as [Hd'|Hd'].
      * replace (Z.to_nat (e + len - len)) with 0%nat by lia.
        cbn [zeros]. rewrite app_nil_r.
        apply (Rendering s c e ds [] false None); auto.
        -- rewrite app_nil_r. assumption.
        -- simpl. lia.
      * apply (Rendering s c e (firstn (Z.to_nat (e + len)) ds)
                 (skipn (Z.to_nat (e + len)) ds) true None).
        -- apply Forall_firstn_skipn. assumption.
        -- apply Forall_firstn_skipn. assumption.
        -- destruct ds as [|a ds']; [contradiction|].
           destruct (Z.to_nat (e + len)) eqn:E; [lia|discriminate].
        -- discriminate.
        -- rewrite firstn_skipn. assumption.
        -- rewrite length_skipn. fold len. lia.
  - apply andb_false_iff in Hplace.
    assert (Hcase : 0 < e \/ e + len <= -6).
    { destruct Hplace as [H|H]; [apply Z.leb_gt in H|apply Z.ltb_ge in H]; lia. }
    clear Hplace.
    change (1 <=? 0) with false. cbv iota.
    assert (Hx : (e + len =? 1) = false) by (apply Z.eqb_neq; lia).
    rewrite Hx.
    destruct (Z.leb_spec len 1) as [Hd|Hd].
    + replace (Z.to_nat (1 - len)) with 0%nat by lia.
      cbn [zeros]. rewrite app_nil_r.
      apply (Rendering s c e ds [] false (Some (e + len - 1))); auto.
      * rewrite app_nil_r. assumption.
      * simpl. lia.
    + apply (Rendering s c e (firstn (Z.to_nat 1) ds) (skipn (Z.to_nat 1) ds)
               true (Some (e + len - 1))).
      * apply Forall_firstn_skipn. assumption.
      * apply Forall_firstn_skipn. assumption.
      * destruct ds as [|a ds']; [contradiction|discriminate].
      * discriminate.
      * rewrite firstn_skipn. assumption.
      * rewrite length_skipn. fold len. lia.
Qed.

Lemma of_string_to_str_fin s c e :
  of_string (to_str (Fin s c e)) = Ok (Fin s c e).
Proof.
  unfold of_string, to_str.
  rewrite (parser_rendering s c e _ (to_chars_rendering s c e)). reflexivity.
Qed.

End Parsing.

Section RoundTrip.
Import Digits.
Local Open Scope Z_scope.

Lemma parse_nan_text sign signal ds :
  Forall digit ds ->
  parse_sign (sign_chars sign ++ nan_text signal ds)
  = (sign, nan_text signal ds)
  /\ parse_number sign (nan_text signal ds) = None
  /\ parse_inf sign (nan_text signal ds) = None
  /\ parse_nan sign (nan_text signal ds)
     = Some (NaN sign signal (int_of_digits ds)).
Proof.
  intros H. unfold nan_text. split; [|split; [|split]].
  - destruct sign, signal; reflexivity.
  - destruct signal; reflexivity.
  - unfold parse_inf. destruct signal; cbn [app];
      repeat (destruct (list_eq_dec _ _ _) as [E|_]; [discriminate E|]);
      reflexivity.
  - unfold parse_nan. destruct signal; cbn [app];
      rewrite (span_digits_all ds H); reflexivity.
Qed.

Lemma of_string_to_str_nan s signal p :
  of_string (to_str (NaN s signal p)) = Ok (NaN s signal p).
Proof.
  unfold of_string, to_str.
  assert (Hp : Forall digit (if (p =? 0)%N then [] else digits p)).
  { destruct (p =? 0)%N; [constructor|apply digits_are_digits]. }
  assert (Hv : int_of_digits (if (p =? 0)%N then [] else digits p) = p).
  { destruct (N.eqb_spec p 0) as [E|_];
      [rewrite E; reflexivity|apply int_of_digits_digits]. }
  cbn [to_chars]. set (ds := if (p =? 0)%N then [] else digits p) in *.
  rewrite parser_plain.
  - rewrite !map_app, (lower_digits ds Hp).
    assert (Hlow : map lower (sign_chars s)
                     ++ map lower (list_ascii_of_string
                                     (if signal then "sNaN" else "NaN"))
                     ++ ds
                   = sign_chars s ++ nan_text signal ds).
    { destruct s, signal; reflexivity. }
    rewrite Hlow.
    destruct (parse_nan_text s signal ds Hp) as [H1 [H2 [H3 H4]]].
    rewrite H1, H2, H3, H4, Hv. reflexivity.
  - apply Forall_app. split; [apply sign_chars_plain|].
    apply Forall_app. split.
    + destruct signal; repeat constructor.
    + eapply Forall_impl; [|exact Hp]. apply digit_plain.
Qed.

Lemma of_string_to_str d : of_string (to_str d) = Ok d.
Proof.
  destruct d as [s c e|s|s signal p].
  - apply of_string_to_str_fin.
  - destruct s; vm_compute; reflexivity.
  - apply of_string_to_str_nan.
Qed.

End RoundTrip.

(** ** Texts that are no numbers *)

Section Refusal.
Import Digits.
Local Open Scope Z_scope.

Lemma span_digits_spec s :
  forall d r, span_digits s = (d, r) -> s = d ++ r /\ Forall digit d.
Proof.
  induction s as [|c s IH]; intros d r H; simpl in H.
  - inversion H. auto.
  - destruct (is_digit c) eqn:E.
    + destruct (span_digits s) as [d' r'] eqn:Es. inversion H; subst.
      destruct (IH d' r eq_refl) as [-> Hd]. split; [reflexivity|].
      constructor; assumption.
    + inversion H. auto.
Qed.

Lemma foreign_not_digit c l : foreign c -> Forall digit l -> ~ In c l.
Proof.
  intros [_ [Hd _]] Hl Hin. rewrite Forall_forall in Hl.
  specialize (Hl c Hin). unfold digit in Hl. congruence.
Qed.

Lemma foreign_not_letter c (l : list ascii) :
  foreign c ->
  Forall (fun a => ((97 <=? N_of_ascii a) && (N_of_ascii a <=? 122))%N = true)
    l ->
  ~ In c l.
Proof.
  intros [_ [_ [_ [Hl _]]]] Hall Hin. rewrite Forall_forall in Hall.
  specialize (Hall c Hin). cbv zeta in Hl. rewrite Hall in Hl.
  rewrite orb_true_r in Hl. discriminate.
Qed.

Lemma foreign_lower c : foreign c -> lower c = c.
Proof.
  intros [_ [_ [_ [Hl _]]]]. unfold lower. cbv zeta in Hl.
  apply orb_false_iff in Hl. destruct Hl as [Hl _]. rewrite Hl. reflexivity.
Qed.

Lemma in_lstrip c l : is_space c = false -> In c l -> In c (lstrip l).
Proof.
  intros Hc. induction l as [|a l IH]; simpl; [auto|].
  destruct (is_space a) eqn:E.
  - intros [->|Hin]; [congruence|auto].
  - auto.
Qed.

Lemma in_parse_sign c l :
  foreign c -> In c l -> In c (snd (parse_sign l)).
Proof.
  intros [_ [_ [_ [_ [_ [Hplus [Hminus _]]]]]]] Hin.
  destruct l as [|a l]; [contradiction|].
  destruct Hin as [->|Hin].
  - assert (E : parse_sign (c :: l) = (false, c :: l)).
    { destruct c as [[] [] [] [] [] [] [] []]; try reflexivity; congruence. }
    rewrite E. left. reflexivity.
  - unfold parse_sign.
    destruct a as [[] [] [] [] [] [] [] []]; simpl; auto.
Qed.

Lemma parse_exp_chars c s n :
  foreign c -> parse_exp s = Some n -> ~ In c s.
Proof.
  intros Hc. pose proof Hc as [_ [_ [_ [Hl [_ [Hplus [Hminus _]]]]]]].
  destruct s as [|a s]; [auto|].
  unfold parse_exp.
  assert (Ha : a = "e"%char \/ a <> "e"%char)
    by (destruct (ascii_dec a "e"); auto).
  destruct Ha as [->|Ha].
  - destruct (parse_sign s) as [neg s'] eqn:Es.
    destruct (span_digits s') as [d r] eqn:Ed.
    destruct d as [|a d]; [discriminate|].
    destruct r; [|discriminate]. intros _.
    destruct (span_digits_spec s' _ _ Ed) as [-> Hd].
    rewrite app_nil_r in Es.
    intros [Hin|Hin].
    + subst c. discriminate Hl.
    + assert (Hs : In c (snd (parse_sign s))) by (apply in_parse_sign; auto).
      rewrite Es in Hs. apply (foreign_not_digit c _ Hc Hd Hs).
  - intros H. exfalso. apply Ha.
    destruct a as [[] [] [] [] [] [] [] []]; try discriminate H.
    reflexivity.
Qed.

Lemma parse_number_chars c sign s d :
  foreign c -> parse_number sign s = Some d -> ~ In c s.
Proof.
  intros Hc. pose proof Hc as [_ [_ [_ [_ [Hdot _]]]]].
  unfold parse_number.
  destruct (span_digits s) as [ip rest] eqn:Ei.
  destruct (span_digits_spec s _ _ Ei) as [-> Hip].
  destruct rest as [|a rest].
  - intros _ Hin. rewrite app_nil_r in Hin.
    apply (foreign_not_digit c _ Hc Hip Hin).
  - assert (Ha : a = "."%char \/ a <> "."%char)
      by (destruct (ascii_dec a "."); auto).
    destruct Ha as [->|Ha].
    + destruct (span_digits rest) as [fp rest'] eqn:Ef.
      destruct (span_digits_spec rest _ _ Ef) as [-> Hfp].
      intros H. destruct (ip ++ fp) as [|x xs] in H; [discriminate|].
      destruct (parse_exp rest') as [n|] eqn:Hn; [|discriminate].
      intros Hin. apply in_app_or in Hin. destruct Hin as [Hin|[Hin|Hin]].
      * apply (foreign_not_digit c _ Hc Hip Hin).
      * congruence.
      * apply in_app_or in Hin. destruct Hin as [Hin|Hin].
        -- apply (foreign_not_digit c _ Hc Hfp Hin).
        -- apply (parse_exp_chars c _ n Hc Hn Hin).
    + assert (E : match a :: rest with
                  | "."%char :: t => span_digits t
                  | _ => ([], a :: rest)
                  end = ([], a :: rest)).
      { destruct a as [[] [] [] [] [] [] [] []]; try reflexivity.
        congruence. }
      rewrite E. intros H. destruct (ip ++ []) as [|x xs] in H;
        [discriminate|].
      destruct (parse_exp (a :: rest)) as [n|] eqn:Hn; [|discriminate].
      intros Hin. apply in_app_or in Hin. destruct Hin as [Hin|Hin].
      * apply (foreign_not_digit c _ Hc Hip Hin).
      * apply (parse_exp_chars c _ n Hc Hn Hin).
Qed.

Lemma parse_inf_chars c sign s d :
  foreign c -> parse_inf sign s = Some d -> ~ In c s.
Proof.
  intros Hc. unfold parse_inf.
  destruct (list_eq_dec ascii_dec s _) as [->|_].
  - intros _. apply (foreign_not_letter c _ Hc). repeat constructor.
  - destruct (list_eq_dec ascii_dec s _) as [->|_]; [|discriminate].
    intros _. apply (foreign_not_letter c _ Hc). repeat constructor.
Qed.

Lemma parse_nan_chars c sign s d :
  foreign c -> parse_nan sign s = Some d -> ~ In c s.
Proof.
  intros Hc. pose proof Hc as [_ [_ [_ [Hl _]]]].
  assert (Hrest : forall signal l,
             match l with
             | "n"%char :: "a"%char :: "n"%char :: t =>
                 match span_digits t with
                 | (d0, []) => Some (NaN sign signal (int_of_digits d0))
                 | _ => None
                 end
             | _ => None
             end = Some d -> ~ In c l).
  { intros signal l H.
    destruct l as [|a1 l]; [discriminate H|].
    destruct a1 as [[] [] [] [] [] [] [] []]; try discriminate H.
    destruct l as [|a2 l]; [discriminate H|].
    destruct a2 as [[] [] [] [] [] [] [] []]; try discriminate H.
    destruct l as [|a3 t]; [discriminate H|].
    destruct a3 as [[] [] [] [] [] [] [] []]; try discriminate H.
    destruct (span_digits t) as [d0 r] eqn:E.
    destruct (span_digits_spec t _ _ E) as [-> Hd].
    destruct r; [|discriminate]. rewrite app_nil_r.
    intros [Hin|[Hin|[Hin|Hin]]]; try (subst c; discriminate Hl).
    apply (foreign_not_digit c _ Hc Hd Hin). }
  unfold parse_nan. destruct s as [|a s]; [auto|].
  assert (Ha : a = "s"%char \/ a <> "s"%char)
    by (destruct (ascii_dec a "s"); auto).
  destruct Ha as [->|Ha].
  - intros H Hin. destruct Hin as [Hin|Hin]; [subst c; discriminate Hl|].
    exact (Hrest true s H Hin).
  - assert (E : match a :: s with
                | "s"%char :: t => (true, t)
                | _ => (false, a :: s)
                end = (false, a :: s)).
    { destruct a as [[] [] [] [] [] [] [] []]; try reflexivity. congruence. }
    rewrite E. exact (Hrest false (a :: s)).
Qed.

Lemma parser_refuses c (value : string) :
  foreign c -> In c (list_ascii_of_string value) -> parser value = None.
Proof.
  intros Hc Hin. pose proof Hc as [_ [_ [Hsp [_ [_ [_ [_ Hund]]]]]]].
  unfold parser.
  set (s := remove_underscores (strip (list_ascii_of_string value))).
  assert (Hs : In c (map lower s)).
  { rewrite <- (foreign_lower c Hc). apply in_map. subst s.
    unfold remove_underscores. apply filter_In. split.
    - unfold strip. apply -> in_rev. apply in_lstrip; [assumption|].
      apply -> in_rev. apply in_lstrip; assumption.
    - apply negb_true_iff, Ascii.eqb_neq. assumption. }
  pose proof (in_parse_sign c _ Hc Hs) as Hr.
  destruct (parse_sign (map lower s)) as [sign r]. cbn [snd] in Hr.
  destruct (parse_number sign r) as [d|] eqn:E1.
  { exfalso. apply (parse_number_chars c sign r d Hc E1 Hr). }
  destruct (parse_inf sign r) as [d|] eqn:E2.
  { exfalso. apply (parse_inf_chars c sign r d Hc E2 Hr). }
  destruct (parse_nan sign r) as [d|] eqn:E3; [|reflexivity].
  exfalso. apply (parse_nan_chars c sign r d Hc E3 Hr).
Qed.

End Refusal.

(** ** The result of [convert_currency] *)

Section ConversionFacts.
Import Digits.
Local Open Scope Z_scope.

Lemma rescale_exp s c e x r : exists c', rescale s c e x r = Fin s c' x.
Proof.
  unfold rescale. destruct (c =? 0)%N; [eexists; reflexivity|].
  destruct (x <=? e); [eexists; reflexivity|].
  destruct (ndigits c + e - x <? 0); cbv zeta beta iota;
    eexists; reflexivity.
Qed.

(** A number of cents that fits the context is left alone by [_fix]. *)
Lemma fix_cents s c :
  ndigits c <= prec -> fix_ (Fin s c (-2)) = Ok (Fin s c (-2)).
Proof.
  intros H. destruct (N.eq_dec c 0) as [->|Hc]; [reflexivity|].
  apply fix_fits; auto; unfold Etiny, Etop, Emin, Emax, prec in *; lia.
Qed.

Lemma ndigits_mod_prec p : ndigits (p mod pow10 prec) <= prec.
Proof.
  apply ndigits_le; [unfold prec; lia|].
  apply N.mod_lt. pose proof (pow10_pos prec). lia.
Qed.

Lemma fix_nan_fits s signal p :
  ndigits p <= prec -> fix_nan (NaN s signal p) = NaN s signal p.
Proof.
  intros H. unfold fix_nan.
  destruct (Z.gtb_spec (ndigits p) prec); [lia|reflexivity].
Qed.

Lemma fix_nan_digits s signal p :
  exists p', fix_nan (NaN s signal p) = NaN s signal p' /\ ndigits p' <= prec.
Proof.
  unfold fix_nan. destruct (Z.gtb_spec (ndigits p) prec).
  - eexists. split; [reflexivity|apply ndigits_mod_prec].
  - eexists. split; [reflexivity|assumption].
Qed.

(** What [quantize] to cents can return. *)
Lemma quantize_cent_cases a d :
  quantize a cent ROUND_HALF_UP = Ok d ->
  match a with
  | Fin s _ _ => exists c, d = Fin s c (-2) /\ ndigits c <= prec
  | Inf _ => False
  | NaN s signal p => signal = false /\ d = fix_nan a
  end.
Proof.
  unfold quantize, cent. destruct a as [s c e|s|s signal p].
  - cbn [check_nans].
    change (negb ((Etiny <=? -2) && (-2 <=? Emax))) with false. cbv iota.
    destruct (N.eqb_spec c 0) as [->|Hc].
    + intros H. inversion H. exists 0%N. split; [reflexivity|].
      rewrite ndigits_0. unfold prec. lia.
    + destruct (adjusted c e >? Emax); [discriminate|].
      destruct (adjusted c e - -2 + 1 >? prec); [discriminate|].
      destruct (rescale_exp s c e (-2) ROUND_HALF_UP) as [c' ->].
      destruct (adjusted c' (-2) >? Emax); [discriminate|].
      destruct (Z.gtb_spec (ndigits c') prec) as [|Hd]; [discriminate|].
      rewrite (fix_cents s c' Hd). intros H. inversion H. eauto.
  - cbn [check_nans]. discriminate.
  - destruct signal; cbn [check_nans]; [discriminate|].
    intros H. inversion H. auto.
Qed.

Lemma fix_sign s c e d :
  fix_ (Fin s c e) = Ok d -> exists c' e', d = Fin s c' e'.
Proof.
  unfold fix_. destruct (c =? 0)%N; [intros H; inversion H; eauto|].
  cbv zeta.
  destruct (ndigits c + e - prec >? Etop); [discriminate|].
  destruct (e <? _); [|intros H; inversion H; eauto].
  destruct (if _ <? 0 then (1%N, 1) else _) as [c1 drop].
  destruct (round_half_even c1 drop >? 0).
  - destruct (ndigits (c1 / pow10 drop + 1) >? prec);
      (destruct (_ >? Etop); [discriminate|]);
      intros H; inversion H; eauto.
  - destruct (_ >? Etop); [discriminate|].
    intros H; inversion H; eauto.
Qed.

(** What the product of a price and a rate can be. *)
Lemma mul_cases a b p :
  mul a b = Ok p ->
  match p with
  | Fin s _ _ => s = xorb (sign_of a) (sign_of b)
  | Inf s => s = xorb (sign_of a) (sign_of b)
  | NaN _ signal d => signal = false /\ ndigits d <= prec
  end.
Proof.
  assert (Hnan : forall s0 p0,
             Ok (fix_nan (NaN s0 false p0)) = Ok p ->
             match p with
             | Fin s _ _ => s = xorb (sign_of a) (sign_of b)
             | Inf s => s = xorb (sign_of a) (sign_of b)
             | NaN _ signal d => signal = false /\ ndigits d <= prec
             end).
  { intros s0 p0 H. destruct (fix_nan_digits s0 false p0) as [p' [E Hd]].
    rewrite E in H. inversion H. auto. }
  unfold mul.
  destruct a as [s1 c1 e1|s1|s1 g1 p1], b as [s2 c2 e2|s2|s2 g2 p2];
    cbn [check_nans sign_of];
    try (destruct g1; [discriminate|]);
    try (destruct g2; [discriminate|]);
    try (apply Hnan).
  - intros H. destruct (fix_sign _ _ _ _ H) as [c' [e' ->]]. reflexivity.
  - destruct (truthy _); [|discriminate].
    intros H; inversion H; reflexivity.
  - destruct (truthy _); [|discriminate].
    intros H; inversion H; reflexivity.
  - intros H; inversion H; reflexivity.
Qed.

End ConversionFacts.

Section CentsText.
Import Digits.
Local Open Scope Z_scope.

Lemma convert_currency_cases price rate d :
  convert_currency price rate = Ok d ->
  (exists c,
     d = Fin (xorb (sign_of price) (sign_of rate)) c (-2)
     /\ ndigits c <= prec)
  \/ (exists s p, d = NaN s false p /\ ndigits p <= prec).
Proof.
  unfold convert_currency. destruct (mul price rate) as [cp|] eqn:Hmul;
    cbn [rbind]; [|discriminate].
  intros Hq. apply mul_cases in Hmul. apply quantize_cent_cases in Hq.
  destruct cp as [s c e|s|s signal p].
  - destruct Hq as [c' [-> Hd]]. subst s. left. eauto.
  - contradiction.
  - destruct Hmul as [-> Hd]. destruct Hq as [_ ->].
    rewrite fix_nan_fits by assumption. right. eauto.
Qed.

Lemma firstn_skipn_exact {A} (l1 l2 : list A) n :
  List.length l1 = n ->
  firstn n (l1 ++ l2) = l1 /\ skipn n (l1 ++ l2) = l2.
Proof.
  intros <-. induction l1 as [|a l1 [IH1 IH2]]; simpl; [auto|].
  rewrite IH1, IH2. auto.
Qed.

(** The text of an amount in cents: the sign, the whole units, a point
    and two digits; never an exponent. *)
Lemma to_chars_cents s c :
  to_chars (Fin s c (-2))
  = sign_chars s ++ digits (c / 100)
      ++ ["."%char; digit_char ((c / 10) mod 10); digit_char (c mod 10)].
Proof.
  destruct (N.lt_ge_cases c 10) as [H1|H1].
  - unfold to_chars. rewrite (digits_small c H1).
    rewrite (N.div_small c 100), (N.div_small c 10), (N.mod_small c 10)
      by lia.
    reflexivity.
  - destruct (N.lt_ge_cases c 100) as [H2|H2].
    + assert (Hq : (c / 10 < 10)%N)
        by (apply N.Div0.div_lt_upper_bound; lia).
      unfold to_chars. rewrite (digits_step c H1), (digits_small _ Hq).
      rewrite (N.div_small c 100), (N.mod_small (c / 10) 10) by lia.
      reflexivity.
    + assert (Hq : (10 <= c / 10)%N)
        by (apply N.div_le_lower_bound; lia).
      pose proof (length_digits (c / 100)) as Hlen.
      pose proof (ndigits_pos (c / 100)) as Hpos.
      unfold to_chars.
      rewrite (digits_step c H1), (digits_step _ Hq), <- app_assoc.
      rewrite N.Div0.div_div. change (10 * 10)%N with 100%N.
      cbn [app]. set (hi := digits (c / 100)) in *.
      set (lo := [digit_char ((c / 10) mod 10); digit_char (c mod 10)]).
      assert (Hl : Z.of_nat (List.length (hi ++ lo))
                   = Z.of_nat (List.length hi) + 2).
      { rewrite length_app, Nat2Z.inj_add. reflexivity. }
      cbv zeta. rewrite Hl.
      replace (-2 + (Z.of_nat (List.length hi) + 2))
        with (Z.of_nat (List.length hi)) by lia.
      destruct ((-2 <=? 0) && (-6 <? Z.of_nat (List.length hi))) eqn:E.
      2:{ apply andb_false_iff in E. destruct E as [E|E];
            [discriminate|apply Z.ltb_ge in E; lia]. }
      rewrite Z.eqb_refl.
      destruct (Z.leb_spec (Z.of_nat (List.length hi)) 0); [lia|].
      destruct (Z.leb_spec (Z.of_nat (List.length hi) + 2)
                  (Z.of_nat (List.length hi))); [lia|].
      rewrite Nat2Z.id.
      destruct (firstn_skipn_exact hi lo (List.length hi) eq_refl)
        as [-> ->].
      reflexivity.
Qed.

End CentsText.

Section ConversionAtPar.
Import Digits.
Local Open Scope Z_scope.

(** A number of cents that fits the context, converted at a rate of one. *)
Lemma convert_cents_at_par s c :
  ndigits c <= prec ->
  convert_currency (Fin s c (-2)) (Fin false 1 0) = Ok (Fin s c (-2)).
Proof.
  intros H. unfold convert_currency, mul. cbn [check_nans sign_of].
  rewrite xorb_false_r, N.mul_1_r, Z.add_0_r, (fix_cents s c H).
  cbn [rbind]. rewrite quantize_cent.
  - unfold spec_round_half_up_cents. simpl Z.leb. cbv iota.
    change (pow10 (-2 + 2)) with 1%N. rewrite N.mul_1_r. reflexivity.
  - assumption.
  - right. unfold prec in H. lia.
Qed.

Lemma convert_nan_at_par s p rate :
  ndigits p <= prec ->
  (forall s' p', rate <> NaN s' true p') ->
  convert_currency (NaN s false p) rate = Ok (NaN s false p).
Proof.
  intros H Hrate. unfold convert_currency, mul.
  assert (Hc : check_nans (NaN s false p) rate
               = Some (Ok (fix_nan (NaN s false p)))).
  { destruct rate as [| |s' [|] p']; try reflexivity.
    exfalso. apply (Hrate s' p'). reflexivity. }
  rewrite Hc, fix_nan_fits by assumption. cbn [rbind].
  unfold quantize, cent. cbn [check_nans].
  rewrite fix_nan_fits by assumption. reflexivity.
Qed.

Lemma truediv_self s c e :
  c <> 0%N -> truediv (Fin s c e) (Fin s c e) = Ok (Fin false 1 0).
Proof.
  intros Hc. unfold truediv. cbn [check_nans sign_of].
  apply N.eqb_neq in Hc. rewrite Hc. apply N.eqb_neq in Hc.
  rewrite xorb_nilpotent.
  replace (ndigits c - ndigits c + prec + 1) with 29 by (unfold prec; lia).
  rewrite Z.sub_diag. change (0 <=? 29) with true. cbv iota.
  rewrite div_eucl_div_mod.
  rewrite (N.mul_comm c), N.div_mul, N.Div0.mod_mul by assumption.
  vm_compute. reflexivity.
Qed.

Lemma convert_currency_zero s1 c1 e1 s2 c2 e2 :
  c1 = 0%N \/ c2 = 0%N ->
  convert_currency (Fin s1 c1 e1) (Fin s2 c2 e2)
  = Ok (Fin (xorb s1 s2) 0 (-2)).
Proof.
  intros H. assert (Hz : (c1 * c2 = 0)%N) by (destruct H; subst; lia).
  unfold convert_currency, mul. cbn [check_nans sign_of].
  rewrite Hz. reflexivity.
Qed.

Lemma set_same {V} (k : string) (v : V) (d : Dict.dict V) :
  Dict.get k d = Some v -> Dict.set k v d = d.
Proof.
  induction d as [|[k' v'] d IH]; simpl; [discriminate|].
  destruct (String.eqb_spec k k') as [->|_].
  - intros H. inversion H. reflexivity.
  - intros H. rewrite IH by assumption. reflexivity.
Qed.

End ConversionAtPar.

(** ** The order of the amounts *)

Section OrderFacts.
Import Digits.
Local Open Scope Z_scope.

(** Rounding half-even does not depend on the zeros a coefficient ends
    in. *)
Lemma spec_round_half_even_scale c d j :
  0 <= d -> 0 <= j ->
  spec_round_half_even (c * pow10 j) (d + j) = spec_round_half_even c d.
Proof.
  intros Hd Hj. unfold spec_round_half_even. cbv zeta.
  rewrite pow10_add by assumption.
  pose proof (pow10_pos d) as HD. pose proof (pow10_pos j) as HT.
  rewrite N.Div0.div_mul_cancel_r by lia.
  rewrite N.Div0.mul_mod_distr_r.
  pose proof (N.mod_lt c (pow10 d) ltac:(lia)) as Hr.
  set (D := pow10 d) in *. set (T := pow10 j) in *.
  set (r := (c mod D)%N) in *. set (q := (c / D)%N).
  assert (E1 : (D * T <? 2 * (r * T))%N = (D <? 2 * r)%N).
  { clearbody D T r.
    destruct (N.ltb_spec (D * T) (2 * (r * T))), (N.ltb_spec D (2 * r));
      try reflexivity; nia. }
  assert (E2 : (D * T =? 2 * (r * T))%N = (D =? 2 * r)%N).
  { clearbody D T r.
    destruct (N.eqb_spec (D * T) (2 * (r * T))), (N.eqb_spec D (2 * r));
      try reflexivity; nia. }
  rewrite E1, E2. reflexivity.
Qed.

Lemma spec_round_half_even_exact k d :
  0 <= d -> spec_round_half_even (k * pow10 d) d = k.
Proof.
  intros Hd. unfold spec_round_half_even. cbv zeta.
  pose proof (pow10_pos d) as HD.
  rewrite N.div_mul, N.Div0.mod_mul by lia.
  destruct (N.ltb_spec (pow10 d) (2 * 0)); [lia|].
  destruct (N.eqb_spec (pow10 d) (2 * 0)); [lia|]. reflexivity.
Qed.

Lemma spec_round_half_even_near c d :
  (c / pow10 d <= spec_round_half_even c d)%N
  /\ (spec_round_half_even c d * pow10 d <= c + pow10 d)%N
  /\ (c mod pow10 d = 0 -> spec_round_half_even c d = c / pow10 d)%N.
Proof.
  unfold spec_round_half_even. cbv zeta.
  pose proof (pow10_pos d) as HD.
  pose proof (N.div_mod c (pow10 d) ltac:(lia)) as Hdm.
  pose proof (N.mod_lt c (pow10 d) ltac:(lia)) as Hr.
  set (D := pow10 d) in *. set (r := (c mod D)%N) in *.
  set (q := (c / D)%N) in *. clearbody D r q.
  destruct (N.ltb_spec D (2 * r)); cbn [orb].
  - split; [lia|]. split; [nia|]. intros Hz. lia.
  - destruct (N.eqb_spec D (2 * r)); cbn [andb].
    + destruct (N.odd q); (split; [lia|]); (split; [nia|]);
        intros Hz; lia.
    + split; [lia|]. split; [nia|]. intros Hz. lia.
Qed.

Lemma spec_round_half_even_mono a b d :
  (a <= b)%N -> (spec_round_half_even a d <= spec_round_half_even b d)%N.
Proof.
  intros Hab. unfold spec_round_half_even. cbv zeta.
  pose proof (pow10_pos d) as HD.
  pose proof (N.div_mod a (pow10 d) ltac:(lia)) as Ha.
  pose proof (N.mod_lt a (pow10 d) ltac:(lia)) as Hra.
  pose proof (N.div_mod b (pow10 d) ltac:(lia)) as Hb.
  pose proof (N.mod_lt b (pow10 d) ltac:(lia)) as Hrb.
  set (D := pow10 d) in *.
  set (ra := (a mod D)%N) in *. set (qa := (a / D)%N) in *.
  set (rb := (b mod D)%N) in *. set (qb := (b / D)%N) in *.
  assert (Hq : (qa < qb \/ (qa = qb /\ ra <= rb))%N).
  { clearbody D ra qa rb qb.
    destruct (N.lt_trichotomy qa qb) as [Hlt|[Heq|Hgt]].
    - left. assumption.
    - right. subst qa. split; [reflexivity|lia].
    - exfalso. assert (D * (qb + 1) <= D * qa)%N by (apply N.mul_le_mono_l; lia).
      lia. }
  clearbody D ra qa rb qb.
  destruct Hq as [Hq|[-> Hr]].
  - destruct (_ || _), (_ || _); lia.
  - destruct (N.ltb_spec D (2 * ra)) as [Ha'|Ha'],
             (N.ltb_spec D (2 * rb)) as [Hb'|Hb']; cbn [orb].
    + lia.
    + exfalso. lia.
    + destruct ((D =? 2 * ra) && N.odd qb)%N; lia.
    + destruct (N.eqb_spec D (2 * ra)), (N.eqb_spec D (2 * rb));
        cbn [andb].
      * destruct (N.odd qb); lia.
      * exfalso. lia.
      * destruct (N.odd qb); lia.
      * lia.
Qed.

(** The value of the rounding to 28 digits, counted in units of [10^m]:
    the value counted in units of the last digit kept, [10^g], rounded
    half-even, whether or not the coefficient had to be cut. *)
Lemma spec_round_context_value c e c' e' m :
  c <> 0%N ->
  spec_round_context c e = (c', e') ->
  m <= e -> m <= ndigits c + e - prec ->
  e <= e'
  /\ (c' * pow10 (e' - m)
      = spec_round_half_even (c * pow10 (e - m)) (ndigits c + e - prec - m)
        * pow10 (ndigits c + e - prec - m))%N.
Proof.
  intros Hc Hctx Hm Hg. unfold spec_round_context in Hctx.
  set (g := ndigits c + e - prec) in *.
  destruct (Z.leb_spec (ndigits c) prec) as [Hfit|Hlong].
  - inversion Hctx; subst c' e'. split; [lia|].
    replace (e - m) with ((e - g) + (g - m)) by lia.
    rewrite pow10_add by (unfold g; lia).
    rewrite N.mul_assoc, spec_round_half_even_exact by lia. reflexivity.
  - set (d := ndigits c - prec) in *.
    assert (Hd : 1 <= d) by (unfold d; lia).
    assert (Hs : spec_round_half_even (c * pow10 (e - m)) (g - m)
                 = spec_round_half_even c d).
    { replace (g - m) with (d + (e - m)) by (unfold g, d; lia).
      apply spec_round_half_even_scale; lia. }
    rewrite Hs.
    destruct (N.eqb_spec (spec_round_half_even c d) (pow10 prec))
      as [Heq|Hne]; inversion Hctx; subst c' e'; (split; [lia|]).
    + rewrite Heq.
      replace (e + d + 1 - m) with (1 + (g - m)) by (unfold g, d; lia).
      rewrite pow10_add by lia. rewrite N.mul_assoc. reflexivity.
    + replace (e + d - m) with (g - m) by (unfold g, d; lia). reflexivity.
Qed.

(** A coefficient counted in units of [10^m] lies between the powers of
    ten its number of digits says. *)
Lemma scaled_range c e m :
  c <> 0%N -> m <= e ->
  (pow10 (ndigits c + e - 1 - m) <= c * pow10 (e - m)
   < pow10 (ndigits c + e - m))%N.
Proof.
  intros Hc Hm. destruct (ndigits_spec c) as [H1 [Hup Hlow]].
  specialize (Hlow Hc). pose proof (pow10_pos (e - m)) as HT.
  replace (ndigits c + e - 1 - m) with ((ndigits c - 1) + (e - m)) by lia.
  replace (ndigits c + e - m) with (ndigits c + (e - m)) by lia.
  rewrite !pow10_add by lia. split; nia.
Qed.

(** The rounding to 28 digits keeps the order of the values. *)
Lemma spec_round_context_mono c1 e1 c2 e2 c1' e1' c2' e2' m :
  spec_round_context c1 e1 = (c1', e1') ->
  spec_round_context c2 e2 = (c2', e2') ->
  m <= e1 -> m <= e2 ->
  m <= ndigits c1 + e1 - prec -> m <= ndigits c2 + e2 - prec ->
  (c1 * pow10 (e1 - m) <= c2 * pow10 (e2 - m))%N ->
  m <= e1' /\ m <= e2'
  /\ (c1' * pow10 (e1' - m) <= c2' * pow10 (e2' - m))%N.
Proof.
  intros H1 H2 Hm1 Hm2 Hg1 Hg2 Hle.
  destruct (N.eq_dec c1 0) as [->|Hc1].
  { unfold spec_round_context in H1. rewrite ndigits_0 in H1.
    change (1 <=? prec) with true in H1. inversion H1; subst.
    assert (e2 <= e2').
    { destruct (spec_round_context_error c2 e2 c2' e2' H2). assumption. }
    repeat split; lia. }
  destruct (N.eq_dec c2 0) as [->|Hc2].
  { exfalso. pose proof (pow10_pos (e1 - m)). nia. }
  destruct (spec_round_context_value c1 e1 c1' e1' m Hc1 H1 Hm1 Hg1)
    as [He1 V1].
  destruct (spec_round_context_value c2 e2 c2' e2' m Hc2 H2 Hm2 Hg2)
    as [He2 V2].
  split; [lia|]. split; [lia|]. rewrite V1, V2.
  pose proof (scaled_range c1 e1 m Hc1 Hm1) as [L1 U1].
  pose proof (scaled_range c2 e2 m Hc2 Hm2) as [L2 U2].
  set (g1 := ndigits c1 + e1 - prec) in *.
  set (g2 := ndigits c2 + e2 - prec) in *.
  set (X1 := (c1 * pow10 (e1 - m))%N) in *.
  set (X2 := (c2 * pow10 (e2 - m))%N) in *.
  replace (ndigits c1 + e1 - 1 - m) with ((prec - 1) + (g1 - m)) in L1
    by (unfold g1; lia).
  replace (ndigits c1 + e1 - m) with (prec + (g1 - m)) in U1
    by (unfold g1; lia).
  replace (ndigits c2 + e2 - 1 - m) with ((prec - 1) + (g2 - m)) in L2
    by (unfold g2; lia).
  replace (ndigits c2 + e2 - m) with (prec + (g2 - m)) in U2
    by (unfold g2; lia).
  rewrite !pow10_add in L1, U1, L2, U2 by (unfold prec; lia).
  assert (Hp : pow10 prec = (10 * pow10 (prec - 1))%N)
    by (vm_compute; reflexivity).
  pose proof (pow10_pos (prec - 1)) as HP.
  pose proof (pow10_pos (g1 - m)) as HG1.
  pose proof (pow10_pos (g2 - m)) as HG2.
  destruct (Z.lt_trichotomy g1 g2) as [Hlt|[Heq|Hgt]].
  - (* a lower magnitude *)
    assert (HG : (10 * pow10 (g1 - m) <= pow10 (g2 - m))%N).
    { replace (g2 - m) with ((g2 - g1 - 1) + ((g1 - m) + 1)) by lia.
      rewrite pow10_add, pow10_succ by lia.
      pose proof (pow10_pos (g2 - g1 - 1)). nia. }
    destruct (spec_round_half_even_near X1 (g1 - m)) as [_ [Hup1 _]].
    destruct (spec_round_half_even_near X2 (g2 - m)) as [Hlow2 _].
    assert (Hq2 : (pow10 (prec - 1) <= X2 / pow10 (g2 - m))%N).
    { apply N.div_le_lower_bound; lia. }
    assert (Hq1 : (spec_round_half_even X1 (g1 - m) <= pow10 prec)%N).
    { destruct (spec_round_half_even_near X1 (g1 - m)) as [_ [Hu _]].
      assert (Hx : (X1 / pow10 (g1 - m) < pow10 prec)%N).
      { apply N.Div0.div_lt_upper_bound. lia. }
      unfold spec_round_half_even in *. cbv zeta in *.
      destruct (_ || _); lia. }
    set (r1 := spec_round_half_even X1 (g1 - m)) in *.
    set (r2 := spec_round_half_even X2 (g2 - m)) in *.
    set (G1 := pow10 (g1 - m)) in *. set (G2 := pow10 (g2 - m)) in *.
    set (P := pow10 (prec - 1)) in *.
    clearbody r1 r2 G1 G2 P X1 X2. nia.
  - (* the same magnitude *)
    rewrite <- Heq.
    apply N.mul_le_mono_r. apply spec_round_half_even_mono. assumption.
  - (* impossible *)
    exfalso.
    assert (HG : (10 * pow10 (g2 - m) <= pow10 (g1 - m))%N).
    { replace (g1 - m) with ((g1 - g2 - 1) + ((g2 - m) + 1)) by lia.
      rewrite pow10_add, pow10_succ by lia.
      pose proof (pow10_pos (g1 - g2 - 1)). nia. }
    set (G1 := pow10 (g1 - m)) in *. set (G2 := pow10 (g2 - m)) in *.
    set (P := pow10 (prec - 1)) in *.
    clearbody G1 G2 P X1 X2. nia.
Qed.

(** Rounding to cents, on a value counted in units of [10^m]. *)
Lemma spec_round_half_up_cents_scaled c e m :
  m <= e -> m <= -2 ->
  spec_round_half_up_cents c e
  = ((2 * (c * pow10 (e - m)) + pow10 (-2 - m)) / (2 * pow10 (-2 - m)))%N.
Proof.
  intros Hm H2. unfold spec_round_half_up_cents.
  pose proof (pow10_pos (-2 - m)) as HD.
  destruct (Z.leb_spec (-2) e) as [Hge|Hlt].
  - replace (e - m) with ((e + 2) + (-2 - m)) by lia.
    rewrite (pow10_add (e + 2) (-2 - m)) by lia.
    set (P := pow10 (e + 2)). set (D := pow10 (-2 - m)) in *.
    apply (N.div_unique _ _ _ D); [lia|]. clearbody P D. nia.
  - replace (-2 - m) with ((-2 - e) + (e - m)) by lia.
    rewrite (pow10_add (-2 - e) (e - m)) by lia.
    pose proof (pow10_pos (-2 - e)) as HK. pose proof (pow10_pos (e - m)) as HT.
    set (K := pow10 (-2 - e)) in *. set (T := pow10 (e - m)) in *.
    replace (2 * (c * T) + K * T)%N with ((2 * c + K) * T)%N by lia.
    replace (2 * (K * T))%N with ((2 * K) * T)%N by lia.
    rewrite N.Div0.div_mul_cancel_r by lia. reflexivity.
Qed.

(** [_fix] in and above the normal range does not lower the magnitude. *)
Lemma fix_magnitude s c e c' e' :
  fix_ (Fin s c e) = Ok (Fin s c' e') ->
  c <> 0%N ->
  Etiny <= ndigits c + e - prec ->
  c' <> 0%N /\ ndigits c + e <= ndigits c' + e'.
Proof.
  intros H Hc Hlo. unfold fix_ in H.
  apply N.eqb_neq in Hc. rewrite Hc in H. apply N.eqb_neq in Hc.
  cbv zeta in H.
  destruct (ndigits c + e - prec >? Etop); [discriminate|].
  destruct (Z.ltb_spec (ndigits c + e - prec) Etiny) as [|_]; [lia|].
  destruct (Z.ltb_spec e (ndigits c + e - prec)) as [Hlong|Hfit].
  2:{ inversion H; subst. split; [assumption|lia]. }
  replace (ndigits c + e - (ndigits c + e - prec)) with prec in H by lia.
  change (prec <? 0) with false in H. cbv iota in H.
  replace (ndigits c + e - prec - e) with (ndigits c - prec) in H by lia.
  pose proof (leading_digits c ltac:(lia)) as [Hq1 Hq2].
  set (q := (c / pow10 (ndigits c - prec))%N) in *.
  assert (Hq : ndigits q = prec).
  { apply Z.le_antisymm.
    - apply ndigits_le; [unfold prec; lia|assumption].
    - apply ndigits_ge. assumption. }
  pose proof (pow10_pos (prec - 1)) as HP.
  destruct (round_half_even c (ndigits c - prec) >? 0).
  - destruct (Z.gtb_spec (ndigits (q + 1)) prec) as [Hbig|Hsame].
    + destruct (_ >? Etop); [discriminate|]. inversion H; subst.
      assert (Hten : (q + 1 = pow10 prec)%N).
      { apply N.le_antisymm; [lia|].
        destruct (N.le_gt_cases (pow10 prec) (q + 1)) as [|Hlt];
          [assumption|].
        pose proof (ndigits_le (q + 1) prec ltac:(unfold prec; lia) Hlt).
        lia. }
      rewrite Hten. change (pow10 prec / 10)%N with (pow10 (prec - 1)).
      change (ndigits (pow10 (prec - 1))) with prec.
      split; [lia|]. lia.
    + destruct (_ >? Etop); [discriminate|]. inversion H; subst.
      assert (prec <= ndigits (q + 1)).
      { apply ndigits_ge. lia. }
      split; [lia|]. lia.
  - destruct (_ >? Etop); [discriminate|]. inversion H; subst.
    split; [lia|]. lia.
Qed.

(** [quantize] to cents refuses what has 27 digits or more before the
    point. *)
Lemma quantize_cent_refuses s c e r :
  c <> 0%N -> 26 < ndigits c + e ->
  quantize (Fin s c e) cent r = Raise InvalidOperation.
Proof.
  intros Hc Hm. unfold quantize, cent. cbn [check_nans].
  change (negb ((Etiny <=? -2) && (-2 <=? Emax))) with false. cbv iota.
  apply N.eqb_neq in Hc. rewrite Hc.
  destruct (adjusted c e >? Emax); [reflexivity|].
  unfold adjusted.
  destruct (Z.gtb_spec (e + ndigits c - 1 - -2 + 1) prec) as [|H];
    [reflexivity|unfold prec in H; lia].
Qed.

(** A product that rounds to [10^26] or more makes [convert_currency]
    raise. *)
Lemma convert_currency_refuses s1 c1 e1 s2 c2 e2 c e :
  spec_round_context (c1 * c2) (e1 + e2) = (c, e) ->
  c <> 0%N -> 26 < ndigits c + e ->
  convert_currency (Fin s1 c1 e1) (Fin s2 c2 e2) = Raise InvalidOperation
  \/ convert_currency (Fin s1 c1 e1) (Fin s2 c2 e2) = Raise Overflow.
Proof.
  intros Hctx Hc Hm. unfold convert_currency, mul. cbn [check_nans sign_of].
  set (C := (c1 * c2)%N) in *. set (E := e1 + e2) in *.
  assert (HC : C <> 0%N).
  { intros HC. rewrite HC in Hctx. unfold spec_round_context in Hctx.
    rewrite ndigits_0 in Hctx. change (1 <=? prec) with true in Hctx.
    inversion Hctx. congruence. }
  pose proof (spec_round_context_bounds C E HC) as [_ [_ [_ Hup]]].
  rewrite Hctx in Hup. cbn [fst snd] in Hup.
  assert (Hlo : Etiny <= ndigits C + E - prec)
    by (unfold Etiny, Emin, prec; lia).
  destruct (fix_ (Fin (xorb s1 s2) C E)) as [p|ex] eqn:Hfix; cbn [rbind].
  - destruct (fix_sign _ _ _ _ Hfix) as [c' [e' ->]].
    left. destruct (Z.lt_ge_cases (ndigits C + E - prec) Etop) as [Hn|Hn].
    + rewrite (fix_context _ C E HC Hlo Hn), Hctx in Hfix.
      cbn [fst snd] in Hfix. inversion Hfix; subst.
      apply quantize_cent_refuses; assumption.
    + destruct (fix_magnitude _ C E c' e' Hfix HC Hlo) as [Hc' Hm'].
      apply quantize_cent_refuses; [assumption|].
      unfold Etop, Emax, prec in *. lia.
  - unfold fix_ in Hfix. apply N.eqb_neq in HC. rewrite HC in Hfix.
    right. f_equal.
    revert Hfix. cbv zeta.
    repeat match goal with
           | |- context [if ?b then _ else _] => destruct b
           end; intros Hfix; inversion Hfix; reflexivity.
Qed.

(** What [convert_currency] returns on finite operands, when it
    returns. *)
Lemma convert_currency_returns s1 c1 e1 s2 c2 e2 d :
  convert_currency (Fin s1 c1 e1) (Fin s2 c2 e2) = Ok d ->
  d = Fin (xorb s1 s2)
        (spec_round_half_up_cents
           (fst (spec_round_context (c1 * c2) (e1 + e2)))
           (snd (spec_round_context (c1 * c2) (e1 + e2)))) (-2).
Proof.
  intros H.
  destruct (spec_round_context (c1 * c2) (e1 + e2)) as [c e] eqn:Hctx.
  cbn [fst snd].
  destruct (N.eq_dec c 0) as [Hz|Hnz].
  - rewrite (convert_currency_spec s1 c1 e1 s2 c2 e2 c e Hctx (or_introl Hz))
      in H.
    inversion H. reflexivity.
  - destruct (Z.le_gt_cases (ndigits c + e) 26) as [Hm|Hm].
    + rewrite (convert_currency_spec s1 c1 e1 s2 c2 e2 c e Hctx
                 (or_intror Hm)) in H.
      inversion H. reflexivity.
    + destruct (convert_currency_refuses s1 c1 e1 s2 c2 e2 c e Hctx Hnz
                  ltac:(lia)) as [E|E]; rewrite E in H; discriminate.
Qed.

End OrderFacts.

(** ** The rate table, entry by entry *)

Section RateEntries.
Import Digits.
Local Open Scope Z_scope.

(** A raw rate that reads as a nonzero number counts as true. *)
Lemma raw_truthy_of_nonzero r s c e :
  Decimal_of_raw r = Ok (Fin s c e) -> c <> 0%N -> raw_truthy r = true.
Proof.
  destruct r as [|b|z|f|str]; cbn [Decimal_of_raw raw_truthy].
  - discriminate.
  - destruct b; [reflexivity|]. intros H. inversion H. congruence.
  - unfold of_int. intros H Hc. inversion H. subst.
    apply negb_true_iff, Z.eqb_neq. lia.
  - unfold of_float. intros H Hc. rewrite eqb_spec.
    destruct (Prim2SF f) as [s0|s0| |s0 m e0] eqn:E.
    + inversion H. congruence.
    + discriminate.
    + discriminate.
    + destruct s0; reflexivity.
  - destruct str as [|a str]; [discriminate|]. reflexivity.
Qed.

Lemma get_in {V} (k : string) (d : Dict.dict V) (v : V) :
  Dict.get k d = Some v -> In (k, v) d.
Proof.
  induction d as [|[k' v'] d IH]; simpl; [discriminate|].
  destruct (String.eqb_spec k k') as [->|_].
  - intros H. inversion H. left. reflexivity.
  - intros H. right. auto.
Qed.

Lemma rates_comprehension_later usd_rate (items : Snapshot) :
  forall (acc table : RateTable) k,
    rates_comprehension usd_rate items acc = Ok table ->
    ~ In k (Dict.keys items) ->
    Dict.get k table = Dict.get k acc.
Proof.
  induction items as [|[currency rate] rest IH]; intros acc table k H Hk.
  - inversion H. reflexivity.
  - cbn [rates_comprehension] in H. simpl in Hk.
    destruct (raw_truthy rate).
    + destruct (multiplier usd_rate rate) as [q|]; cbn [rbind] in H;
        [|discriminate].
      rewrite (IH _ _ k H) by tauto.
      apply get_set_other. intros ->. tauto.
    + apply (IH _ _ k H). tauto.
Qed.

Lemma rates_comprehension_entry usd_rate (items : Snapshot) :
  forall (acc table : RateTable) k rate,
    rates_comprehension usd_rate items acc = Ok table ->
    NoDup (Dict.keys items) ->
    Dict.get k items = Some rate ->
    raw_truthy rate = true ->
    exists q, multiplier usd_rate rate = Ok q /\ Dict.get k table = Some q.
Proof.
  induction items as [|[currency r] rest IH];
    intros acc table k rate H Hnd Hget Ht.
  - discriminate.
  - cbn [rates_comprehension] in H. simpl in Hnd, Hget.
    inversion Hnd as [|? ? Hnotin Hnd']; subst.
    destruct (String.eqb_spec k currency) as [->|Hne].
    + inversion Hget; subst r. rewrite Ht in H.
      destruct (multiplier usd_rate rate) as [q|]; cbn [rbind] in H;
        [|discriminate].
      exists q. split; [reflexivity|].
      rewrite (rates_comprehension_later _ _ _ _ currency H Hnotin).
      apply get_set_same.
    + destruct (raw_truthy r).
      * destruct (multiplier usd_rate r) as [q|]; cbn [rbind] in H;
          [|discriminate].
        eapply IH; eauto.
      * eapply IH; eauto.
Qed.

(** What a successful fetch has computed. *)
Lemma fetch_exchange_rates_ok w t table t' :
  fetch_exchange_rates w t = (Ok table, t') ->
  exists data usd_rate,
    requests_get w t = Ok data
    /\ Dict.get "USD" (match data with Some r => r | None => [] end)
       = Some usd_rate
    /\ usd_rate <> RNull
    /\ rates_comprehension usd_rate
         (match data with Some r => r | None => [] end) [] = Ok table
    /\ t' = t ++ [EvHttpGet].
Proof.
  unfold fetch_exchange_rates, try_except, bind, call.
  destruct (requests_get w t) as [data|e]; [|discriminate].
  set (rates := match data with Some r => r | None => [] end).
  destruct (Dict.get "USD" rates) as [usd_rate|] eqn:Husd; [|discriminate].
  intros H. exists data, usd_rate.
  destruct usd_rate; try discriminate; unfold lift in H;
    match type of H with
    | context [rates_comprehension ?u ?r ?a] =>
        destruct (rates_comprehension u r a) eqn:E; [|discriminate]
    end;
    inversion H; subst; repeat split; auto; discriminate.
Qed.

End RateEntries.

(** ** The batch processor, row by row *)

Section BatchFacts.

Lemma process_row_ok w rates row acc t out t' :
  process_row w rates row acc t = (Ok out, t') ->
  if has_both row
  then exists o,
         out = acc ++ [o] /\ t' = t ++ [EvUtcNow]
         /\ row_outcome rates (utcnow_isoformat w t) row o
  else out = acc /\ t' = t.
Proof.
  unfold process_row, has_both.
  destruct (Dict.mem "price" row && Dict.mem "currency" row) eqn:G.
  2:{ intros H. inversion H. auto. }
  unfold bind, lift, Dict.getitem, call, ret.
  destruct (Dict.get "price" row) as [p|] eqn:Hp; [|discriminate].
  destruct (Decimal_of_value p) as [price|] eqn:Hv; [|discriminate].
  destruct (Dict.get "currency" row) as [cur|] eqn:Hc; [|discriminate].
  destruct (lookup_rate cur rates) as [rate|] eqn:Hr.
  - destruct (convert_currency price rate) as [conv|] eqn:Hconv;
      [|discriminate].
    intros H. inversion H. eexists. split; [reflexivity|].
    split; [reflexivity|]. eapply Converted; eauto.
  - intros H. inversion H. eexists. split; [reflexivity|].
    split; [reflexivity|]. eapply Passed_through; eauto.
Qed.

Lemma repeat_snoc {A} (a : A) n : a :: repeat a n = repeat a n ++ [a].
Proof. induction n as [|n IH]; simpl; [reflexivity|]. rewrite <- IH. reflexivity. Qed.

Lemma process_loop_ok w rates (rows : list Row) :
  forall (acc : list Row) t out t',
    for_each rows (process_row w rates) acc t = (Ok out, t') ->
    exists new,
      out = acc ++ new
      /\ t' = t ++ repeat EvUtcNow (List.length new)
      /\ stamped_in_turn w rates t (filter has_both rows) new.
Proof.
  induction rows as [|row rows IH]; intros acc t out t' H.
  - inversion H. exists []. rewrite !app_nil_r. repeat split. constructor.
  - cbn [for_each] in H. unfold bind in H.
    destruct (process_row w rates row acc t) as [[acc1|e] t1] eqn:E;
      [|discriminate].
    apply process_row_ok in E. cbn [filter].
    destruct (has_both row).
    + destruct E as [o [-> [-> Ho]]].
      destruct (IH _ _ _ _ H) as [new [-> [-> Hnew]]].
      exists (o :: new). rewrite <- !app_assoc. repeat split.
      constructor; assumption.
    + destruct E as [-> ->]. exact (IH _ _ _ _ H).
Qed.

Lemma process_csv_data_ok w rates (rows : list Row) t out t' :
  process_csv_data w rows rates t = (Ok out, t') ->
  t' = t ++ repeat EvUtcNow (List.length out)
  /\ stamped_in_turn w rates t (filter has_both rows) out.
Proof.
  intros H. destruct (process_loop_ok w rates rows [] t out t' H)
    as [new [-> [-> Hnew]]].
  auto.
Qed.

Lemma keys_set_absent {V} (k : string) (v : V) (d : Dict.dict V) :
  Dict.mem k d = false -> Dict.keys (Dict.set k v d) = Dict.keys d ++ [k].
Proof.
  unfold Dict.mem. induction d as [|[k' v'] d IH]; simpl; [reflexivity|].
  destruct (String.eqb k k') eqn:E; [discriminate|].
  intros H. simpl. rewrite IH by assumption. reflexivity.
Qed.

Lemma mem_keys {V} (k : string) (d : Dict.dict V) :
  Dict.mem k d = existsb (String.eqb k) (Dict.keys d).
Proof.
  unfold Dict.mem. induction d as [|[k' v'] d IH]; simpl; [reflexivity|].
  destruct (String.eqb k k'); [reflexivity|exact IH].
Qed.

Lemma keys_stamp now (row : Row) :
  Dict.keys (Dict.set "creationDate" (VStr now) row)
  = archive_header (Dict.keys row).
Proof.
  unfold archive_header. rewrite <- mem_keys.
  destruct (Dict.mem "creationDate" row) eqn:E.
  - apply keys_set_present. assumption.
  - apply keys_set_absent. assumption.
Qed.

(** What an outcome keeps of its row. *)
Lemma row_outcome_fields rates now row out :
  row_outcome rates now row out ->
  (forall k, k <> "price" -> k <> "currency" -> k <> "creationDate" ->
             Dict.get k out = Dict.get k row)
  /\ Dict.keys out = archive_header (Dict.keys row)
  /\ Dict.get "creationDate" out = Some (VStr now)
  /\ Dict.mem "price" out = true
  /\ Dict.mem "currency" out = true.
Proof.
  intros [p cur price Hp Hv Hc Hr|p cur price rate conv Hp Hv Hc Hr Hconv].
  - split; [|split; [|split; [|split]]].
    + intros k _ _ Hk. apply get_set_other. congruence.
    + apply keys_stamp.
    + apply get_set_same.
    + rewrite mem_set_other by discriminate. eapply mem_get; eassumption.
    + rewrite mem_set_other by discriminate. eapply mem_get; eassumption.
  - split; [|split; [|split; [|split]]].
    + intros k H1 H2 H3. rewrite !get_set_other by congruence. reflexivity.
    + rewrite keys_stamp. f_equal.
      rewrite keys_set_present.
      * apply keys_set_present. eapply mem_get; eassumption.
      * rewrite mem_set_other by discriminate. eapply mem_get; eassumption.
    + apply get_set_same.
    + rewrite !mem_set_other by discriminate. unfold Dict.mem.
      rewrite get_set_same. reflexivity.
    + rewrite mem_set_other by discriminate. unfold Dict.mem.
      rewrite get_set_same. reflexivity.
Qed.

(** The currency of an outcome: the reference currency, or one the table
    does not know. *)
Lemma row_outcome_currency rates now row out :
  row_outcome rates now row out ->
  Dict.get "currency" out = Some (VStr "USD")
  \/ exists cur,
       Dict.get "currency" out = Some cur /\ lookup_rate cur rates = None.
Proof.
  intros [p cur price Hp Hv Hc Hr|p cur price rate conv Hp Hv Hc Hr Hconv].
  - right. exists cur. rewrite get_set_other by discriminate. auto.
  - left. rewrite get_set_other by discriminate. apply get_set_same.
Qed.

Lemma stamped_in_turn_Forall2 w rates (P : Row -> Row -> Prop) :
  (forall now row out, row_outcome rates now row out -> P row out) ->
  forall t rows outs,
    stamped_in_turn w rates t rows outs -> Forall2 P rows outs.
Proof.
  intros HP t rows outs H. induction H; constructor; eauto.
Qed.

Lemma stamped_in_turn_nth w rates t rows outs :
  stamped_in_turn w rates t rows outs ->
  forall i out,
    nth_error outs i = Some out ->
    exists row,
      nth_error rows i = Some row
      /\ row_outcome rates (utcnow_isoformat w (t ++ repeat EvUtcNow i))
           row out.
Proof.
  induction 1 as [t|t row out rows outs Ho _ IH]; intros i o Hi.
  - destruct i; discriminate.
  - destruct i as [|i]; simpl in Hi.
    + inversion Hi; subst. exists row. rewrite app_nil_r. auto.
    + destruct (IH i o Hi) as [r [Hr Hout]]. exists r. split; [exact Hr|].
      rewrite <- app_assoc in Hout. exact Hout.
Qed.

(** The table writer on records that all have a [creationDate]. *)
Lemma upload_to_dynamodb_spec w (items : list Row) t :
  Forall (fun item => Dict.mem "creationDate" item = true) items ->
  exists new,
    upload_to_dynamodb w items t
    = (match batch_flush w (t ++ new) with
       | Ok _ => Ok (map as_stored items)
       | Raise e => Raise e
       end, t ++ new ++ [EvBatchFlush])
    /\ items_put new
       = filter (fun item => Dict.mem "zpid" item) (map as_stored items)
    /\ ~ In EvBatchFlush new
    /\ Forall table_event new.
Proof.
  intros Hall.
  assert (Hloop : forall (items done : list Row) h,
             Forall (fun item => Dict.mem "creationDate" item = true) items ->
             exists new,
               for_each items
                 (fun item done =>
                    item <- upload_item w item ;; ret (done ++ [item]))
                 done h
               = (Ok (done ++ map as_stored items), h ++ new)
               /\ items_put new
                  = filter (fun item => Dict.mem "zpid" item)
                      (map as_stored items)
               /\ ~ In EvBatchFlush new
               /\ Forall table_event new).
  { clear items Hall t.
    intros items. induction items as [|item items IH]; intros done h Hi.
    - exists []. rewrite !app_nil_r. simpl. auto.
    - inversion Hi as [|? ? Hc Hi']; subst.
      destruct (upload_item_spec w item h Hc) as [n1 [E1 [P1 L1]]].
      destruct (emits_upload_item w item h) as [n1' [E1' F1]].
      rewrite E1 in E1'. simpl in E1'. apply app_inv_head in E1'.
      subst n1'.
      assert (Hn1 : ~ In EvBatchFlush n1).
      { revert E1. clear. unfold upload_item, Dict.mem in *.
        destruct (Dict.get "zpid" item) as [z|].
        - destruct (Dict.get "creationDate" _) as [c|];
            unfold bind, try_except, call, print, ret.
          + destruct (batch_put_item w h _); intros E;
              apply (f_equal snd) in E; cbn [snd] in E;
              rewrite <- ?app_assoc in E; apply app_inv_head in E;
              subst n1; simpl; intuition discriminate.
          + intros E. apply (f_equal snd) in E; cbn [snd] in E.
            apply app_inv_head in E. subst n1. simpl.
            intuition discriminate.
        - unfold bind, print, ret. intros E.
          apply (f_equal snd) in E; cbn [snd] in E.
          apply app_inv_head in E. subst n1. simpl. intuition discriminate. }
      cbn [for_each]. unfold bind at 1. unfold bind at 1. rewrite E1.
      unfold ret at 1.
      destruct (IH (done ++ [as_stored item]) (h ++ n1) Hi')
        as [n2 [E2 [P2 [L2 F2]]]].
      exists (n1 ++ n2). rewrite E2, <- !app_assoc. split; [reflexivity|].
      split; [|split].
      + rewrite items_put_app, P1, P2. cbn [map filter].
        rewrite mem_as_stored. destruct (Dict.mem "zpid" item); reflexivity.
      + intros Hin. apply in_app_or in Hin. tauto.
      + apply Forall_app. auto. }
  destruct (Hloop items [] t Hall) as [new [E [P [L F]]]].
  exists new. split; [|auto].
  unfold upload_to_dynamodb. unfold bind at 1. rewrite E.
  unfold bind, call, ret. simpl. rewrite <- app_assoc.
  destruct (batch_flush w (t ++ new)) as [[]|e]; reflexivity.
Qed.

(** The archive writer on records that all have the keys [header]: the
    one write, and the error printed when the store refuses it. *)
Lemma write_rectangular w bucket key (first : Row) (rest : list Row)
    (header : list string) t :
  Forall (fun item => Dict.keys item = header) (first :: rest) ->
  write_processed_csv_to_s3 w bucket key (first :: rest) t
  = (Ok tt,
     t ++ EvPutObject bucket key header
            (map (archive_line header) (first :: rest))
       :: match s3_put_object w t bucket key header
                  (map (archive_line header) (first :: rest)) with
          | Ok _ => []
          | Raise e => [EvPrint (Error_writing_processed_file bucket key e)]
          end).
Proof.
  intros Hk. inversion Hk as [|? ? Hfirst _]; subst.
  assert (W : writerows (Dict.keys first) (first :: rest)
              = Ok (map (archive_line (Dict.keys first)) (first :: rest))).
  { apply writerows_defined. eapply Forall_impl; [|exact Hk].
    intros item ->. apply incl_refl. }
  unfold write_processed_csv_to_s3, try_except, bind, lift, call, print.
  rewrite W. destruct (s3_put_object w t _ _ _ _) as [[]|e].
  - reflexivity.
  - rewrite <- app_assoc. reflexivity.
Qed.

Lemma writerows_refused (header : list string) (rows : list Row) :
  Exists (fun row => ~ incl (Dict.keys row) header) rows ->
  writerows header rows
  = Raise (ValueError "dict contains fields not in fieldnames").
Proof.
  assert (Hrow : forall row,
             ~ incl (Dict.keys row) header ->
             dict_to_list header row
             = Raise (ValueError "dict contains fields not in fieldnames")).
  { intros row Hn. unfold dict_to_list.
    destruct (forallb _ _) eqn:E; [|reflexivity].
    exfalso. apply Hn. intros k Hk.
    rewrite forallb_forall in E. specialize (E k Hk).
    apply existsb_exists in E. destruct E as [k' [Hin Heq]].
    apply String.eqb_eq in Heq. subst k'. assumption. }
  induction 1 as [row rows Hn|row rows _ IH]; cbn [writerows].
  - rewrite (Hrow row Hn). reflexivity.
  - unfold dict_to_list. destruct (forallb _ _); [|reflexivity].
    cbn [rbind]. rewrite IH. reflexivity.
Qed.

Lemma stamped_in_turn_keys w rates t rows outs header :
  stamped_in_turn w rates t rows outs ->
  Forall (fun row => Dict.keys row = header) rows ->
  Forall (fun o => Dict.keys o = archive_header header) outs.
Proof.
  induction 1 as [t|t row out rows outs Ho _ IH]; intros Hk;
    [constructor|].
  inversion Hk as [|? ? Hrow Hrows]; subst. constructor; [|auto].
  apply (row_outcome_fields rates _ row out Ho).
Qed.

Lemma Forall_filter {A} (P : A -> Prop) (f : A -> bool) l :
  Forall P l -> Forall P (filter f l).
Proof.
  intros H. apply Forall_forall. intros x Hx. apply filter_In in Hx.
  rewrite Forall_forall in H. apply H. tauto.
Qed.

Lemma stamped_in_turn_fields w rates t rows outs :
  stamped_in_turn w rates t rows outs ->
  Forall (fun o => Dict.mem "price" o = true
                   /\ Dict.mem "currency" o = true
                   /\ Dict.mem "creationDate" o = true) outs.
Proof.
  induction 1 as [t|t row out rows outs Ho _ IH]; constructor; [|exact IH].
  destruct (row_outcome_fields rates _ row out Ho) as [_ [_ [Hd [Hp Hc]]]].
  repeat split; try assumption. eapply mem_get; eassumption.
Qed.

Lemma process_loop_skips w rates (rows : list Row) (acc : list Row) t :
  Forall (fun row => has_both row = false) rows ->
  for_each rows (process_row w rates) acc t = (Ok acc, t).
Proof.
  induction 1 as [|row rows Hrow _ IH]; [reflexivity|].
  cbn [for_each]. unfold bind.
  rewrite (process_row_skips w rates row acc).
  - exact IH.
  - unfold has_both in Hrow. apply andb_false_iff in Hrow. exact Hrow.
Qed.

End BatchFacts.

(** ** The handler's effects, and the event *)

Section HandlerFacts.

Lemma emits_for_each_in {A S} P (xs : list A) (body : A -> S -> M S) s :
  (forall x s, In x xs -> emits P (body x s)) ->
  emits P (for_each xs body s).
Proof.
  revert s. induction xs as [|x xs IH]; intros s Hb; simpl.
  - apply emits_ret.
  - apply emits_bind.
    + apply Hb. left. reflexivity.
    + intros a. apply IH. intros y s' Hy. apply Hb. right. assumption.
Qed.

Lemma emits_handle_record w pb rates record u :
  emits (file_event pb record) (handle_record w pb rates record u).
Proof.
  unfold handle_record. apply emits_try_except.
  - unfold process_file. apply emits_bind.
    + unfold read_csv_from_s3. apply emits_try_except.
      * apply emits_call. simpl. auto.
      * intros e. apply emits_bind; [|intros; apply emits_raise].
        apply emits_print. exact I.
    + intros rows. apply emits_bind.
      * eapply emits_weaken; [|apply emits_process_csv_data].
        intros ev ->. exact I.
      * intros out. apply emits_bind.
        -- eapply emits_weaken; [|apply emits_upload_to_dynamodb].
           intros [] Hev; simpl in *; auto; contradiction.
        -- intros items. unfold write_processed_csv_to_s3.
           apply emits_try_except.
           ++ apply emits_bind; [auto with emits|intros].
              apply emits_bind; [auto with emits|intros].
              apply emits_call. simpl. auto.
           ++ intros e. apply emits_print. exact I.
  - intros e. apply emits_print. exact I.
Qed.

(** The two ways [fetch_exchange_rates] can end. *)
Lemma fetch_exchange_rates_cases w t :
  (exists table, fetch_exchange_rates w t = (Ok table, t ++ [EvHttpGet]))
  \/ (exists e,
        fetch_exchange_rates w t
        = (Raise e,
           t ++ [EvHttpGet; EvPrint (Error_fetching_exchange_rates e)])).
Proof.
  unfold fetch_exchange_rates, try_except, bind, call, print, raise, lift.
  destruct (requests_get w t) as [data|e].
  - destruct (Dict.get "USD" _) as [[|b|z|f|s]|];
      try (right; eexists; rewrite <- app_assoc; reflexivity);
      match goal with
      | |- context [rates_comprehension ?u ?r ?a] =>
          destruct (rates_comprehension u r a) as [table|e]
      end;
      solve [ left; eexists; reflexivity
            | right; eexists; rewrite <- app_assoc; reflexivity ].
  - right. exists e. rewrite <- app_assoc. reflexivity.
Qed.

Lemma raw_handle_record w pb rates (raw : RawRecord) (r : FileRef) u t :
  names raw r ->
  Invocation.handle_record w pb rates raw u t
  = handle_record w pb rates r u t.
Proof.
  intros [Hb Hk]. unfold Invocation.handle_record, handle_record.
  unfold bind at 1. unfold lift at 1. rewrite Hb.
  unfold bind at 1. unfold lift at 1. rewrite Hk. reflexivity.
Qed.

Lemma raw_loop w pb rates (records : list RawRecord) (refs : list FileRef) :
  Forall2 names records refs ->
  forall t,
    for_each records (Invocation.handle_record w pb rates) tt t
    = for_each refs (handle_record w pb rates) tt t.
Proof.
  induction 1 as [|raw r records refs Hn _ IH]; intros t; [reflexivity|].
  cbn [for_each]. unfold bind.
  rewrite (raw_handle_record w pb rates raw r tt t Hn).
  destruct (handle_record w pb rates r tt t) as [[[]|e] t']; [|reflexivity].
  apply IH.
Qed.

Lemma path_raises a b c (record : RawRecord) e :
  Invocation.path a b c record = Raise e ->
  e = KeyError a \/ e = KeyError b \/ e = KeyError c.
Proof.
  unfold Invocation.path, Dict.getitem.
  destruct (Dict.get a record) as [x|]; cbn [rbind].
  - destruct (Dict.get b x) as [y|]; cbn [rbind].
    + destruct (Dict.get c y); intros H; inversion H. auto.
    + intros H; inversion H. auto.
  - intros H; inversion H. auto.
Qed.

End HandlerFacts.

(** * The properties *)

(** ** The conversion of a row *)

Section Conversion.
Local Open Scope Z_scope.
Local Open Scope N_scope.

(** C1 (amended). For a row with a [price] field that reads as a finite
    decimal and a [currency] field that is a key of the rate table with a
    finite multiplier, let P be the product of price and multiplier as the
    decimal context holds it: the exact product when that has at most 28
    significant digits, and otherwise the product rounded half-even to 28
    significant digits.  When P is below [10^26] in magnitude, the output
    row has [price] equal to the string form of P rounded half-up to 2
    fractional digits, [currency] equal to [USD], a [creationDate], and its
    other fields as they were. *)
Theorem convertible_row_is_normalized :
  forall (w : World) (rates : RateTable) (row : Row) (acc : list Row)
         (t : Trace) (p cur : Value)
         (s1 s2 : bool) (c1 c2 c : N) (e1 e2 e : Z),
    Dict.get "price" row = Some p ->
    Decimal_of_value p = Ok (Fin s1 c1 e1) ->
    Dict.get "currency" row = Some cur ->
    lookup_rate cur rates = Some (Fin s2 c2 e2) ->
    spec_round_context (c1 * c2) (e1 + e2) = (c, e) ->
    c = 0 \/ (Digits.ndigits c + e <= 26)%Z ->
    ((Digits.ndigits (c1 * c2) <= prec)%Z -> c = c1 * c2 /\ e = (e1 + e2)%Z)
    /\ exists out,
      process_row w rates row acc t = (Ok (acc ++ [out]), t ++ [EvUtcNow])
      /\ process_csv_data w [row] rates t = (Ok [out], t ++ [EvUtcNow])
      /\ Dict.get "price" out
         = Some (VStr (to_str
                         (Fin (xorb s1 s2)
                            (spec_round_half_up_cents c e) (-2))))
      /\ Dict.get "currency" out = Some (VStr "USD")
      /\ Dict.get "creationDate" out = Some (VStr (utcnow_isoformat w t))
      /\ forall k, k <> "price" -> k <> "currency" -> k <> "creationDate" ->
                   Dict.get k out = Dict.get k row.
Proof.
  intros w rates row acc t p cur s1 s2 c1 c2 c e1 e2 e Hp Hv Hc Hr Hctx Hm.
  pose proof (convert_currency_spec s1 c1 e1 s2 c2 e2 c e Hctx Hm) as Hconv.
  split.
  - intros Hfit. unfold spec_round_context in Hctx.
    apply Z.leb_le in Hfit. rewrite Hfit in Hctx. inversion Hctx. auto.
  - eexists. split; [|split; [|split; [|split; [|split]]]].
    + eapply process_row_converts; eauto.
    + unfold process_csv_data. simpl. unfold bind.
      erewrite process_row_converts by eauto. reflexivity.
    + rewrite !get_set_other by discriminate. apply get_set_same.
    + rewrite get_set_other by discriminate. apply get_set_same.
    + apply get_set_same.
    + intros k H1 H2 H3. rewrite !get_set_other by congruence. reflexivity.
Qed.

(** The example of the specification: 100 EUR at 1.10. *)
Lemma convertible_row_is_normalized_witness :
  ((Digits.ndigits (100 * 110) <= prec)%Z ->
   11000 = 100 * 110 /\ (-2)%Z = (0 + -2)%Z)
  /\ exists out,
    process_row Sample.quiet [("EUR", Fin false 110 (-2))]
      (Sample.listing "123" "100" "EUR") [] []
    = (Ok ([] ++ [out]), [] ++ [EvUtcNow])
    /\ process_csv_data Sample.quiet [Sample.listing "123" "100" "EUR"]
         [("EUR", Fin false 110 (-2))] []
       = (Ok [out], [] ++ [EvUtcNow])
    /\ Dict.get "price" out = Some (VStr "110.00")
    /\ Dict.get "currency" out = Some (VStr "USD")
    /\ Dict.get "creationDate" out
       = Some (VStr (utcnow_isoformat Sample.quiet []))
    /\ forall k, k <> "price" -> k <> "currency" -> k <> "creationDate" ->
                 Dict.get k out
                 = Dict.get k (Sample.listing "123" "100" "EUR").
Proof.
  refine (convertible_row_is_normalized Sample.quiet
            [("EUR", Fin false 110 (-2))]
            (Sample.listing "123" "100" "EUR") [] []
            (VStr "100") (VStr "EUR") false false 100 110 11000 0 (-2) (-2)
            eq_refl eq_refl eq_refl eq_refl eq_refl _).
  right. vm_compute. discriminate.
Defined.

(** A multiplier of 28 digits, as the division leaves it: the product has
    more than 28 digits, and the row gets the product of the context,
    rounded to cents. *)
Example long_multiplier_run :
  truediv (Fin false 125 (-2)) (Fin false 11 (-1))
  = Ok (Fin false 1136363636363636363636363636 (-27))
  /\ spec_round_context (25000050 * 1136363636363636363636363636) (-2 + -27)
     = (2840914772727272727272727272, (-22)%Z)
  /\ rbind (of_string "250000.50")
       (fun p => convert_currency p
                   (Fin false 1136363636363636363636363636 (-27)))
     = Ok (Fin false 28409148 (-2)).
Proof. repeat split; vm_compute; reflexivity. Qed.

(** C1, as stated, fails: a price of [10^26] reads as an exact decimal and
    its currency is in the table, yet [quantize] refuses a result of more
    than 28 digits and raises [InvalidOperation]; no row comes out. *)
Lemma price_beyond_the_context_raises :
  of_string "100000000000000000000000000" = Ok (Fin false (10 ^ 26) 0)
  /\ Dict.get "EUR" [("EUR", Sample.one)] = Some Sample.one
  /\ process_csv_data Sample.quiet
       [Sample.listing "1" "100000000000000000000000000" "EUR"]
       [("EUR", Sample.one)] []
     = (Raise InvalidOperation, []).
Proof. repeat split; vm_compute; reflexivity. Qed.

(** The other limit of the context: a product of more than 28 digits is
    first rounded to 28 digits, to even, and only then to cents.  Here the
    exact amount is below the half cent and the row says 1.01. *)
Example product_is_rounded_twice :
  of_string "1.0049999999999999999999999995"
  = Ok (Fin false 10049999999999999999999999995 (-28))
  /\ spec_round_half_up_cents 10049999999999999999999999995 (-28) = 100
  /\ convert_currency (Fin false 10049999999999999999999999995 (-28))
       Sample.one
     = Ok (Fin false 101 (-2)).
Proof. repeat split; vm_compute; reflexivity. Qed.

End Conversion.

(** ** The batch processor *)

(** C2 (amended). A row that has both fields and whose price does not
    convert to a decimal is not dropped on its own: the conversion raises
    out of [process_csv_data], so the batch it is in yields no rows at
    all.  The exception is caught one level up, in the handler's loop for
    the file, and printed there; for that file nothing is put in the table
    and no archive is written (between the read and the print the history
    holds clock reads only), and the handler goes on with the next file. *)
Theorem unparseable_price_aborts_the_batch :
  forall (w : World) (processed_bucket : string) (rates : RateTable)
         (pre post : list Row) (bad : Row) (v : Value) (e : Exn)
         (record : FileRef) (t : Trace),
    Dict.get "price" bad = Some v ->
    Dict.mem "currency" bad = true ->
    Decimal_of_value v = Raise e ->
    (exists e' t',
       process_csv_data w (pre ++ bad :: post) rates t = (Raise e', t'))
    /\ (s3_get_object w t record.(bucket) record.(key)
        = Ok (pre ++ bad :: post) ->
        exists e' new,
          handle_record w processed_bucket rates record tt t
          = (Ok tt,
             t ++ EvGetObject record.(bucket) record.(key)
               :: new
               ++ [EvPrint (Error_processing_file
                              record.(key) record.(bucket) e')])
          /\ Forall clock_event new).
Proof.
  intros w pb rates pre post bad v e record t Hp Hc Hv. split.
  - destruct (batch_with_bad_row_raises w rates pre bad post t v e Hp Hc Hv)
      as [e' [new [E _]]]. eauto.
  - intros Hget.
    destruct (batch_with_bad_row_raises w rates pre bad post
                (t ++ [EvGetObject (bucket record) (key record)]) v e
                Hp Hc Hv) as [e' [new [E F]]].
    exists e', new. split; [|assumption].
    unfold handle_record, try_except, process_file.
    unfold bind at 1. unfold read_csv_from_s3, try_except, call.
    rewrite Hget. unfold bind at 1. rewrite E. unfold print.
    rewrite <- !app_assoc. reflexivity.
Qed.

Lemma unparseable_price_aborts_the_batch_witness :
  (exists e' t',
     process_csv_data
       (Sample.world (Some Sample.feed) nine_valid_and_one_invalid)
       nine_valid_and_one_invalid [("EUR", Sample.one)] []
     = (Raise e', t'))
  /\ (exists e' new,
        handle_record
          (Sample.world (Some Sample.feed) nine_valid_and_one_invalid)
          "processed" [("EUR", Sample.one)]
          {| bucket := "raw"; key := "listings.csv" |} tt []
        = (Ok tt,
           [] ++ EvGetObject "raw" "listings.csv"
              :: new
              ++ [EvPrint (Error_processing_file
                             "listings.csv" "raw" e')])
        /\ Forall clock_event new).
Proof.
  pose proof (unparseable_price_aborts_the_batch
                (Sample.world (Some Sample.feed) nine_valid_and_one_invalid)
                "processed" [("EUR", Sample.one)]
                (firstn 3 nine_valid_and_one_invalid)
                (skipn 4 nine_valid_and_one_invalid)
                (Sample.listing "4" "twelve" "EUR") (VStr "twelve")
                InvalidOperation
                {| bucket := "raw"; key := "listings.csv" |} []
                eq_refl eq_refl eq_refl) as [Hbatch Hfile].
  split.
  - exact Hbatch.
  - exact (Hfile eq_refl).
Defined.

(** C2, as stated, fails: of one row with a non-numeric price and nine
    valid rows, not nine but none come out; the batch raises
    [InvalidOperation] after the three rows before the bad one were
    stamped. *)
Lemma one_bad_price_loses_the_nine_valid_rows :
  List.length nine_valid_and_one_invalid = 10%nat
  /\ process_csv_data Sample.quiet nine_valid_and_one_invalid
       [("EUR", Sample.one)] []
     = (Raise InvalidOperation, [EvUtcNow; EvUtcNow; EvUtcNow]).
Proof. split; vm_compute; reflexivity. Qed.

(** C3 (amended). A row that lacks the [price] field or the [currency]
    field is not an error, and it is left out of the batch's output: the
    batch with the row gives exactly what the batch without it gives (the
    same rows, the same clock reads), and a batch of that row alone gives
    no row. *)
Theorem rows_without_price_or_currency_are_omitted :
  forall (w : World) (rates : RateTable) (pre post : list Row) (row : Row)
         (t : Trace),
    Dict.mem "price" row = false \/ Dict.mem "currency" row = false ->
    process_csv_data w (pre ++ row :: post) rates t
    = process_csv_data w (pre ++ post) rates t
    /\ process_csv_data w [row] rates t = (Ok [], t).
Proof.
  intros w rates pre post row t H. unfold process_csv_data. split.
  - rewrite !for_each_app. unfold bind.
    destruct (for_each pre _ _ t) as [[acc|e] t']; [|reflexivity].
    simpl. rewrite (process_row_skips w rates row acc H). reflexivity.
  - simpl. rewrite (process_row_skips w rates row [] H). reflexivity.
Qed.

Lemma rows_without_price_or_currency_are_omitted_witness :
  process_csv_data Sample.quiet
    ([Sample.listing "1" "100" "EUR"]
       ++ [("zpid", VStr "2"); ("currency", VStr "EUR")]
       :: [Sample.listing "3" "7.5" "GBP"])
    [("EUR", Sample.one)] []
  = process_csv_data Sample.quiet
      ([Sample.listing "1" "100" "EUR"] ++ [Sample.listing "3" "7.5" "GBP"])
      [("EUR", Sample.one)] []
  /\ process_csv_data Sample.quiet
       [[("zpid", VStr "2"); ("currency", VStr "EUR")]]
       [("EUR", Sample.one)] []
     = (Ok [], []).
Proof.
  apply (rows_without_price_or_currency_are_omitted Sample.quiet
           [("EUR", Sample.one)] [Sample.listing "1" "100" "EUR"]
           [Sample.listing "3" "7.5" "GBP"]
           [("zpid", VStr "2"); ("currency", VStr "EUR")] []).
  left. reflexivity.
Defined.

(** C3, as stated, fails: a row without a [price] field is not passed
    through with a [creationDate]; the output has no row at all. *)
Lemma row_without_price_is_not_passed_through :
  Dict.mem "price" [("zpid", VStr "2"); ("currency", VStr "EUR")] = false
  /\ process_csv_data Sample.quiet
       [[("zpid", VStr "2"); ("currency", VStr "EUR")]]
       [("EUR", Sample.one)] []
     = (Ok [], []).
Proof. split; reflexivity. Qed.

(** C4 (amended). A row that has both fields, a price that converts to a
    decimal, and a currency that is no key of the rate table comes out with
    its fields as they were, [price] and [currency] among them, and with
    [creationDate] set to the clock's reading; nothing is raised. *)
Theorem unknown_currency_passes_through :
  forall (w : World) (rates : RateTable) (row : Row) (acc : list Row)
         (t : Trace) (p currency : Value) (price : Decimal),
    Dict.get "price" row = Some p ->
    Decimal_of_value p = Ok price ->
    Dict.get "currency" row = Some currency ->
    lookup_rate currency rates = None ->
    exists out,
      process_row w rates row acc t = (Ok (acc ++ [out]), t ++ [EvUtcNow])
      /\ process_csv_data w [row] rates t = (Ok [out], t ++ [EvUtcNow])
      /\ Dict.get "price" out = Some p
      /\ Dict.get "currency" out = Some currency
      /\ Dict.get "creationDate" out = Some (VStr (utcnow_isoformat w t))
      /\ forall k, k <> "creationDate" -> Dict.get k out = Dict.get k row.
Proof.
  intros w rates row acc t p currency price Hp Hv Hc Hr.
  exists (Dict.set "creationDate" (VStr (utcnow_isoformat w t)) row).
  split; [|split; [|split; [|split; [|split]]]].
  - eapply process_row_unknown_currency; eauto.
  - unfold process_csv_data. simpl. unfold bind.
    rewrite (process_row_unknown_currency w rates row [] t p price currency
               Hp Hv Hc Hr). reflexivity.
  - rewrite get_set_other; [assumption|discriminate].
  - rewrite get_set_other; [assumption|discriminate].
  - apply get_set_same.
  - intros k Hk. apply get_set_other. congruence.
Qed.

Lemma unknown_currency_passes_through_witness :
  exists out,
    process_row Sample.quiet [("EUR", Sample.one)]
      (Sample.listing "3" "10.005" "JPY") [] []
    = (Ok ([] ++ [out]), [] ++ [EvUtcNow])
    /\ process_csv_data Sample.quiet [Sample.listing "3" "10.005" "JPY"]
         [("EUR", Sample.one)] []
       = (Ok [out], [] ++ [EvUtcNow])
    /\ Dict.get "price" out = Some (VStr "10.005")
    /\ Dict.get "currency" out = Some (VStr "JPY")
    /\ Dict.get "creationDate" out
       = Some (VStr (utcnow_isoformat Sample.quiet []))
    /\ forall k, k <> "creationDate" ->
                 Dict.get k out
                 = Dict.get k (Sample.listing "3" "10.005" "JPY").
Proof.
  apply (unknown_currency_passes_through Sample.quiet [("EUR", Sample.one)]
           (Sample.listing "3" "10.005" "JPY") [] []
           (VStr "10.005") (VStr "JPY") (Fin false 10005 (-3))).
  - reflexivity.
  - reflexivity.
  - reflexivity.
  - reflexivity.
Defined.

(** C4, as stated, fails: the price is converted before the currency is
    looked up, so a row with an unknown currency and a price that is no
    decimal raises instead of passing through. *)
Lemma unknown_currency_with_bad_price_raises :
  Dict.mem "price" (Sample.listing "4" "twelve" "XYZ") = true
  /\ Dict.mem "currency" (Sample.listing "4" "twelve" "XYZ") = true
  /\ lookup_rate (VStr "XYZ") [("EUR", Sample.one)] = None
  /\ process_csv_data Sample.quiet [Sample.listing "4" "twelve" "XYZ"]
       [("EUR", Sample.one)] []
     = (Raise InvalidOperation, []).
Proof. repeat split; vm_compute; reflexivity. Qed.

(** ** The rate table *)

Section RateTable.
Local Open Scope Z_scope.

(** C5 (amended). The construction of the rate table fails as a whole, and
    yields no table, when the reference currency's raw rate is absent (no
    [rates] member, no [USD] key, or [null]), and when the division raises
    for some raw rate that counts as true.  Otherwise it yields the table
    in which every currency whose raw rate counts as true (a nonzero
    number, for one) is mapped to [Decimal(usd_rate) / Decimal(rate)], and
    in which the currencies whose raw rate is zero, [null] or missing have
    no entry; these are passed over without error.  The operands of the
    division are the raw rates as [Decimal] reads them (a float as the
    binary number it is).  For two finite nonzero operands whose quotient
    is in the context's exponent range (the exponents of their leading
    digits differ by more than [Emin] and by less than [Emax]) the
    division does not raise, and the multiplier is their quotient
    correctly rounded, half-even, to the context's 28 significant
    digits: it has at most 28 digits and is the quotient, counted in units
    of its 28th significant digit, rounded to the nearest whole number
    with a tie going to the even one. *)
Theorem rate_table_construction :
  forall (w : World) (t : Trace) (data : option Snapshot),
    requests_get w t = Ok data ->
    (lacks_reference_rate data ->
     fetch_exchange_rates w t
     = (Raise (ValueError "Missing exchange rate for USD"),
        t ++ [EvHttpGet;
              EvPrint (Error_fetching_exchange_rates
                         (ValueError "Missing exchange rate for USD"))]))
    /\ forall (rates : Snapshot) (usd_rate : RawRate),
         data = Some rates ->
         NoDup (Dict.keys rates) ->
         Dict.get "USD" rates = Some usd_rate ->
         usd_rate <> RNull ->
         ((forall currency rate,
             In (currency, rate) rates -> raw_truthy rate = true ->
             exists q, multiplier usd_rate rate = Ok q) ->
          exists table,
            fetch_exchange_rates w t = (Ok table, t ++ [EvHttpGet])
            /\ forall currency,
                 match Dict.get currency rates with
                 | Some rate =>
                     if raw_truthy rate then
                       exists q, multiplier usd_rate rate = Ok q
                                 /\ Dict.get currency table = Some q
                     else Dict.get currency table = None
                 | None => Dict.get currency table = None
                 end)
         /\ (forall currency rate e,
               In (currency, rate) rates -> raw_truthy rate = true ->
               multiplier usd_rate rate = Raise e ->
               exists e' t',
                 fetch_exchange_rates w t = (Raise e', t'))
         /\ (forall rate su cu eu sr cr er,
               Decimal_of_raw usd_rate = Ok (Fin su cu eu) ->
               Decimal_of_raw rate = Ok (Fin sr cr er) ->
               cu <> 0%N -> cr <> 0%N ->
               Emin < adjusted cu eu - adjusted cr er < Emax ->
               exists q e,
                 multiplier usd_rate rate = Ok (Fin (xorb su sr) q e)
                 /\ Digits.ndigits q <= prec
                 /\ nearest_quotient cu eu cr er q e
                 /\ rounded_quotient cu eu cr er q e).
Proof.
  intros w t data Hget. split.
  - apply fetch_without_reference_rate. exact Hget.
  - intros rates usd_rate -> Hnd Husd Hnn. split; [|split].
    + intros Hdef.
      destruct (rates_comprehension_defined usd_rate rates [] Hnd Hdef)
        as [table [E G]].
      exists table. split.
      * unfold fetch_exchange_rates, try_except, bind, call, lift.
        rewrite Hget, Husd.
        destruct usd_rate; try congruence; cbv iota beta; rewrite E;
          reflexivity.
      * intros currency. rewrite G. unfold table_entry.
        destruct (Dict.get currency rates) as [rate|] eqn:Hc;
          [|reflexivity].
        destruct (raw_truthy rate) eqn:Ht; [|reflexivity].
        assert (Hin : In (currency, rate) rates).
        { clear - Hc. induction rates as [|[k v] rest IH];
            simpl in *; [discriminate|].
          destruct (String.eqb_spec currency k) as [->|].
          - inversion Hc. left. reflexivity.
          - right. auto. }
        destruct (Hdef currency rate Hin Ht) as [q Hq].
        rewrite Hq. exists q. auto.
    + intros currency rate e Hin Ht He.
      destruct (rates_comprehension_raises usd_rate rates [] currency rate e
                  Hin Ht He) as [e' E].
      exists e'. eexists.
      unfold fetch_exchange_rates, try_except, bind, call, lift, print,
        raise.
      rewrite Hget, Husd.
      destruct usd_rate; try congruence; cbv iota beta; rewrite E;
        reflexivity.
    + intros rate su cu eu sr cr er Hu Hr Hcu Hcr Hrange.
      destruct (truediv_spec su cu eu sr cr er Hcu Hcr Hrange)
        as [q [e [E [_ [Hd [Hnear Hround]]]]]].
      exists q, e. unfold multiplier. rewrite Hu, Hr. cbn [rbind].
      auto.
Qed.

Lemma rate_table_construction_witness :
  fetch_exchange_rates (Sample.world (Some [("EUR", RInt 1)]) []) []
  = (Raise (ValueError "Missing exchange rate for USD"),
     [] ++ [EvHttpGet;
            EvPrint (Error_fetching_exchange_rates
                       (ValueError "Missing exchange rate for USD"))])
  /\ (exists table,
        fetch_exchange_rates Sample.quiet [] = (Ok table, [] ++ [EvHttpGet])
        /\ forall currency,
             match Dict.get currency Sample.feed with
             | Some rate =>
                 if raw_truthy rate then
                   exists q,
                     multiplier (RFloat 1.25%float) rate = Ok q
                     /\ Dict.get currency table = Some q
                 else Dict.get currency table = None
             | None => Dict.get currency table = None
             end)
  /\ (exists e' t',
        fetch_exchange_rates
          (Sample.world (Some [("USD", RInt 1); ("EUR", RStr "0")]) []) []
        = (Raise e', t'))
  /\ (exists q e,
        multiplier (RFloat 1.25%float) (RInt 3) = Ok (Fin (xorb false false) q e)
        /\ Digits.ndigits q <= prec
        /\ nearest_quotient 125 (-2) 3 0 q e
        /\ rounded_quotient 125 (-2) 3 0 q e).
Proof.
  split; [|split; [|split]].
  - apply (proj1 (rate_table_construction
                    (Sample.world (Some [("EUR", RInt 1)]) []) []
                    (Some [("EUR", RInt 1)]) eq_refl)).
    simpl. left. reflexivity.
  - apply (proj1 (proj2 (rate_table_construction Sample.quiet []
                           (Some Sample.feed) eq_refl)
                    Sample.feed (RFloat 1.25%float) eq_refl
                    ltac:(repeat constructor; simpl; intuition discriminate)
                    eq_refl ltac:(discriminate))).
    intros currency rate Hin Ht.
    repeat (destruct Hin as [Hin|Hin];
            [inversion Hin; subst; try discriminate;
             eexists; vm_compute; reflexivity|]).
    contradiction.
  - apply (proj1 (proj2 (proj2 (rate_table_construction
                           (Sample.world
                              (Some [("USD", RInt 1); ("EUR", RStr "0")]) [])
                           []
                           (Some [("USD", RInt 1); ("EUR", RStr "0")])
                           eq_refl)
                    [("USD", RInt 1); ("EUR", RStr "0")] (RInt 1) eq_refl
                    ltac:(repeat constructor; simpl; intuition discriminate)
                    eq_refl ltac:(discriminate)))
             "EUR" (RStr "0") DivisionByZero).
    + right. left. reflexivity.
    + reflexivity.
    + reflexivity.
  - apply (proj2 (proj2 (proj2 (rate_table_construction Sample.quiet []
                           (Some Sample.feed) eq_refl)
                    Sample.feed (RFloat 1.25%float) eq_refl
                    ltac:(repeat constructor; simpl; intuition discriminate)
                    eq_refl ltac:(discriminate)))
             (RInt 3) false 125%N (-2) false 3%N 0 eq_refl eq_refl).
    + discriminate.
    + discriminate.
    + vm_compute. split; reflexivity.
Defined.

(** The table of the sample feed: USD 1.25, EUR 1, GBP 0.5 and CAD 0 per
    unit of the feed's anchor. *)
Example sample_rate_table :
  fetch_exchange_rates Sample.quiet []
  = (Ok [("USD", Fin false 1 0); ("EUR", Fin false 125 (-2));
         ("GBP", Fin false 25 (-1))],
     [EvHttpGet]).
Proof. vm_compute. reflexivity. Qed.

(** A quotient that does not end: 1.25 / 3, to 28 digits. *)
Example rounded_multiplier :
  multiplier (RFloat 1.25%float) (RInt 3)
  = Ok (Fin false 4166666666666666666666666667 (-28)).
Proof. vm_compute. reflexivity. Qed.

(** That number is the rounded quotient of 1.25 by 3, and a shorter one
    is not: 0.4 is within half a unit of its last digit of the quotient,
    but it is not the quotient rounded to 28 digits. *)
Example rounded_quotient_of_the_sample :
  rounded_quotient 125 (-2) 3 0 4166666666666666666666666667 (-28)
  /\ nearest_quotient 125 (-2) 3 0 4 (-1)
  /\ ~ rounded_quotient 125 (-2) 3 0 4 (-1).
Proof.
  split; [|split].
  - exists (-28). cbv zeta. split; [split|split].
    + vm_compute. discriminate.
    + vm_compute. reflexivity.
    + lia.
    + vm_compute. reflexivity.
  - unfold nearest_quotient. vm_compute. split; discriminate.
  - intros [e0 [Hb [He Hq]]]. cbv zeta in *.
    assert (E : e0 = -28).
    { apply (quotient_exponent_unique 125 (-2) 3 0); [discriminate|exact Hb|].
      vm_compute. split; [discriminate|reflexivity]. }
    subst e0. vm_compute in Hq. discriminate.
Qed.

(** C5, as stated, fails, in two ways.  A reference rate of zero does not
    make the construction fail: only [None] is tested for, and zero
    divided by the other rates gives a table of zero multipliers.  And the
    multiplier is not the quotient of the rates as decimals: a rate that
    [json] decodes to a float enters the division as the binary number
    nearest to it.  For the rates 0.3 and 0.1 (the floats
    [0x1.3333333333333p-2] and [0x1.999999999999ap-4]) the entry is
    2.999999999999999722444243844; the decimals 0.3 and 0.1, which the
    constructor gets from strings, have the quotient 3. *)
Lemma zero_or_binary_rates_build_another_table :
  fetch_exchange_rates
    (Sample.world (Some [("USD", RInt 0); ("EUR", RFloat 0.5%float)]) [])
    []
  = (Ok [("EUR", Fin false 0 1)], [EvHttpGet])
  /\ fetch_exchange_rates
       (Sample.world
          (Some [("USD", RFloat 0x1.3333333333333p-2%float);
                 ("EUR", RFloat 0x1.999999999999ap-4%float)]) [])
       []
     = (Ok [("USD", Fin false 1 0);
            ("EUR", Fin false 2999999999999999722444243844 (-27))],
        [EvHttpGet])
  /\ Decimal_of_raw (RFloat 0x1.3333333333333p-2%float)
     = Ok (Fin false
             299999999999999988897769753748434595763683319091796875 (-54))
  /\ Decimal_of_raw (RFloat 0x1.999999999999ap-4%float)
     = Ok (Fin false
             1000000000000000055511151231257827021181583404541015625 (-55))
  /\ multiplier (RStr "0.3") (RStr "0.1") = Ok (Fin false 3 0).
Proof. repeat split; vm_compute; reflexivity. Qed.

(** A zero that comes as a string counts as true, and the division by it
    raises: the table is not built. *)
Example zero_as_a_string_is_fatal :
  fetch_exchange_rates
    (Sample.world (Some [("USD", RInt 1); ("EUR", RStr "0")]) []) []
  = (Raise DivisionByZero,
     [EvHttpGet; EvPrint (Error_fetching_exchange_rates DivisionByZero)]).
Proof. vm_compute. reflexivity. Qed.

(** Outside the exponent range the entry is not the rounded quotient: a
    quotient too small for the context comes out as zero, and one too
    large raises [Overflow]. *)
Example multiplier_outside_the_exponent_range :
  multiplier (RStr "1e-999999") (RStr "1e999999")
  = Ok (Fin false 0 (-1000026))
  /\ multiplier (RStr "1e999999") (RStr "1e-999999") = Raise Overflow.
Proof. split; vm_compute; reflexivity. Qed.

End RateTable.

(** ** The rounding rule *)

Section Rounding.
Local Open Scope Z_scope.
Local Open Scope N_scope.

(** C6 (amended). Rounding to cents is half-up, for a price of at most 28
    digits.  With multiplier 1, a price with more than two decimals, that
    is [n] cents and a rest of [r] units of its last digit, becomes
    [n + 1] cents when the rest is half a cent or more, and [n] cents when
    it is less; the sign is kept.  The half-way case goes away from zero
    whether [n] is even or odd: for the price 10.005 that is 10.01, not
    the 10.00 of rounding to even. *)
Theorem half_a_cent_rounds_away_from_zero :
  forall (w : World) (rates : RateTable) (row : Row) (t : Trace)
         (p cur : Value) (s : bool) (n r : N) (e : Z),
    Dict.get "price" row = Some p ->
    Decimal_of_value p = Ok (Fin s (n * Digits.pow10 (-2 - e) + r) e) ->
    Dict.get "currency" row = Some cur ->
    lookup_rate cur rates = Some (Fin false 1 0) ->
    (e < -2)%Z ->
    r < Digits.pow10 (-2 - e) ->
    (Digits.ndigits (n * Digits.pow10 (-2 - e) + r) <= prec)%Z ->
    let cents := if Digits.pow10 (-2 - e) <=? 2 * r then n + 1 else n in
    convert_currency (Fin s (n * Digits.pow10 (-2 - e) + r) e) (Fin false 1 0)
    = Ok (Fin s cents (-2))
    /\ exists out,
         process_csv_data w [row] rates t = (Ok [out], t ++ [EvUtcNow])
         /\ Dict.get "price" out = Some (VStr (to_str (Fin s cents (-2)))).
Proof.
  intros w rates row t p cur s n r e Hp Hv Hc Hr He Hrem Hd cents.
  set (K := Digits.pow10 (-2 - e)) in *.
  assert (Hconv : convert_currency (Fin s (n * K + r) e) (Fin false 1 0)
                  = Ok (Fin s cents (-2))).
  { rewrite (convert_currency_spec s (n * K + r) e false 1 0 (n * K + r) e).
    - rewrite xorb_false_r. do 2 f_equal.
      unfold spec_round_half_up_cents.
      destruct (Z.leb_spec (-2) e) as [Hbad|_]; [lia|]. fold K.
      unfold cents. symmetry.
      destruct (N.leb_spec K (2 * r)) as [Hup|Hdown].
      + apply (N.div_unique _ _ _ (2 * r - K)); lia.
      + apply (N.div_unique _ _ _ (2 * r + K)); lia.
    - unfold spec_round_context. rewrite N.mul_1_r, Z.add_0_r.
      apply Z.leb_le in Hd. rewrite Hd. reflexivity.
    - right. unfold prec in Hd. lia. }
  split; [exact Hconv|].
  eexists. split.
  - unfold process_csv_data. simpl. unfold bind.
    erewrite process_row_converts by eauto. reflexivity.
  - rewrite !get_set_other by discriminate. apply get_set_same.
Qed.

Lemma half_a_cent_rounds_away_from_zero_witness :
  convert_currency (Fin false 10005 (-3)) (Fin false 1 0)
  = Ok (Fin false 1001 (-2))
  /\ exists out,
       process_csv_data Sample.quiet [Sample.listing "2" "10.005" "EUR"]
         [("EUR", Sample.one)] []
       = (Ok [out], [] ++ [EvUtcNow])
       /\ Dict.get "price" out = Some (VStr "10.01").
Proof.
  refine (half_a_cent_rounds_away_from_zero Sample.quiet
            [("EUR", Sample.one)] (Sample.listing "2" "10.005" "EUR") []
            (VStr "10.005") (VStr "EUR") false 1000 5 (-3)
            eq_refl eq_refl eq_refl eq_refl _ _ _).
  - lia.
  - reflexivity.
  - vm_compute. discriminate.
Defined.

(** C6, as stated, fails for a price of more than 28 digits: the
    multiplication by 1 first rounds it to the 28 digits of the context,
    a tie going to the even digit, and that happens to be the cent.  The
    price 12345678901234567890123456.005 becomes ...56.00, not ...56.01,
    and ...56.025 becomes ...56.02, not ...56.03. *)
Lemma tie_of_a_long_price_goes_to_even :
  of_string "12345678901234567890123456.005"
  = Ok (Fin false 12345678901234567890123456005 (-3))
  /\ convert_currency (Fin false 12345678901234567890123456005 (-3))
       (Fin false 1 0)
     = Ok (Fin false 1234567890123456789012345600 (-2))
  /\ convert_currency (Fin false 12345678901234567890123456025 (-3))
       (Fin false 1 0)
     = Ok (Fin false 1234567890123456789012345602 (-2))
  /\ exists out,
       process_csv_data Sample.quiet
         [Sample.listing "2" "12345678901234567890123456.005" "EUR"]
         [("EUR", Sample.one)] []
       = (Ok [out], [EvUtcNow])
       /\ Dict.get "price" out
          = Some (VStr "12345678901234567890123456.00").
Proof.
  split; [vm_compute; reflexivity|].
  split; [vm_compute; reflexivity|].
  split; [vm_compute; reflexivity|].
  eexists. split; vm_compute; reflexivity.
Qed.

(** The same on the other side of zero, on an odd number of cents, and
    off the half-way case. *)
Example half_up_examples :
  rbind (of_string "-10.005") (fun p => convert_currency p Sample.one)
  = Ok (Fin true 1001 (-2))
  /\ to_str (Fin true 1001 (-2)) = "-10.01"
  /\ rbind (of_string "10.015") (fun p => convert_currency p Sample.one)
     = Ok (Fin false 1002 (-2))
  /\ rbind (of_string "10.0049") (fun p => convert_currency p Sample.one)
     = Ok (Fin false 1000 (-2)).
Proof. repeat split; vm_compute; reflexivity. Qed.

End Rounding.

(** ** The archive writer on an empty batch *)

(** C7. Given an empty sequence of records, the archive writer makes no
    write call to the processed store and lets no exception out: indexing
    the first record raises [IndexError] inside the function's own [try],
    the handler prints the error, and the function returns normally. *)
Theorem empty_batch_writes_no_archive :
  forall (w : World) (bucket key : string) (t : Trace),
    write_processed_csv_to_s3 w bucket key [] t
    = (Ok tt,
       t ++ [EvPrint (Error_writing_processed_file bucket key IndexError)]).
Proof. reflexivity. Qed.

(** ** The handler *)

(** C8. When the feed's answer lacks the reference currency's rate, the
    invocation fails before any file is touched: the handler raises the
    rate-fetch error to its caller, and the only things it has done are the
    request to the feed and the printing of the error. *)
Theorem missing_reference_rate_is_fatal :
  forall (w : World) (processed_bucket : string) (event : list FileRef)
         (t : Trace) (data : option Snapshot),
    requests_get w t = Ok data ->
    lacks_reference_rate data ->
    lambda_handler w processed_bucket event t
    = (Raise (ValueError "Missing exchange rate for USD"),
       t ++ [EvHttpGet;
             EvPrint (Error_fetching_exchange_rates
                        (ValueError "Missing exchange rate for USD"))]).
Proof.
  intros w pb event t data Hget Hlack.
  unfold lambda_handler, bind at 1.
  rewrite (fetch_without_reference_rate w t data Hget Hlack). reflexivity.
Qed.

Lemma missing_reference_rate_is_fatal_witness :
  lambda_handler (Sample.world (Some [("EUR", RFloat 0.5%float)]) [])
    "processed" [ {| bucket := "raw"; key := "listings.csv" |} ] []
  = (Raise (ValueError "Missing exchange rate for USD"),
     [EvHttpGet;
      EvPrint (Error_fetching_exchange_rates
                 (ValueError "Missing exchange rate for USD"))]).
Proof.
  apply (missing_reference_rate_is_fatal
           (Sample.world (Some [("EUR", RFloat 0.5%float)]) [])
           "processed" [ {| bucket := "raw"; key := "listings.csv" |} ] []
           (Some [("EUR", RFloat 0.5%float)])).
  - reflexivity.
  - simpl. left. reflexivity.
Defined.

(** C9. Once the rate table is there, the handler cannot fail: an exception
    out of the reading, the normalising or the persisting of one file is
    caught in that turn of the loop and printed with the file's key and
    bucket, the loop goes on to the next reference (every reference of
    the event is read, in order), and the handler returns the fixed
    acknowledgment with status 200. *)
Theorem handler_isolates_file_failures :
  forall (w : World) (processed_bucket : string) (event : list FileRef)
         (t t1 : Trace) (rates : RateTable),
    fetch_exchange_rates w t = (Ok rates, t1) ->
    (forall record t',
       handle_record w processed_bucket rates record tt t'
       = match process_file w processed_bucket rates
                 record.(bucket) record.(key) t' with
         | (Ok _, t'') => (Ok tt, t'')
         | (Raise e, t'') =>
             (Ok tt,
              t'' ++ [EvPrint (Error_processing_file
                                 record.(key) record.(bucket) e)])
         end)
    /\ exists t2,
         lambda_handler w processed_bucket event t = (Ok acknowledgment, t2)
         /\ statusCode acknowledgment = 200
         /\ objects_read t2
            = objects_read t1
                ++ map (fun r => (r.(bucket), r.(key))) event.
Proof.
  intros w pb event t t1 rates Hfetch. split.
  - intros record t'. unfold handle_record, try_except.
    destruct (process_file _ _ _ _ _ t') as [[[]|e] t'']; reflexivity.
  - destruct (handler_loop_spec w pb rates event t1) as [t2 [E R]].
    exists t2. unfold lambda_handler, bind. rewrite Hfetch, E.
    repeat split; assumption.
Qed.

Lemma handler_isolates_file_failures_witness :
  exists t2,
    lambda_handler flaky_store "processed"
      [ {| bucket := "raw"; key := "missing.csv" |};
        {| bucket := "raw"; key := "listings.csv" |} ] []
    = (Ok acknowledgment, t2)
    /\ statusCode acknowledgment = 200
    /\ objects_read t2
       = objects_read (snd (fetch_exchange_rates flaky_store []))
           ++ [("raw", "missing.csv"); ("raw", "listings.csv")].
Proof.
  refine (proj2 (handler_isolates_file_failures flaky_store "processed"
                   [ {| bucket := "raw"; key := "missing.csv" |};
                     {| bucket := "raw"; key := "listings.csv" |} ] []
                   (snd (fetch_exchange_rates flaky_store []))
                   (match fst (fetch_exchange_rates flaky_store []) with
                    | Ok r => r
                    | Raise _ => []
                    end) _)).
  vm_compute. reflexivity.
Defined.

(** ** The persistence of a batch *)



(** The same batch run through both writers: two items reach the table,
    the first with its [zpid] turned into the string [None], and the
    archive has a line for each of the three records, the one without
    [zpid] with an empty cell in that column. *)
Example mixed_records_run :
  (r <- upload_to_dynamodb Sample.quiet mixed_records ;;
   write_processed_csv_to_s3 Sample.quiet "processed" "processed_a.csv" r) []
  = (Ok tt,
     [EvPutItem [("zpid", VStr "None"); ("price", VStr "5.00");
                 ("currency", VStr "USD");
                 ("creationDate", VStr "2024-01-01T00:00:00.1")];
      EvPrint (Error_uploading_item (KeyError "zpid"));
      EvPutItem [("zpid", VStr "7"); ("price", VStr "10.01");
                 ("currency", VStr "USD");
                 ("creationDate", VStr "2024-01-01T00:00:00.3")];
      EvBatchFlush;
      EvPutObject "processed" "processed_a.csv"
        ["zpid"; "price"; "currency"; "creationDate"]
        [["None"; "5.00"; "USD"; "2024-01-01T00:00:00.1"];
         [""; "110.00"; "USD"; "2024-01-01T00:00:00.2"];
         ["7"; "10.01"; "USD"; "2024-01-01T00:00:00.3"]]]).
Proof. vm_compute. reflexivity. Qed.

(** When it is the first record that lacks the [zpid] the others have, the
    header has no such column, [DictWriter] refuses the second record, and
    no archive is written. *)
Example archive_refused_run :
  write_processed_csv_to_s3 Sample.quiet "processed" "processed_a.csv"
    [[("price", VStr "110.00")]; [("zpid", VStr "7"); ("price", VStr "1.00")]]
    []
  = (Ok tt,
     [EvPrint (Error_writing_processed_file "processed" "processed_a.csv"
                 (ValueError "dict contains fields not in fieldnames"))]).
Proof. vm_compute. reflexivity. Qed.

(** * Further properties of the code *)

(** ** Prices as text *)

Section PriceText.
Import Digits.
Local Open Scope Z_scope.

(** X1. [Decimal(str(d))] is [d], for every decimal [d]: the text that
    line 88 writes into the [price] field is read back by line 85 as the
    same number, with the same sign, digits and exponent (and so are
    the infinities and the NaNs, with their payload). *)
Theorem written_price_reads_back :
  forall d : Decimal, Decimal_of_value (VStr (to_str d)) = Ok d.
Proof. intros d. apply of_string_to_str. Qed.

(** X2. A price text with an ASCII character that no numeric string has
    (the comma of [1,200.50], a currency sign, a bracket, a slash) does
    not read as a decimal, wherever the character stands and whatever
    else the text holds: [Decimal(row['price'])] raises
    [InvalidOperation], and the row's turn ends there, before the currency
    is looked at or the clock is read. *)
Theorem price_with_a_foreign_character_is_refused :
  forall (w : World) (rates : RateTable) (row : Row) (acc : list Row)
         (t : Trace) (text : string) (c : ascii),
    Dict.get "price" row = Some (VStr text) ->
    Dict.mem "currency" row = true ->
    In c (list_ascii_of_string text) ->
    foreign c ->
    Decimal_of_value (VStr text) = Raise InvalidOperation
    /\ process_row w rates row acc t = (Raise InvalidOperation, t).
Proof.
  intros w rates row acc t text c Hp Hc Hin Hf.
  assert (Hv : Decimal_of_value (VStr text) = Raise InvalidOperation).
  { cbn [Decimal_of_value]. unfold of_string.
    rewrite (parser_refuses c text Hf Hin). reflexivity. }
  split; [exact Hv|].
  apply (process_row_raises w rates row acc t (VStr text) InvalidOperation
           Hp Hc Hv).
Qed.

Lemma price_with_a_foreign_character_is_refused_witness :
  Decimal_of_value (VStr "1,200.50") = Raise InvalidOperation
  /\ process_row Sample.quiet [("EUR", Sample.one)]
       (Sample.listing "5" "1,200.50" "EUR") [] []
     = (Raise InvalidOperation, []).
Proof.
  apply (price_with_a_foreign_character_is_refused Sample.quiet
           [("EUR", Sample.one)] (Sample.listing "5" "1,200.50" "EUR") [] []
           "1,200.50" ","%char).
  - reflexivity.
  - reflexivity.
  - simpl. tauto.
  - unfold foreign. simpl. repeat split; try reflexivity; discriminate.
Defined.

End PriceText.

(** ** The conversion *)

Section ConversionOfPrices.
Import Digits.
Local Open Scope Z_scope.

(** X3. Whatever the price and the rate, a conversion that returns gives
    either a quiet NaN or an amount of the product's sign with exponent -2
    and at most 28 digits.  The text of such an amount is the sign, the
    whole units, a point and exactly two digits: an exponent is never
    written. *)
Theorem converted_price_has_two_decimals :
  forall (price rate d : Decimal),
    convert_currency price rate = Ok d ->
    (exists c,
       d = Fin (xorb (sign_of price) (sign_of rate)) c (-2)
       /\ ndigits c <= prec
       /\ to_chars d
          = sign_chars (xorb (sign_of price) (sign_of rate))
              ++ digits (c / 100)
              ++ ["."%char; digit_char ((c / 10) mod 10);
                  digit_char (c mod 10)])
    \/ (exists s p, d = NaN s false p /\ ndigits p <= prec).
Proof.
  intros price rate d H.
  destruct (convert_currency_cases price rate d H) as [[c [-> Hd]]|Hnan].
  - left. exists c. repeat split; [assumption|apply to_chars_cents].
  - right. assumption.
Qed.

Lemma converted_price_has_two_decimals_witness :
  (exists c,
     Fin true 123457 (-2)
     = Fin (xorb (sign_of (Fin true 123456789 (-5)))
                 (sign_of (Fin false 1 0))) c (-2)
     /\ ndigits c <= prec
     /\ to_chars (Fin true 123457 (-2))
        = sign_chars (xorb (sign_of (Fin true 123456789 (-5)))
                           (sign_of (Fin false 1 0)))
            ++ digits (c / 100)
            ++ ["."%char; digit_char ((c / 10) mod 10);
                digit_char (c mod 10)])
  \/ (exists s p, Fin true 123457 (-2) = NaN s false p /\ ndigits p <= prec).
Proof.
  apply (converted_price_has_two_decimals
           (Fin true 123456789 (-5)) (Fin false 1 0) (Fin true 123457 (-2))).
  vm_compute. reflexivity.
Defined.

(** X4. On finite operands [convert_currency] returns exactly when the
    product, as the context holds it (rounded half-even to 28 digits when
    it is longer), is zero or below [10^26]: then it returns that product
    rounded half-up to cents, and that is the only thing it ever returns;
    from [10^26] on it raises [InvalidOperation], or [Overflow] where the
    product leaves the context's exponent range. *)
Theorem conversion_returns_below_the_limit_only :
  forall (s1 s2 : bool) (c1 c2 c : N) (e1 e2 e : Z),
    spec_round_context (c1 * c2) (e1 + e2) = (c, e) ->
    ((exists d, convert_currency (Fin s1 c1 e1) (Fin s2 c2 e2) = Ok d)
     <-> (c = 0%N \/ ndigits c + e <= 26))
    /\ (forall d,
          convert_currency (Fin s1 c1 e1) (Fin s2 c2 e2) = Ok d ->
          d = Fin (xorb s1 s2) (spec_round_half_up_cents c e) (-2))
    /\ (c <> 0%N -> 26 < ndigits c + e ->
        convert_currency (Fin s1 c1 e1) (Fin s2 c2 e2)
        = Raise InvalidOperation
        \/ convert_currency (Fin s1 c1 e1) (Fin s2 c2 e2) = Raise Overflow).
Proof.
  intros s1 s2 c1 c2 c e1 e2 e Hctx. split; [|split].
  - split.
    + intros [d Hd]. destruct (N.eq_dec c 0) as [Hz|Hnz]; [left; assumption|].
      destruct (Z.le_gt_cases (ndigits c + e) 26) as [Hm|Hm];
        [right; assumption|].
      exfalso.
      destruct (convert_currency_refuses s1 c1 e1 s2 c2 e2 c e Hctx Hnz
                  ltac:(lia)) as [E|E]; rewrite E in Hd; discriminate.
    + intros Hm. eexists.
      apply (convert_currency_spec s1 c1 e1 s2 c2 e2 c e Hctx Hm).
  - intros d Hd. rewrite (convert_currency_returns _ _ _ _ _ _ _ Hd), Hctx.
    reflexivity.
  - intros Hc Hm.
    apply (convert_currency_refuses s1 c1 e1 s2 c2 e2 c e Hctx Hc Hm).
Qed.

Lemma conversion_returns_below_the_limit_only_witness :
  ((exists d,
      convert_currency (Fin false (10 ^ 26) 0) (Fin true 1 0) = Ok d)
   <-> ((10 ^ 26)%N = 0%N \/ ndigits (10 ^ 26)%N + 0 <= 26))
  /\ (forall d,
        convert_currency (Fin false (10 ^ 26) 0) (Fin true 1 0) = Ok d ->
        d = Fin (xorb false true)
              (spec_round_half_up_cents (10 ^ 26) 0) (-2))
  /\ (convert_currency (Fin false (10 ^ 26) 0) (Fin true 1 0)
      = Raise InvalidOperation
      \/ convert_currency (Fin false (10 ^ 26) 0) (Fin true 1 0)
         = Raise Overflow).
Proof.
  destruct (conversion_returns_below_the_limit_only false true
              (10 ^ 26) 1 (10 ^ 26) 0 0 0 eq_refl) as [H1 [H2 H3]].
  split; [exact H1|]. split; [exact H2|].
  apply H3; [discriminate|vm_compute; reflexivity].
Defined.

(** X5. Converting keeps the order of the prices: of two prices that are
    not negative, converted at the same rate that is not negative, the
    one that is not greater comes out not greater, whatever the digits
    and exponents of the prices and the rate, and however the products
    were rounded on the way (to 28 digits, then to cents). *)
Theorem conversion_keeps_the_order :
  forall (c1 c2 cr : N) (e1 e2 er : Z) (d1 d2 : Decimal),
    convert_currency (Fin false c1 e1) (Fin false cr er) = Ok d1 ->
    convert_currency (Fin false c2 e2) (Fin false cr er) = Ok d2 ->
    value_le c1 e1 c2 e2 ->
    exists n1 n2,
      d1 = Fin false n1 (-2) /\ d2 = Fin false n2 (-2) /\ (n1 <= n2)%N.
Proof.
  intros c1 c2 cr e1 e2 er d1 d2 H1 H2 Hle.
  apply convert_currency_returns in H1, H2. cbn [xorb] in H1, H2.
  destruct (spec_round_context (c1 * cr) (e1 + er)) as [c1' e1'] eqn:R1.
  destruct (spec_round_context (c2 * cr) (e2 + er)) as [c2' e2'] eqn:R2.
  cbn [fst snd] in H1, H2.
  eexists. eexists. split; [exact H1|]. split; [exact H2|].
  set (g1 := ndigits (c1 * cr) + (e1 + er) - prec).
  set (g2 := ndigits (c2 * cr) + (e2 + er) - prec).
  set (m := Z.min (Z.min (e1 + er) (e2 + er)) (Z.min (Z.min g1 g2) (-2))).
  assert (Hx : (c1 * cr * pow10 (e1 + er - m)
                <= c2 * cr * pow10 (e2 + er - m))%N).
  { unfold value_le in Hle. set (k := Z.min e1 e2).
    assert (E1 : pow10 (e1 - e2) = pow10 (e1 - k)).
    { unfold k. destruct (Z.le_ge_cases e1 e2).
      - rewrite Z.min_l by assumption. rewrite Z.sub_diag.
        apply pow10_nonpos. lia.
      - rewrite Z.min_r by assumption. reflexivity. }
    assert (E2 : pow10 (e2 - e1) = pow10 (e2 - k)).
    { unfold k. destruct (Z.le_ge_cases e1 e2).
      - rewrite Z.min_l by assumption. reflexivity.
      - rewrite Z.min_r by assumption. rewrite Z.sub_diag.
        apply pow10_nonpos. lia. }
    rewrite E1, E2 in Hle.
    replace (e1 + er - m) with ((e1 - k) + (k + er - m)) by lia.
    replace (e2 + er - m) with ((e2 - k) + (k + er - m)) by lia.
    rewrite !pow10_add by (unfold k, m; lia).
    set (A := (c1 * pow10 (e1 - k))%N) in *.
    set (B := (c2 * pow10 (e2 - k))%N) in *.
    replace (c1 * cr * (pow10 (e1 - k) * pow10 (k + er - m)))%N
      with (A * (cr * pow10 (k + er - m)))%N by (unfold A; lia).
    replace (c2 * cr * (pow10 (e2 - k) * pow10 (k + er - m)))%N
      with (B * (cr * pow10 (k + er - m)))%N by (unfold B; lia).
    apply N.mul_le_mono_r. assumption. }
  destruct (spec_round_context_mono (c1 * cr) (e1 + er) (c2 * cr) (e2 + er)
              c1' e1' c2' e2' m R1 R2
              ltac:(unfold m; lia) ltac:(unfold m; lia)
              ltac:(fold g1; unfold m; lia) ltac:(fold g2; unfold m; lia)
              Hx) as [Hm1 [Hm2 Hy]].
  rewrite (spec_round_half_up_cents_scaled c1' e1' m Hm1)
    by (unfold m; lia).
  rewrite (spec_round_half_up_cents_scaled c2' e2' m Hm2)
    by (unfold m; lia).
  apply N.Div0.div_le_mono. lia.
Qed.

Lemma conversion_keeps_the_order_witness :
  exists n1 n2,
    Fin false 12499 (-2) = Fin false n1 (-2)
    /\ Fin false 12500 (-2) = Fin false n2 (-2)
    /\ (n1 <= n2)%N.
Proof.
  apply (conversion_keeps_the_order 9999 100 125 (-2) 0 (-2)
           (Fin false 12499 (-2)) (Fin false 12500 (-2))).
  - vm_compute. reflexivity.
  - vm_compute. reflexivity.
  - unfold value_le. vm_compute. discriminate.
Defined.

(** X6. Converting is idempotent at par: what a conversion returned,
    converted once more at a rate of one, is returned unchanged. *)
Theorem conversion_at_par_keeps_a_converted_price :
  forall (price rate d : Decimal),
    convert_currency price rate = Ok d ->
    convert_currency d (Fin false 1 0) = Ok d.
Proof.
  intros price rate d H.
  destruct (convert_currency_cases price rate d H)
    as [[c [-> Hd]]|[s [p [-> Hd]]]].
  - apply convert_cents_at_par. assumption.
  - apply convert_nan_at_par; [assumption|discriminate].
Qed.

Lemma conversion_at_par_keeps_a_converted_price_witness :
  convert_currency (Fin false 25000 (-2)) (Fin false 1 0)
  = Ok (Fin false 25000 (-2)).
Proof.
  apply (conversion_at_par_keeps_a_converted_price
           (Fin false 200 0) (Fin false 125 (-2))).
  vm_compute. reflexivity.
Defined.

(** X7. A price of zero, or a rate of zero, gives zero cents whatever the
    exponents are: nothing is checked against the context on the way.  The
    sign is the product's, so the text is [0.00] or [-0.00]. *)
Theorem zero_price_or_rate_gives_zero_cents :
  forall (s1 s2 : bool) (c1 c2 : N) (e1 e2 : Z),
    c1 = 0%N \/ c2 = 0%N ->
    convert_currency (Fin s1 c1 e1) (Fin s2 c2 e2)
    = Ok (Fin (xorb s1 s2) 0 (-2))
    /\ to_str (Fin (xorb s1 s2) 0 (-2))
       = (if xorb s1 s2 then "-0.00" else "0.00").
Proof.
  intros s1 s2 c1 c2 e1 e2 H. split.
  - apply convert_currency_zero. assumption.
  - destruct (xorb s1 s2); reflexivity.
Qed.

Lemma zero_price_or_rate_gives_zero_cents_witness :
  convert_currency (Fin true 5 999999) (Fin false 0 3)
  = Ok (Fin (xorb true false) 0 (-2))
  /\ to_str (Fin (xorb true false) 0 (-2))
     = (if xorb true false then "-0.00" else "0.00").
Proof.
  apply (zero_price_or_rate_gives_zero_cents true false 5 0 999999 3).
  right. reflexivity.
Defined.

(** X8. The special values as prices.  A quiet NaN goes through the
    conversion and comes out as a NaN, whatever the rate is short of a
    signalling NaN; an infinite price makes the conversion raise
    [InvalidOperation], whatever the rate is short of a quiet NaN; a
    signalling NaN makes it raise in every case. *)
Theorem special_prices :
  forall (s : bool) (p : N) (rate : Decimal),
    ((forall s' p', rate <> NaN s' true p') ->
     convert_currency (NaN s false p) rate = Ok (fix_nan (NaN s false p)))
    /\ ((forall s' p', rate <> NaN s' false p') ->
        convert_currency (Inf s) rate = Raise InvalidOperation)
    /\ convert_currency (NaN s true p) rate = Raise InvalidOperation.
Proof.
  intros s p rate. split; [|split].
  - intros Hrate. destruct (fix_nan_digits s false p) as [p' [E Hd]].
    unfold convert_currency, mul.
    assert (Hc : check_nans (NaN s false p) rate
                 = Some (Ok (fix_nan (NaN s false p)))).
    { destruct rate as [| |s' [|] p'']; try reflexivity.
      exfalso. apply (Hrate s' p''). reflexivity. }
    rewrite Hc, E. cbn [rbind]. unfold quantize, cent. cbn [check_nans].
    rewrite fix_nan_fits by assumption. reflexivity.
  - intros Hrate. unfold convert_currency, mul.
    destruct rate as [s2 c2 e2|s2|s2 [|] p2]; cbn [check_nans sign_of].
    + unfold truthy. destruct (negb _); reflexivity.
    + reflexivity.
    + reflexivity.
    + exfalso. apply (Hrate s2 p2). reflexivity.
  - unfold convert_currency, mul. destruct rate as [| |? [|] ?]; reflexivity.
Qed.

Lemma special_prices_witness :
  convert_currency (NaN false false 7) (Fin false 125 (-2))
  = Ok (fix_nan (NaN false false 7))
  /\ convert_currency (Inf true) (Fin false 125 (-2)) = Raise InvalidOperation
  /\ convert_currency (NaN false true 7) (Fin false 125 (-2))
     = Raise InvalidOperation.
Proof.
  destruct (special_prices false 7 (Fin false 125 (-2))) as [H1 _].
  destruct (special_prices true 7 (Fin false 125 (-2))) as [_ [H2 _]].
  destruct (special_prices false 7 (Fin false 125 (-2))) as [_ [_ H3]].
  split; [|split].
  - apply H1. discriminate.
  - apply H2. discriminate.
  - exact H3.
Defined.

End ConversionOfPrices.

(** ** The reference currency *)

Section ReferenceCurrency.
Local Open Scope Z_scope.

(** X9. When the feed's rate for USD reads as a nonzero number, the table
    that [fetch_exchange_rates] builds maps USD to exactly 1 (coefficient
    1, exponent 0): the comprehension divides the rate by itself, and the
    division strips the quotient of its zeros.  This holds for every such
    rate, whatever its sign, digits or exponent. *)
Theorem reference_multiplier_is_one :
  forall (w : World) (t t' : Trace) (rates : Snapshot) (usd_rate : RawRate)
         (s : bool) (c : N) (e : Z) (table : RateTable),
    requests_get w t = Ok (Some rates) ->
    NoDup (Dict.keys rates) ->
    Dict.get "USD" rates = Some usd_rate ->
    Decimal_of_raw usd_rate = Ok (Fin s c e) ->
    c <> 0%N ->
    fetch_exchange_rates w t = (Ok table, t') ->
    multiplier usd_rate usd_rate = Ok (Fin false 1 0)
    /\ Dict.get "USD" table = Some (Fin false 1 0).
Proof.
  intros w t t' rates usd_rate s c e table Hget Hnd Husd Hdec Hc Hfetch.
  assert (Hone : multiplier usd_rate usd_rate = Ok (Fin false 1 0)).
  { unfold multiplier. rewrite Hdec. cbn [rbind].
    apply truediv_self. assumption. }
  split; [exact Hone|].
  destruct (fetch_exchange_rates_ok w t table t' Hfetch)
    as [data [usd' [Hget' [Husd' [_ [Hcomp _]]]]]].
  rewrite Hget in Hget'. inversion Hget'; subst data.
  rewrite Husd in Husd'. inversion Husd'; subst usd'.
  destruct (rates_comprehension_entry usd_rate rates [] table "USD" usd_rate
              Hcomp Hnd Husd (raw_truthy_of_nonzero _ _ _ _ Hdec Hc))
    as [q [Hq Hq']].
  rewrite Hone in Hq. inversion Hq; subst q. exact Hq'.
Qed.

Lemma reference_multiplier_is_one_witness :
  multiplier (RFloat 1.25%float) (RFloat 1.25%float) = Ok (Fin false 1 0)
  /\ Dict.get "USD"
       [("USD", Fin false 1 0); ("EUR", Fin false 125 (-2));
        ("GBP", Fin false 25 (-1))]
     = Some (Fin false 1 0).
Proof.
  apply (reference_multiplier_is_one Sample.quiet [] [EvHttpGet] Sample.feed
           (RFloat 1.25%float) false 125 (-2)).
  - reflexivity.
  - repeat constructor; simpl; intuition discriminate.
  - reflexivity.
  - vm_compute. reflexivity.
  - discriminate.
  - vm_compute. reflexivity.
Defined.

(** X10. A reference rate that reads as zero passes the test of line 60
    (it is not [None]), and then every multiplier computed from a nonzero
    rate is zero, and every finite price converted with it comes out as
    zero cents. *)
Theorem zero_reference_rate_zeroes_every_price :
  forall (usd_rate rate : RawRate) (su sr : bool) (cr : N) (eu er : Z),
    Decimal_of_raw usd_rate = Ok (Fin su 0 eu) ->
    Decimal_of_raw rate = Ok (Fin sr cr er) ->
    cr <> 0%N ->
    exists e,
      multiplier usd_rate rate = Ok (Fin (xorb su sr) 0 e)
      /\ forall (sp : bool) (cp : N) (ep : Z),
           convert_currency (Fin sp cp ep) (Fin (xorb su sr) 0 e)
           = Ok (Fin (xorb sp (xorb su sr)) 0 (-2)).
Proof.
  intros usd_rate rate su sr cr eu er Hu Hr Hc.
  exists (Z.min (Z.max (eu - er) Etiny) Emax). split.
  - unfold multiplier. rewrite Hu, Hr. cbn [rbind].
    unfold truediv. cbn [check_nans sign_of].
    apply N.eqb_neq in Hc. rewrite Hc. reflexivity.
  - intros sp cp ep. apply convert_currency_zero. right. reflexivity.
Qed.

Lemma zero_reference_rate_zeroes_every_price_witness :
  exists e,
    multiplier (RInt 0) (RFloat 0.5%float) = Ok (Fin (xorb false false) 0 e)
    /\ forall (sp : bool) (cp : N) (ep : Z),
         convert_currency (Fin sp cp ep) (Fin (xorb false false) 0 e)
         = Ok (Fin (xorb sp (xorb false false)) 0 (-2)).
Proof.
  apply (zero_reference_rate_zeroes_every_price (RInt 0) (RFloat 0.5%float)
           false false 5 0 (-1)).
  - reflexivity.
  - vm_compute. reflexivity.
  - discriminate.
Defined.

End ReferenceCurrency.

(** ** The batch as a whole *)

Section Batch.

(** X11. A row that the program has normalised is a fixed point of the
    normalisation, the time stamp apart: when its [price] is the text of a
    converted price, its [currency] is [USD] and the table maps USD to 1,
    processing it again sets [creationDate] and changes nothing else. *)
Theorem normalized_row_is_a_fixed_point :
  forall (w : World) (rates : RateTable) (row : Row) (acc : list Row)
         (t : Trace) (price rate d : Decimal),
    convert_currency price rate = Ok d ->
    Dict.get "price" row = Some (VStr (to_str d)) ->
    Dict.get "currency" row = Some (VStr "USD") ->
    Dict.get "USD" rates = Some (Fin false 1 0) ->
    process_row w rates row acc t
    = (Ok (acc ++ [Dict.set "creationDate" (VStr (utcnow_isoformat w t)) row]),
       t ++ [EvUtcNow]).
Proof.
  intros w rates row acc t price rate d Hconv Hp Hc Hr.
  assert (Hagain : convert_currency d (Fin false 1 0) = Ok d).
  { destruct (convert_currency_cases price rate d Hconv)
      as [[c [-> Hd]]|[s [p [-> Hd]]]].
    - apply convert_cents_at_par. assumption.
    - apply convert_nan_at_par; [assumption|discriminate]. }
  rewrite (process_row_converts w rates row acc t (VStr (to_str d)) d
             (VStr "USD") (Fin false 1 0) d Hp (of_string_to_str d) Hc Hr
             Hagain).
  rewrite (set_same "price" _ row Hp), (set_same "currency" _ row Hc).
  reflexivity.
Qed.

Lemma normalized_row_is_a_fixed_point_witness :
  process_row Sample.quiet [("USD", Fin false 1 0)]
    [("zpid", VStr "7"); ("price", VStr "250.00"); ("currency", VStr "USD");
     ("creationDate", VStr "2024-01-01T00:00:00.1")] [] []
  = (Ok ([] ++ [Dict.set "creationDate"
                  (VStr (utcnow_isoformat Sample.quiet []))
                  [("zpid", VStr "7"); ("price", VStr "250.00");
                   ("currency", VStr "USD");
                   ("creationDate", VStr "2024-01-01T00:00:00.1")]]),
     [] ++ [EvUtcNow]).
Proof.
  apply (normalized_row_is_a_fixed_point Sample.quiet
           [("USD", Fin false 1 0)]
           [("zpid", VStr "7"); ("price", VStr "250.00");
            ("currency", VStr "USD");
            ("creationDate", VStr "2024-01-01T00:00:00.1")] [] []
           (Fin false 200 0) (Fin false 125 (-2)) (Fin false 25000 (-2))).
  - vm_compute. reflexivity.
  - reflexivity.
  - reflexivity.
  - reflexivity.
Defined.

(** X12. The output of [process_csv_data] follows the input: it has one
    row for each input row that has both a [price] and a [currency] field,
    in the input's order; in each, the fields other than [price],
    [currency] and [creationDate] are as they were, and the keys are the
    input row's keys in their order, with [creationDate] added at the end
    when the input row had none. *)
Theorem batch_keeps_order_and_fields :
  forall (w : World) (rates : RateTable) (rows out : list Row)
         (t t' : Trace),
    process_csv_data w rows rates t = (Ok out, t') ->
    Forall2
      (fun row o =>
         (forall k, k <> "price" -> k <> "currency" -> k <> "creationDate" ->
                    Dict.get k o = Dict.get k row)
         /\ Dict.keys o = archive_header (Dict.keys row))
      (filter has_both rows) out.
Proof.
  intros w rates rows out t t' H.
  destruct (process_csv_data_ok w rates rows t out t' H) as [_ Hs].
  eapply stamped_in_turn_Forall2; [|exact Hs].
  intros now row o Ho.
  destruct (row_outcome_fields rates now row o Ho) as [H1 [H2 _]]. auto.
Qed.

Lemma batch_keeps_order_and_fields_witness :
  Forall2
    (fun row o =>
       (forall k, k <> "price" -> k <> "currency" -> k <> "creationDate" ->
                  Dict.get k o = Dict.get k row)
       /\ Dict.keys o = archive_header (Dict.keys row))
    (filter has_both
       [Sample.listing "1" "100" "EUR";
        [("zpid", VStr "2"); ("currency", VStr "EUR")];
        Sample.listing "3" "7.5" "JPY"])
    [[("zpid", VStr "1"); ("price", VStr "125.00"); ("currency", VStr "USD");
      ("creationDate", VStr "2024-01-01T00:00:00.0")];
     [("zpid", VStr "3"); ("price", VStr "7.5"); ("currency", VStr "JPY");
      ("creationDate", VStr "2024-01-01T00:00:00.1")]].
Proof.
  apply (batch_keeps_order_and_fields Sample.quiet
           [("EUR", Fin false 125 (-2))]
           [Sample.listing "1" "100" "EUR";
            [("zpid", VStr "2"); ("currency", VStr "EUR")];
            Sample.listing "3" "7.5" "JPY"]
           _ [] [EvUtcNow; EvUtcNow]).
  vm_compute. reflexivity.
Defined.

(** X13. The batch processor touches nothing but the clock, which it
    reads once for each row it puts out: the history grows by as many clock
    reads as there are output rows, and the [creationDate] of the row at
    position [i] is the reading taken after [i] earlier reads, so the rows
    of one batch are stamped one by one and not with one time for the
    batch. *)
Theorem each_row_is_stamped_at_its_turn :
  forall (w : World) (rates : RateTable) (rows out : list Row)
         (t t' : Trace),
    process_csv_data w rows rates t = (Ok out, t') ->
    t' = t ++ repeat EvUtcNow (List.length out)
    /\ forall i o,
         nth_error out i = Some o ->
         Dict.get "creationDate" o
         = Some (VStr (utcnow_isoformat w (t ++ repeat EvUtcNow i))).
Proof.
  intros w rates rows out t t' H.
  destruct (process_csv_data_ok w rates rows t out t' H) as [Ht Hs].
  split; [exact Ht|]. intros i o Hi.
  destruct (stamped_in_turn_nth w rates t _ out Hs i o Hi) as [row [_ Ho]].
  apply (row_outcome_fields rates _ row o Ho).
Qed.

Lemma each_row_is_stamped_at_its_turn_witness :
  [EvUtcNow; EvUtcNow]
  = [] ++ repeat EvUtcNow
            (List.length
               [[("zpid", VStr "1"); ("price", VStr "125.00");
                 ("currency", VStr "USD");
                 ("creationDate", VStr "2024-01-01T00:00:00.0")];
                [("zpid", VStr "3"); ("price", VStr "7.5");
                 ("currency", VStr "JPY");
                 ("creationDate", VStr "2024-01-01T00:00:00.1")]])
  /\ forall i o,
       nth_error
         [[("zpid", VStr "1"); ("price", VStr "125.00");
           ("currency", VStr "USD");
           ("creationDate", VStr "2024-01-01T00:00:00.0")];
          [("zpid", VStr "3"); ("price", VStr "7.5");
           ("currency", VStr "JPY");
           ("creationDate", VStr "2024-01-01T00:00:00.1")]] i = Some o ->
       Dict.get "creationDate" o
       = Some (VStr (utcnow_isoformat Sample.quiet
                       ([] ++ repeat EvUtcNow i))).
Proof.
  apply (each_row_is_stamped_at_its_turn Sample.quiet
           [("EUR", Fin false 125 (-2))]
           [Sample.listing "1" "100" "EUR";
            [("zpid", VStr "2"); ("currency", VStr "EUR")];
            Sample.listing "3" "7.5" "JPY"]).
  vm_compute. reflexivity.
Defined.

(** X14. After normalisation no row carries a currency the table knows,
    the reference currency apart: the [currency] of an output row is [USD],
    or it is what the input row had and no key of the rate table. *)
Theorem normalized_currency_is_reference_or_unknown :
  forall (w : World) (rates : RateTable) (rows out : list Row)
         (t t' : Trace),
    process_csv_data w rows rates t = (Ok out, t') ->
    Forall2
      (fun row o =>
         Dict.get "currency" o = Some (VStr "USD")
         \/ (Dict.get "currency" o = Dict.get "currency" row
             /\ Dict.get "price" o = Dict.get "price" row
             /\ exists cur,
                  Dict.get "currency" row = Some cur
                  /\ lookup_rate cur rates = None))
      (filter has_both rows) out.
Proof.
  intros w rates rows out t t' H.
  destruct (process_csv_data_ok w rates rows t out t' H) as [_ Hs].
  eapply stamped_in_turn_Forall2; [|exact Hs].
  intros now row o
    [p cur price Hp Hv Hc Hr|p cur price rate conv Hp Hv Hc Hr Hconv].
  - right. rewrite !get_set_other by discriminate. eauto.
  - left. rewrite get_set_other by discriminate. apply get_set_same.
Qed.

Lemma normalized_currency_is_reference_or_unknown_witness :
  Forall2
    (fun row o =>
       Dict.get "currency" o = Some (VStr "USD")
       \/ (Dict.get "currency" o = Dict.get "currency" row
           /\ Dict.get "price" o = Dict.get "price" row
           /\ exists cur,
                Dict.get "currency" row = Some cur
                /\ lookup_rate cur [("EUR", Fin false 125 (-2))] = None))
    (filter has_both
       [Sample.listing "1" "100" "EUR"; Sample.listing "3" "7.5" "JPY"])
    [[("zpid", VStr "1"); ("price", VStr "125.00"); ("currency", VStr "USD");
      ("creationDate", VStr "2024-01-01T00:00:00.0")];
     [("zpid", VStr "3"); ("price", VStr "7.5"); ("currency", VStr "JPY");
      ("creationDate", VStr "2024-01-01T00:00:00.1")]].
Proof.
  apply (normalized_currency_is_reference_or_unknown Sample.quiet
           [("EUR", Fin false 125 (-2))]
           [Sample.listing "1" "100" "EUR"; Sample.listing "3" "7.5" "JPY"]
           _ [] [EvUtcNow; EvUtcNow]).
  vm_compute. reflexivity.
Defined.

(** X15. The rows that [process_csv_data] returns all have a [price], a
    [currency] and a [creationDate]; so when they are handed to
    [upload_to_dynamodb], line 105 never raises, and the items put to the
    table are exactly the rows with a [zpid], in order, whatever the
    table answers. *)
Theorem normalized_rows_suit_the_table_writer :
  forall (w : World) (rates : RateTable) (rows out : list Row)
         (t t' : Trace),
    process_csv_data w rows rates t = (Ok out, t') ->
    Forall (fun o => Dict.mem "price" o = true
                     /\ Dict.mem "currency" o = true
                     /\ Dict.mem "creationDate" o = true) out
    /\ forall t1,
       exists new,
         upload_to_dynamodb w out t1
         = (match batch_flush w (t1 ++ new) with
            | Ok _ => Ok (map as_stored out)
            | Raise e => Raise e
            end, t1 ++ new ++ [EvBatchFlush])
         /\ items_put new
            = filter (fun item => Dict.mem "zpid" item) (map as_stored out)
         /\ ~ In EvBatchFlush new.
Proof.
  intros w rates rows out t t' H.
  destruct (process_csv_data_ok w rates rows t out t' H) as [_ Hs].
  pose proof (stamped_in_turn_fields w rates t _ out Hs) as Hf.
  split; [exact Hf|]. intros t1.
  assert (Hall : Forall (fun item => Dict.mem "creationDate" item = true) out).
  { eapply Forall_impl; [|exact Hf]. intros o [_ [_ Ho]]. exact Ho. }
  destruct (upload_to_dynamodb_spec w out t1 Hall) as [new [E [P [L _]]]].
  exists new. auto.
Qed.

Lemma normalized_rows_suit_the_table_writer_witness :
  Forall (fun o => Dict.mem "price" o = true
                   /\ Dict.mem "currency" o = true
                   /\ Dict.mem "creationDate" o = true)
    [[("zpid", VStr "1"); ("price", VStr "125.00"); ("currency", VStr "USD");
      ("creationDate", VStr "2024-01-01T00:00:00.0")]]
  /\ forall t1,
     exists new,
       upload_to_dynamodb Sample.quiet
         [[("zpid", VStr "1"); ("price", VStr "125.00");
           ("currency", VStr "USD");
           ("creationDate", VStr "2024-01-01T00:00:00.0")]] t1
       = (match batch_flush Sample.quiet (t1 ++ new) with
          | Ok _ =>
              Ok (map as_stored
                    [[("zpid", VStr "1"); ("price", VStr "125.00");
                      ("currency", VStr "USD");
                      ("creationDate", VStr "2024-01-01T00:00:00.0")]])
          | Raise e => Raise e
          end, t1 ++ new ++ [EvBatchFlush])
       /\ items_put new
          = filter (fun item => Dict.mem "zpid" item)
              (map as_stored
                 [[("zpid", VStr "1"); ("price", VStr "125.00");
                   ("currency", VStr "USD");
                   ("creationDate", VStr "2024-01-01T00:00:00.0")]])
       /\ ~ In EvBatchFlush new.
Proof.
  apply (normalized_rows_suit_the_table_writer Sample.quiet
           [("EUR", Fin false 125 (-2))]
           [Sample.listing "1" "100" "EUR"] _ [] [EvUtcNow]).
  vm_compute. reflexivity.
Defined.

End Batch.

(** ** One file, from the read to the archive *)

Section OneFile.

(** X16. A file whose rows all have the same keys (the file's header) and
    all normalise is carried through: after the read and the clock reads
    come the table writer's events, ending in the flush; when the flush
    raises, that is the end of the file's turn and no archive is written;
    otherwise the archive is written once, to the processed bucket under
    [processed_] and the file's key, with the file's header (and
    [creationDate], when the header lacked it) and one line per output
    row, and an error of that write is printed and goes no further. *)
Theorem file_of_one_header_is_archived :
  forall (w : World) (processed_bucket : string) (rates : RateTable)
         (b k : string) (t t1 : Trace) (rows out : list Row)
         (header : list string),
    s3_get_object w t b k = Ok rows ->
    Forall (fun row => Dict.keys row = header) rows ->
    process_csv_data w rows rates (t ++ [EvGetObject b k]) = (Ok out, t1) ->
    out <> [] ->
    exists new,
      items_put new
      = filter (fun item => Dict.mem "zpid" item) (map as_stored out)
      /\ ~ In EvBatchFlush new
      /\ match batch_flush w (t1 ++ new) with
         | Raise e =>
             process_file w processed_bucket rates b k t
             = (Raise e, t1 ++ new ++ [EvBatchFlush])
         | Ok _ =>
             let lines :=
               map (archive_line (archive_header header))
                 (map as_stored out) in
             let key := ("processed_" ++ k)%string in
             process_file w processed_bucket rates b k t
             = (Ok tt,
                (t1 ++ new ++ [EvBatchFlush])
                  ++ EvPutObject processed_bucket key
                       (archive_header header) lines
                  :: match s3_put_object w (t1 ++ new ++ [EvBatchFlush])
                             processed_bucket key
                             (archive_header header) lines with
                     | Ok _ => []
                     | Raise e =>
                         [EvPrint (Error_writing_processed_file
                                     processed_bucket key e)]
                     end)
         end.
Proof.
  intros w pb rates b k t t1 rows out header Hget Hkeys Hproc Hne.
  destruct (process_csv_data_ok w rates rows _ out t1 Hproc) as [_ Hs].
  pose proof (stamped_in_turn_fields w rates _ _ out Hs) as Hf.
  assert (Hall : Forall (fun item => Dict.mem "creationDate" item = true) out).
  { eapply Forall_impl; [|exact Hf]. intros o [_ [_ Ho]]. exact Ho. }
  assert (Hout : Forall (fun o => Dict.keys o = archive_header header) out).
  { eapply stamped_in_turn_keys; [exact Hs|].
    apply Forall_filter. exact Hkeys. }
  destruct (upload_to_dynamodb_spec w out t1 Hall) as [new [E [P [L _]]]].
  exists new. split; [exact P|]. split; [exact L|].
  destruct (batch_flush w (t1 ++ new)) as [[]|e]; cbv zeta;
    unfold process_file; unfold bind at 1;
    unfold read_csv_from_s3, try_except, call; rewrite Hget;
    unfold bind at 1; rewrite Hproc; unfold bind at 1; rewrite E;
    [|reflexivity].
  destruct out as [|first rest]; [contradiction|].
  apply (write_rectangular w pb _ (as_stored first) (map as_stored rest)).
  change (as_stored first :: map as_stored rest)
    with (map as_stored (first :: rest)).
  apply Forall_map. eapply Forall_impl; [|exact Hout].
  intros o Ho. simpl. rewrite keys_as_stored. exact Ho.
Qed.

Lemma file_of_one_header_is_archived_witness :
  exists new,
    items_put new
    = filter (fun item => Dict.mem "zpid" item)
        (map as_stored
           [[("zpid", VStr "1"); ("price", VStr "125.00");
             ("currency", VStr "USD");
             ("creationDate", VStr "2024-01-01T00:00:00.1")]])
    /\ ~ In EvBatchFlush new
    /\ match batch_flush
               (Sample.world (Some Sample.feed)
                  [Sample.listing "1" "100" "EUR"])
               ([EvGetObject "raw" "a.csv"; EvUtcNow] ++ new) with
       | Raise e =>
           process_file
             (Sample.world (Some Sample.feed)
                [Sample.listing "1" "100" "EUR"])
             "processed" [("EUR", Fin false 125 (-2))] "raw" "a.csv" []
           = (Raise e,
              [EvGetObject "raw" "a.csv"; EvUtcNow] ++ new ++ [EvBatchFlush])
       | Ok _ =>
           let lines :=
             map (archive_line
                    (archive_header ["zpid"; "price"; "currency"]))
               (map as_stored
                  [[("zpid", VStr "1"); ("price", VStr "125.00");
                    ("currency", VStr "USD");
                    ("creationDate", VStr "2024-01-01T00:00:00.1")]]) in
           let key := ("processed_" ++ "a.csv")%string in
           process_file
             (Sample.world (Some Sample.feed)
                [Sample.listing "1" "100" "EUR"])
             "processed" [("EUR", Fin false 125 (-2))] "raw" "a.csv" []
           = (Ok tt,
              ([EvGetObject "raw" "a.csv"; EvUtcNow] ++ new
                 ++ [EvBatchFlush])
                ++ EvPutObject "processed" key
                     (archive_header ["zpid"; "price"; "currency"]) lines
                :: match s3_put_object
                           (Sample.world (Some Sample.feed)
                              [Sample.listing "1" "100" "EUR"])
                           ([EvGetObject "raw" "a.csv"; EvUtcNow] ++ new
                              ++ [EvBatchFlush])
                           "processed" key
                           (archive_header ["zpid"; "price"; "currency"])
                           lines with
                   | Ok _ => []
                   | Raise e =>
                       [EvPrint (Error_writing_processed_file
                                   "processed" key e)]
                   end)
       end.
Proof.
  apply (file_of_one_header_is_archived
           (Sample.world (Some Sample.feed) [Sample.listing "1" "100" "EUR"])
           "processed" [("EUR", Fin false 125 (-2))] "raw" "a.csv" []
           [EvGetObject "raw" "a.csv"; EvUtcNow]
           [Sample.listing "1" "100" "EUR"]
           [[("zpid", VStr "1"); ("price", VStr "125.00");
             ("currency", VStr "USD");
             ("creationDate", VStr "2024-01-01T00:00:00.1")]]
           ["zpid"; "price"; "currency"]).
  - reflexivity.
  - repeat constructor.
  - vm_compute. reflexivity.
  - discriminate.
Defined.

(** X17. The archive's header is the first record's keys, and
    [DictWriter] refuses a record with a field outside it: when some later
    record has such a field, nothing is written to the store, the
    [ValueError] is printed, and the function returns normally. *)
Theorem field_outside_the_header_refuses_the_archive :
  forall (w : World) (bucket key : string) (first : Row) (rest : list Row)
         (t : Trace),
    Exists (fun row => ~ incl (Dict.keys row) (Dict.keys first)) rest ->
    write_processed_csv_to_s3 w bucket key (first :: rest) t
    = (Ok tt,
       t ++ [EvPrint (Error_writing_processed_file bucket key
                        (ValueError
                           "dict contains fields not in fieldnames"))]).
Proof.
  intros w bucket key first rest t H.
  unfold write_processed_csv_to_s3, try_except, bind, lift, call, print.
  rewrite (writerows_refused (Dict.keys first) (first :: rest)).
  - reflexivity.
  - apply Exists_cons_tl. exact H.
Qed.

Lemma field_outside_the_header_refuses_the_archive_witness :
  write_processed_csv_to_s3 Sample.quiet "processed" "processed_a.csv"
    ([("price", VStr "110.00")]
       :: [[("price", VStr "1.00")];
           [("zpid", VStr "7"); ("price", VStr "1.00")]]) []
  = (Ok tt,
     [] ++ [EvPrint (Error_writing_processed_file "processed"
                       "processed_a.csv"
                       (ValueError
                          "dict contains fields not in fieldnames"))]).
Proof.
  apply (field_outside_the_header_refuses_the_archive Sample.quiet).
  apply Exists_cons_tl. apply Exists_cons_hd.
  intros H. specialize (H "zpid" (or_introl eq_refl)).
  simpl in H. intuition discriminate.
Defined.

(** X18. A file that cannot be read costs two lines of output and
    nothing else: [read_csv_from_s3] prints the exception and raises it
    again, the handler's loop prints it a second time, and the turn ends
    normally without a clock read, a table write or an archive. *)
Theorem unreadable_file_is_logged_twice :
  forall (w : World) (processed_bucket : string) (rates : RateTable)
         (record : FileRef) (t : Trace) (e : Exn),
    s3_get_object w t record.(bucket) record.(key) = Raise e ->
    read_csv_from_s3 w record.(bucket) record.(key) t
    = (Raise e,
       t ++ [EvGetObject record.(bucket) record.(key);
             EvPrint (Error_reading_file record.(key) record.(bucket) e)])
    /\ handle_record w processed_bucket rates record tt t
       = (Ok tt,
          t ++ [EvGetObject record.(bucket) record.(key);
                EvPrint (Error_reading_file record.(key) record.(bucket) e);
                EvPrint (Error_processing_file
                           record.(key) record.(bucket) e)]).
Proof.
  intros w pb rates record t e H. split.
  - unfold read_csv_from_s3, try_except, call, bind, print, raise.
    rewrite H, <- app_assoc. reflexivity.
  - unfold handle_record, try_except, process_file. unfold bind at 1.
    unfold read_csv_from_s3, try_except, call, bind, print, raise.
    rewrite H, <- !app_assoc. reflexivity.
Qed.

Lemma unreadable_file_is_logged_twice_witness :
  read_csv_from_s3 flaky_store "raw" "missing.csv" []
  = (Raise (External "NoSuchKey"),
     [] ++ [EvGetObject "raw" "missing.csv";
            EvPrint (Error_reading_file "missing.csv" "raw"
                       (External "NoSuchKey"))])
  /\ handle_record flaky_store "processed" [("EUR", Sample.one)]
       {| bucket := "raw"; key := "missing.csv" |} tt []
     = (Ok tt,
        [] ++ [EvGetObject "raw" "missing.csv";
               EvPrint (Error_reading_file "missing.csv" "raw"
                          (External "NoSuchKey"));
               EvPrint (Error_processing_file "missing.csv" "raw"
                          (External "NoSuchKey"))]).
Proof.
  apply (unreadable_file_is_logged_twice flaky_store "processed"
           [("EUR", Sample.one)]
           {| bucket := "raw"; key := "missing.csv" |} []
           (External "NoSuchKey")).
  reflexivity.
Defined.

(** X19. A file without a usable row (an empty file, or one in which no
    row has both a [price] and a [currency]) is not an error of the
    reading or the normalising, yet its turn ends in an error message: no
    clock is read, the table's batch is opened and flushed with nothing in
    it, and the archive writer fails on the empty batch and prints an
    [IndexError]; nothing is stored. *)
Theorem file_without_usable_rows :
  forall (w : World) (processed_bucket : string) (rates : RateTable)
         (record : FileRef) (t : Trace) (rows : list Row),
    s3_get_object w t record.(bucket) record.(key) = Ok rows ->
    Forall (fun row => has_both row = false) rows ->
    handle_record w processed_bucket rates record tt t
    = (Ok tt,
       t ++ [EvGetObject record.(bucket) record.(key);
             EvBatchFlush;
             EvPrint
               match batch_flush w
                       (t ++ [EvGetObject record.(bucket) record.(key)]) with
               | Ok _ =>
                   Error_writing_processed_file processed_bucket
                     ("processed_" ++ record.(key)) IndexError
               | Raise e =>
                   Error_processing_file record.(key) record.(bucket) e
               end]).
Proof.
  intros w pb rates record t rows Hget Hrows.
  unfold handle_record, try_except, process_file. unfold bind at 1.
  unfold read_csv_from_s3, try_except, call. rewrite Hget.
  unfold bind at 1. unfold process_csv_data.
  rewrite (process_loop_skips w rates rows [] _ Hrows).
  unfold upload_to_dynamodb, bind, call, ret, print. cbn [for_each].
  unfold ret.
  destruct (batch_flush w _) as [[]|e]; cbn;
    rewrite <- !app_assoc; reflexivity.
Qed.

Lemma file_without_usable_rows_witness :
  handle_record
    (Sample.world (Some Sample.feed)
       [[("zpid", VStr "2"); ("currency", VStr "EUR")]])
    "processed" [("EUR", Sample.one)]
    {| bucket := "raw"; key := "a.csv" |} tt []
  = (Ok tt,
     [] ++ [EvGetObject "raw" "a.csv"; EvBatchFlush;
            EvPrint
              match batch_flush
                      (Sample.world (Some Sample.feed)
                         [[("zpid", VStr "2"); ("currency", VStr "EUR")]])
                      ([] ++ [EvGetObject "raw" "a.csv"]) with
              | Ok _ =>
                  Error_writing_processed_file "processed"
                    ("processed_" ++ "a.csv") IndexError
              | Raise e => Error_processing_file "a.csv" "raw" e
              end]).
Proof.
  apply (file_without_usable_rows
           (Sample.world (Some Sample.feed)
              [[("zpid", VStr "2"); ("currency", VStr "EUR")]])
           "processed" [("EUR", Sample.one)]
           {| bucket := "raw"; key := "a.csv" |} []
           [[("zpid", VStr "2"); ("currency", VStr "EUR")]]).
  - reflexivity.
  - repeat constructor.
Defined.

(** X20. The effects of a file's turn come in stages: after the read, the
    clock reads of the normalising, then the table writer's events (puts,
    its error messages, the flush), then the archive writer's (the write
    or its error message).  Nothing is handed to the table before every
    row of the file has been normalised, and the archive is written after
    the table writer is done; when the normalising raises, there are clock
    reads and nothing else. *)
Theorem effects_of_a_file_come_in_stages :
  forall (w : World) (processed_bucket : string) (rates : RateTable)
         (b k : string) (t : Trace) (rows : list Row),
    s3_get_object w t b k = Ok rows ->
    exists clocks tables archives,
      snd (process_file w processed_bucket rates b k t)
      = t ++ [EvGetObject b k] ++ clocks ++ tables ++ archives
      /\ Forall clock_event clocks
      /\ Forall table_event tables
      /\ Forall archive_event archives
      /\ (forall e,
            fst (process_csv_data w rows rates (t ++ [EvGetObject b k]))
            = Raise e ->
            fst (process_file w processed_bucket rates b k t) = Raise e
            /\ tables = [] /\ archives = []).
Proof.
  intros w pb rates b k t rows Hget.
  assert (Hpf : process_file w pb rates b k t
                = (processed_data <- process_csv_data w rows rates ;;
                   processed_data <- upload_to_dynamodb w processed_data ;;
                   write_processed_csv_to_s3 w pb ("processed_" ++ k)%string
                     processed_data)
                    (t ++ [EvGetObject b k])).
  { unfold process_file. unfold bind at 1.
    unfold read_csv_from_s3, try_except, call. rewrite Hget. reflexivity. }
  rewrite Hpf. clear Hpf. unfold bind.
  destruct (emits_process_csv_data w rows rates (t ++ [EvGetObject b k]))
    as [clocks [Ec Fc]].
  destruct (process_csv_data w rows rates (t ++ [EvGetObject b k]))
    as [[out|e] t1]; cbn [snd] in Ec; subst t1.
  - destruct (emits_upload_to_dynamodb w out
                ((t ++ [EvGetObject b k]) ++ clocks)) as [tables [Et Ft]].
    destruct (upload_to_dynamodb w out _) as [[items|e] t2];
      cbn [snd] in Et; subst t2.
    + destruct (emits_write_processed_csv_to_s3 w pb
                  ("processed_" ++ k)%string items
                  (((t ++ [EvGetObject b k]) ++ clocks) ++ tables))
        as [archives [Ea Fa]].
      exists clocks, tables, archives. rewrite Ea, <- !app_assoc.
      repeat split; auto; discriminate.
    + exists clocks, tables, []. cbn [snd fst].
      rewrite <- !app_assoc, app_nil_r.
      repeat split; auto; discriminate.
  - exists clocks, [], []. cbn [snd fst]. rewrite <- !app_assoc.
    split; [cbn [app]; rewrite app_nil_r; reflexivity|].
    split; [assumption|].
    split; [constructor|]. split; [constructor|].
    intros e' He'. inversion He'. auto.
Qed.

Lemma effects_of_a_file_come_in_stages_witness :
  exists clocks tables archives,
    snd (process_file
           (Sample.world (Some Sample.feed) [Sample.listing "1" "100" "EUR"])
           "processed" [("EUR", Fin false 125 (-2))] "raw" "a.csv" [])
    = [] ++ [EvGetObject "raw" "a.csv"] ++ clocks ++ tables ++ archives
    /\ Forall clock_event clocks
    /\ Forall table_event tables
    /\ Forall archive_event archives
    /\ (forall e,
          fst (process_csv_data
                 (Sample.world (Some Sample.feed)
                    [Sample.listing "1" "100" "EUR"])
                 [Sample.listing "1" "100" "EUR"]
                 [("EUR", Fin false 125 (-2))]
                 ([] ++ [EvGetObject "raw" "a.csv"]))
          = Raise e ->
          fst (process_file
                 (Sample.world (Some Sample.feed)
                    [Sample.listing "1" "100" "EUR"])
                 "processed" [("EUR", Fin false 125 (-2))] "raw" "a.csv" [])
          = Raise e
          /\ tables = [] /\ archives = []).
Proof.
  apply (effects_of_a_file_come_in_stages
           (Sample.world (Some Sample.feed) [Sample.listing "1" "100" "EUR"])
           "processed" [("EUR", Fin false 125 (-2))] "raw" "a.csv" []
           [Sample.listing "1" "100" "EUR"]).
  reflexivity.
Defined.

End OneFile.

(** ** The handler and its event *)

Section HandlerEffects.

(** X21. Whatever the event and the world, the only writes of objects
    that the handler makes are archives of the event's files: each goes to
    the processed bucket, under the key of one of the event's records with
    [processed_] put before it (before the whole key, folders included);
    the only objects read are those the event names; and a bucket the
    event names is written to only if it is the processed bucket
    itself. *)
Theorem archives_go_to_the_processed_bucket :
  forall (w : World) (processed_bucket : string) (event : list FileRef)
         (t : Trace),
    exists new,
      snd (lambda_handler w processed_bucket event t) = t ++ new
      /\ (forall b k header lines,
            In (EvPutObject b k header lines) new ->
            b = processed_bucket
            /\ exists record,
                 In record event
                 /\ k = ("processed_" ++ record.(key))%string)
      /\ (forall b k,
            In (EvGetObject b k) new ->
            exists record,
              In record event /\ b = record.(bucket) /\ k = record.(key))
      /\ (forall b k header lines record,
            In (EvPutObject b k header lines) new ->
            In record event ->
            record.(bucket) <> processed_bucket ->
            b <> record.(bucket)).
Proof.
  intros w pb event t.
  assert (H : emits (fun ev => ev = EvHttpGet
                               \/ (exists e, ev = EvPrint e)
                               \/ exists record,
                                    In record event
                                    /\ file_event pb record ev)
                (lambda_handler w pb event)).
  { unfold lambda_handler. apply emits_bind.
    - intros t0. destruct (fetch_exchange_rates_cases w t0) as [[tb E]|[e E]];
        rewrite E; eexists; (split; [reflexivity|]).
      + constructor; [left; reflexivity|constructor].
      + constructor; [left; reflexivity|].
        constructor; [right; left; eauto|constructor].
    - intros rates. apply emits_bind; [|auto with emits].
      apply emits_for_each_in. intros record u Hin.
      eapply emits_weaken; [|apply emits_handle_record].
      intros ev Hev. right. right. eauto. }
  destruct (H t) as [new [E F]]. exists new. split; [exact E|].
  rewrite Forall_forall in F.
  assert (Hput : forall b k header lines,
             In (EvPutObject b k header lines) new ->
             b = pb
             /\ exists record,
                  In record event
                  /\ k = ("processed_" ++ record.(key))%string).
  { intros b k header lines Hin.
    destruct (F _ Hin) as [Hx|[[e Hx]|[record [Hr Hx]]]];
      try discriminate.
    simpl in Hx. destruct Hx as [-> ->]. eauto. }
  split; [exact Hput|]. split.
  - intros b k Hin.
    destruct (F _ Hin) as [Hx|[[e Hx]|[record [Hr Hx]]]];
      try discriminate.
    simpl in Hx. destruct Hx as [-> ->]. eauto.
  - intros b k header lines record Hin _ Hne Heq.
    destruct (Hput b k header lines Hin) as [Hb _].
    apply Hne. congruence.
Qed.

(** The bucket that is read is not kept apart from the bucket that is
    written: an event that names a file of the processed bucket has its
    archive written next to it, in the bucket it was read from. *)
Example file_of_the_processed_bucket_is_archived_beside_it :
  snd (lambda_handler
         (Sample.world (Some Sample.feed) [Sample.listing "1" "100" "EUR"])
         "processed" [{| bucket := "processed"; key := "a.csv" |}] [])
  = [EvHttpGet;
     EvGetObject "processed" "a.csv";
     EvUtcNow;
     EvPutItem [("zpid", VStr "1"); ("price", VStr "125.00");
                ("currency", VStr "USD");
                ("creationDate", VStr "2024-01-01T00:00:00.2")];
     EvBatchFlush;
     EvPutObject "processed" "processed_a.csv"
       ["zpid"; "price"; "currency"; "creationDate"]
       [["1"; "125.00"; "USD"; "2024-01-01T00:00:00.2"]]].
Proof. vm_compute. reflexivity. Qed.


(** X23. The handler of the claims, which takes the file references as
    given, is the handler of the source on every event whose records all
    have the members the source asks for: taking bucket and key out of the
    records, in the order of the records, and going on with them is all
    that lines 32 to 34 do then. *)
Theorem well_formed_event_is_its_file_references :
  forall (w : World) (processed_bucket : string) (event : RawEvent)
         (records : list RawRecord) (refs : list FileRef) (t : Trace),
    Dict.get "Records" event = Some records ->
    Forall2 names records refs ->
    Invocation.lambda_handler w processed_bucket event t
    = lambda_handler w processed_bucket refs t.
Proof.
  intros w pb event records refs t Hrec Hnames.
  unfold Invocation.lambda_handler, lambda_handler, bind, lift,
    Dict.getitem.
  destruct (fetch_exchange_rates w t) as [[rates|e] t1]; [|reflexivity].
  rewrite Hrec, (raw_loop w pb rates records refs Hnames t1).
  reflexivity.
Qed.

Lemma well_formed_event_is_its_file_references_witness :
  Invocation.lambda_handler flaky_store "processed"
    [("Records", [notification "raw" "missing.csv";
                  notification "raw" "listings.csv"])] []
  = lambda_handler flaky_store "processed"
      [ {| bucket := "raw"; key := "missing.csv" |};
        {| bucket := "raw"; key := "listings.csv" |} ] [].
Proof.
  apply (well_formed_event_is_its_file_references flaky_store "processed"
           [("Records", [notification "raw" "missing.csv";
                         notification "raw" "listings.csv"])]
           [notification "raw" "missing.csv";
            notification "raw" "listings.csv"]).
  - reflexivity.
  - repeat constructor.
Defined.

(** X24. What the handler asks of the event it asks outside the [try]
    block, so a member that is missing ends the invocation with a
    [KeyError].  The rates are fetched before the event is looked at: an
    event without [Records] costs the request to the feed all the same.  A
    record that lacks a member on the way to its bucket name or its key is
    met only when its turn comes: the records before it are handled as
    ever (read, normalised, stored), the [KeyError] goes to the caller in
    place of the acknowledgment, and the records after it are never
    touched. *)
Theorem missing_member_of_the_event_is_fatal :
  forall (w : World) (processed_bucket : string) (event : RawEvent)
         (t t1 : Trace) (rates : RateTable),
    fetch_exchange_rates w t = (Ok rates, t1) ->
    (Dict.get "Records" event = None ->
     Invocation.lambda_handler w processed_bucket event t
     = (Raise (KeyError "Records"), t1))
    /\ forall (pre post : list RawRecord) (bad : RawRecord)
              (refs : list FileRef) (e : Exn),
         Dict.get "Records" event = Some (pre ++ bad :: post) ->
         Forall2 names pre refs ->
         Invocation.path "s3" "bucket" "name" bad = Raise e
         \/ ((exists b, Invocation.path "s3" "bucket" "name" bad = Ok b)
             /\ Invocation.path "s3" "object" "key" bad = Raise e) ->
         Invocation.lambda_handler w processed_bucket event t
         = (Raise e, snd (lambda_handler w processed_bucket refs t))
         /\ (exists k,
               e = KeyError k
               /\ In k ["s3"; "bucket"; "name"; "object"; "key"])
         /\ objects_read (snd (lambda_handler w processed_bucket refs t))
            = objects_read t1
                ++ map (fun r => (r.(bucket), r.(key))) refs.
Proof.
  intros w pb event t t1 rates Hfetch. split.
  - intros Hnone. unfold Invocation.lambda_handler. unfold bind at 1.
    rewrite Hfetch. unfold bind, lift, Dict.getitem. rewrite Hnone.
    reflexivity.
  - intros pre post bad refs e Hrec Hpre Hbad.
    destruct (handler_loop_spec w pb rates refs t1) as [t2 [El Er]].
    assert (Hh : lambda_handler w pb refs t = (Ok acknowledgment, t2)).
    { unfold lambda_handler, bind, ret. rewrite Hfetch, El. reflexivity. }
    rewrite Hh. cbn [snd]. split; [|split].
    + unfold Invocation.lambda_handler. unfold bind at 1. rewrite Hfetch.
      unfold bind at 1. unfold lift at 1. unfold Dict.getitem. rewrite Hrec.
      unfold bind at 1. rewrite for_each_app. unfold bind at 1.
      rewrite (raw_loop w pb rates pre refs Hpre t1), El.
      cbn [for_each]. unfold bind at 1.
      unfold Invocation.handle_record.
      destruct Hbad as [Hb|[[b Hb] Hk]].
      * unfold bind at 1. unfold lift at 1. rewrite Hb. reflexivity.
      * unfold bind at 1. unfold lift at 1. rewrite Hb.
        unfold bind at 1. unfold lift at 1. rewrite Hk. reflexivity.
    + destruct Hbad as [Hb|[_ Hk]];
        [apply path_raises in Hb as [->|[->| ->]]
        |apply path_raises in Hk as [->|[->| ->]]];
        eexists; (split; [reflexivity|]); simpl; tauto.
    + exact Er.
Qed.

Lemma missing_member_of_the_event_is_fatal_witness :
  Invocation.lambda_handler flaky_store "processed"
    [("records", [notification "raw" "listings.csv"])] []
  = (Raise (KeyError "Records"), [EvHttpGet])
  /\ (Invocation.lambda_handler flaky_store "processed"
        [("Records",
          [notification "raw" "listings.csv"]
            ++ [("s3", [("bucket", [("name", "raw")])])]
            :: [notification "raw" "other.csv"])] []
      = (Raise (KeyError "object"),
         snd (lambda_handler flaky_store "processed"
                [ {| bucket := "raw"; key := "listings.csv" |} ] []))
      /\ (exists k,
            KeyError "object" = KeyError k
            /\ In k ["s3"; "bucket"; "name"; "object"; "key"])
      /\ objects_read
           (snd (lambda_handler flaky_store "processed"
                   [ {| bucket := "raw"; key := "listings.csv" |} ] []))
         = objects_read [EvHttpGet]
             ++ map (fun r => (r.(bucket), r.(key)))
                  [ {| bucket := "raw"; key := "listings.csv" |} ]).
Proof.
  destruct (missing_member_of_the_event_is_fatal flaky_store "processed"
              [("records", [notification "raw" "listings.csv"])] []
              [EvHttpGet]
              [("USD", Fin false 1 0); ("EUR", Fin false 125 (-2));
               ("GBP", Fin false 25 (-1))]
              ltac:(vm_compute; reflexivity)) as [H1 _].
  destruct (missing_member_of_the_event_is_fatal flaky_store "processed"
              [("Records",
                [notification "raw" "listings.csv"]
                  ++ [("s3", [("bucket", [("name", "raw")])])]
                  :: [notification "raw" "other.csv"])] []
              [EvHttpGet]
              [("USD", Fin false 1 0); ("EUR", Fin false 125 (-2));
               ("GBP", Fin false 25 (-1))]
              ltac:(vm_compute; reflexivity)) as [_ H2].
  split; [exact (H1 eq_refl)|].
  apply (H2 [notification "raw" "listings.csv"]
            [notification "raw" "other.csv"]
            [("s3", [("bucket", [("name", "raw")])])]
            [ {| bucket := "raw"; key := "listings.csv" |} ]
            (KeyError "object")).
  - reflexivity.
  - repeat constructor.
  - right. split; [exists "raw"; reflexivity|reflexivity].
Defined.

End HandlerEffects.
